(** * PlantSpace backend: relay, message controller and rate limiter

  A shallow embedding of the parts of the PlantSpace backend that the
  messaging specification talks about:

  - [Js]: the two JavaScript array primitives the relay uses to build a
    conversation key ([Array.prototype.sort] with the default comparator
    and [Array.prototype.join]);
  - [Store]: the [users] and [messages] tables as the SQL schemas of the
    repository declare them, with the PostgREST calls the handlers make;
  - [Relay]: [setupSocketHandlers] of [services/socketService.ts];
  - [Messages]: [controllers/messageController.ts];
  - [RateLimit]: [createRateLimit] of [middleware/auth.ts]. *)

From Stdlib Require Import ZArith Lia Bool List Ascii String.
From Stdlib Require Import Sorted Permutation.
From stdpp Require Import base gmap strings list fin_maps sorting.

Local Open Scope string_scope.
Local Open Scope list_scope.
Local Open Scope Z_scope.

(** ** JavaScript helpers *)

Module Js.

(** [x || d] on an optional string: [undefined], [null] and the empty
    string are falsy. *)
Definition truthy (o : option string) : bool :=
  match o with
  | Some s => negb (String.eqb s "")
  | None => false
  end.

Definition or_null (o : option string) : option string :=
  if truthy o then o else None.

Definition or_empty (o : option string) : string :=
  match o with
  | Some s => s
  | None => ""
  end.

(** [Array.prototype.sort()] without a comparator orders strings
    lexicographically by code unit. User ids are UUID text, on which that
    order is the byte order [String.leb] of Rocq strings. On a total order
    the result is the sorted permutation whatever the engine's algorithm;
    it is computed here by insertion. *)
Fixpoint insert_sorted (x : string) (l : list string) : list string :=
  match l with
  | [] => [x]
  | y :: l' => if String.leb x y then x :: y :: l' else y :: insert_sorted x l'
  end.

Fixpoint sort (l : list string) : list string :=
  match l with
  | [] => []
  | x :: l' => insert_sorted x (sort l')
  end.

(** [Array.prototype.join(sep)] on an array of strings. *)
Definition join (sep : string) (l : list string) : string :=
  String.concat sep l.

(** [Number.MAX_SAFE_INTEGER], 2^53 - 1: up to it the arithmetic of
    JavaScript numbers on integers is exact. *)
Definition MAX_SAFE_INTEGER : Z := 9007199254740991.

End Js.

(** ** The persistent store *)

Module Store.

Record User := mkUser {
  user_id : string;
  username : string;
  display_name : string;
  avatar_url : option string;
  is_verified : bool
}.

(** A row of [messages]. Timestamps are milliseconds since the epoch; the
    ISO-8601 text the code writes is a monotone encoding of them. *)
Record Message := mkMessage {
  id : string;
  sender_id : string;
  receiver_id : string;
  text : string;
  image_url : option string;
  created_at : Z;
  read_at : option Z
}.

Record DB := mkDB {
  users : list User;
  messages : list Message
}.

(** The repository ships more than one definition of the [messages]
    table. They agree on the columns, the primary key and the foreign
    keys and differ in the CHECK constraints. *)
Record Schema := mkSchema {
  check_sender_ne_receiver : bool;   (* CHECK (sender_id != receiver_id) *)
  check_text_length : bool           (* CHECK (length(text) >= 1 AND length(text) <= 1000) *)
}.

(** The stand-alone SQL schema ([CREATE TABLE messages ... CHECK
    (sender_id != receiver_id)]): both checks. *)
Definition schema_sql : Schema :=
  {| check_sender_ne_receiver := true; check_text_length := true |}.

(** The [DATABASE_SCHEMA] string exported next to the supabase client, the
    schema the README says to run (an SQL file of the repository has the
    same text): [CREATE TABLE IF NOT EXISTS messages] without checks. *)
Definition DATABASE_SCHEMA : Schema :=
  {| check_sender_ne_receiver := false; check_text_length := false |}.

(** What a supabase call hands back: [{ data, error: null }],
    [{ data: null, error }], or a rejected promise. *)
Inductive Result (A : Type) : Type :=
| Data (a : A)
| Error
| Throws.
Arguments Data {A} a.
Arguments Error {A}.
Arguments Throws {A}.

(** Failures of the service itself (network, outage), supplied by the
    environment of each call. *)
Inductive Fault := NoFault | FaultError | FaultThrow.

Definition with_fault {A : Type} (f : Fault) (r : Result A) : Result A :=
  match f with
  | NoFault => r
  | FaultError => Error
  | FaultThrow => Throws
  end.

(** An embedded resource such as [sender:sender_id (id, username,
    display_name, avatar_url, is_verified)]. *)
Record Profile := mkProfile {
  p_id : string;
  p_username : string;
  p_display_name : string;
  p_avatar_url : option string;
  p_is_verified : option bool
}.

(** The three select lists the message code uses: the relay embeds the
    sender without [is_verified], [getMessages] the sender with it, and
    the REST [sendMessage] sender and receiver. *)
Inductive Embed := embed_sender | embed_sender_verified | embed_both_verified.

Record MessageView := mkView {
  row : Message;
  sender : option Profile;
  receiver : option Profile
}.

Definition find_user (db : DB) (uid : string) : option User :=
  List.find (fun u => String.eqb (user_id u) uid) (users db).

Definition profile_of (with_verified : bool) (u : User) : Profile :=
  {| p_id := user_id u;
     p_username := username u;
     p_display_name := display_name u;
     p_avatar_url := avatar_url u;
     p_is_verified := if with_verified then Some (is_verified u) else None |}.

Definition view (e : Embed) (db : DB) (m : Message) : MessageView :=
  match e with
  | embed_sender =>
    {| row := m;
       sender := option_map (profile_of false) (find_user db (sender_id m));
       receiver := None |}
  | embed_sender_verified =>
    {| row := m;
       sender := option_map (profile_of true) (find_user db (sender_id m));
       receiver := None |}
  | embed_both_verified =>
    {| row := m;
       sender := option_map (profile_of true) (find_user db (sender_id m));
       receiver := option_map (profile_of true) (find_user db (receiver_id m)) |}
  end.

(** [.single()]: exactly one row, otherwise an error. *)
Definition single {A : Type} (rows : list A) : Result A :=
  match rows with
  | [r] => Data r
  | _ => Error
  end.

(** [from('users').select('id').eq('id', uid).single()]. *)
Definition select_user_id (f : Fault) (db : DB) (uid : string) : Result string :=
  with_fault f
    (single (List.map user_id
               (List.filter (fun u => String.eqb (user_id u) uid) (users db)))).

Definition has_user (db : DB) (uid : string) : bool :=
  existsb (fun u => String.eqb (user_id u) uid) (users db).

Definition has_message (db : DB) (mid : string) : bool :=
  existsb (fun m => String.eqb (id m) mid) (messages db).

Definition text_length_ok (t : string) : bool :=
  (1 <=? String.length t)%nat && (String.length t <=? 1000)%nat.

(** The constraints an INSERT into [messages] has to pass: the primary
    key, the two foreign keys into [users], and the schema's checks. *)
Definition insert_allowed (sch : Schema) (db : DB) (m : Message) : bool :=
  negb (has_message db (id m))
  && has_user db (sender_id m)
  && has_user db (receiver_id m)
  && (negb (check_sender_ne_receiver sch)
      || negb (String.eqb (sender_id m) (receiver_id m)))
  && (negb (check_text_length sch) || text_length_ok (text m)).

(** What the store contributes to a new row: [uuid_generate_v4()] and
    [NOW()], plus the fault of this call. *)
Record InsertEnv := mkEnv {
  fresh_id : string;
  now : Z;
  fault : Fault
}.

(** The row an insert builds: the caller's columns, and the defaults of
    the table for the rest. *)
Definition new_row (env : InsertEnv) (s r t : string) (img : option string) : Message :=
  {| id := fresh_id env; sender_id := s; receiver_id := r; text := t;
     image_url := img; created_at := now env; read_at := None |}.

(** [from('messages').insert({sender_id, receiver_id, text, image_url})
      .select('*, sender:sender_id (...)').single()]. *)
Definition insert_message (sch : Schema) (env : InsertEnv) (e : Embed)
    (db : DB) (s r t : string) (img : option string) : Result (DB * MessageView) :=
  let m := new_row env s r t img in
  with_fault (fault env)
    (if insert_allowed sch db m
     then let db' := {| users := users db; messages := messages db ++ [m] |} in
          Data (db', view e db' m)
     else Error).

(** [.order('created_at', { ascending: false })], stable. *)
Fixpoint insert_desc (m : Message) (l : list Message) : list Message :=
  match l with
  | [] => [m]
  | y :: l' =>
    if created_at y <=? created_at m then m :: y :: l' else y :: insert_desc m l'
  end.

Definition order_desc (l : list Message) : list Message :=
  List.fold_right insert_desc [] l.

(** [.range(from, to)]: rows [from .. to] of the result, both ends
    included, for bounds that are numbers with [0 <= from <= to + 1];
    [None] is [NaN]. *)
Definition range {A : Type} (from to : option Z) (rows : list A) : Result (list A) :=
  match from, to with
  | Some a, Some b =>
    if (0 <=? a) && (a <=? b + 1)
    then Data (firstn (Z.to_nat (b - a + 1)) (skipn (Z.to_nat a) rows))
    else Error
  | _, _ => Error
  end.

(** The id columns are of type [UUID]. Postgres prints a uuid as
    8-4-4-4-12 hexadecimal digits in lower case, so every id the store
    hands out, the [id] of the authenticated user included, has that form;
    it holds no character that means anything in a filter. *)
Definition is_hex (c : ascii) : bool :=
  let n := nat_of_ascii c in
  ((48 <=? n) && (n <=? 57))%nat || ((97 <=? n) && (n <=? 102))%nat.

Fixpoint hex_run (n : nat) (s : string) : option string :=
  match n, s with
  | O, _ => Some s
  | S n', String c s' => if is_hex c then hex_run n' s' else None
  | S _, EmptyString => None
  end.

Definition then_hex (n : nat) (s : option string) : option string :=
  match s with
  | Some s' => hex_run n s'
  | None => None
  end.

Definition then_dash (s : option string) : option string :=
  match s with
  | Some (String "-" s') => Some s'
  | _ => None
  end.

Definition is_uuid (s : string) : bool :=
  match then_hex 12 (then_dash (then_hex 4 (then_dash (then_hex 4 (then_dash
          (then_hex 4 (then_dash (hex_run 8 s)))))))) with
  | Some EmptyString => true
  | _ => false
  end.

(** How Postgres reads a text that is compared with a uuid column. The
    printed form is read as itself. Any other text is either refused
    (error 22P02, here [None]) or is another spelling of a uuid (upper
    case, braces, hyphens left out), which [spelling] gives in its
    printed form. *)
Definition uuid_in (spelling : string -> option string) (s : string) : option string :=
  if is_uuid s then Some s else spelling s.

(** The text [getMessages] builds for [.or(...)]: the two ids are pasted
    into it as they come. *)
Definition or_filter (u o : string) : string :=
  "and(sender_id.eq." +:+ u +:+ ",receiver_id.eq." +:+ o
  +:+ "),and(sender_id.eq." +:+ o +:+ ",receiver_id.eq." +:+ u +:+ ")".

(** On two ids in printed form the text above is the filter
    [or(and(sender_id.eq.u, receiver_id.eq.o),
        and(sender_id.eq.o, receiver_id.eq.u))]. *)
Definition between (u o : string) (m : Message) : bool :=
  (String.eqb (sender_id m) u && String.eqb (receiver_id m) o)
  || (String.eqb (sender_id m) o && String.eqb (receiver_id m) u).

(** A request is plain when both ids are in printed form and the bounds
    of [.range] are numbers with [0 <= from <= to] that JavaScript has
    computed exactly. *)
Definition plain (u o : string) (from to : option Z) : bool :=
  is_uuid u && is_uuid o
  && match from, to with
     | Some a, Some b => (0 <=? a) && (a <=? b) && (b <=? Js.MAX_SAFE_INTEGER)
     | _, _ => false
     end.

(** What the service makes of a request that is not plain is not fixed
    by the code: an id that is not a uuid is refused, and one that
    carries filter syntax is read as part of the filter. Whatever it is,
    the service refuses the request or reads some filter and some window
    out of it, and answers with stored rows, newest first. *)
Record Reading := mkReading {
  r_filter : Message -> bool;
  r_skip : nat;
  r_take : nat
}.

(** [from('messages').select(...).or(text).order('created_at',
      { ascending: false }).range(from, to)]; [odd] is the service's
    reading of the filter text of a request that is not plain. *)
Definition select_between (f : Fault) (odd : string -> option Reading) (db : DB)
    (u o : string) (from to : option Z) : Result (list Message) :=
  with_fault f
    (if plain u o from to
     then range from to (order_desc (List.filter (between u o) (messages db)))
     else match odd (or_filter u o) with
          | Some r =>
            Data (firstn (r_take r)
                    (skipn (r_skip r)
                       (order_desc (List.filter (r_filter r) (messages db)))))
          | None => Error
          end).

Definition mem (x : string) (l : list string) : bool :=
  existsb (String.eqb x) l.

Definition stamp (t : Z) (m : Message) : Message :=
  {| id := id m; sender_id := sender_id m; receiver_id := receiver_id m;
     text := text m; image_url := image_url m; created_at := created_at m;
     read_at := Some t |}.

(** [from('messages').update({ read_at }).in('id', ids)]. *)
Definition update_read_at (f : Fault) (db : DB) (t : Z) (ids : list string) : Result DB :=
  with_fault f
    (Data {| users := users db;
             messages := List.map (fun m => if mem (id m) ids then stamp t m else m)
                                  (messages db) |}).

(** [from('messages').select('*').eq('id', mid).eq('sender_id', uid).single()]. *)
Definition select_own_message (f : Fault) (db : DB) (mid uid : string) : Result Message :=
  with_fault f
    (single (List.filter (fun m => String.eqb (id m) mid && String.eqb (sender_id m) uid)
                         (messages db))).

(** [from('messages').delete().eq('id', mid)]. *)
Definition delete_message (f : Fault) (db : DB) (mid : string) : Result DB :=
  with_fault f
    (Data {| users := users db;
             messages := List.filter (fun m => negb (String.eqb (id m) mid)) (messages db) |}).

(** [from('messages').select('*, sender:..., receiver:...')
      .or(`sender_id.eq.${u},receiver_id.eq.${u}`)
      .order('created_at', { ascending: false })]. *)
Definition involves (u : string) (m : Message) : bool :=
  String.eqb (sender_id m) u || String.eqb (receiver_id m) u.

Definition select_involving (f : Fault) (db : DB) (u : string) : Result (list MessageView) :=
  with_fault f
    (Data (List.map (view embed_both_verified db)
             (order_desc (List.filter (involves u) (messages db))))).

(** The filter [.eq('sender_id', o).eq('receiver_id', u).is('read_at', null)]. *)
Definition unread_from (o u : string) (m : Message) : bool :=
  String.eqb (sender_id m) o && String.eqb (receiver_id m) u
  && match read_at m with None => true | Some _ => false end.

(** [from('messages').update({ read_at }).eq('sender_id', o)
      .eq('receiver_id', u).is('read_at', null)]. The two values are
    compared with uuid columns: a text Postgres does not read as a uuid
    makes the statement fail. *)
Definition update_read_from (f : Fault) (spelling : string -> option string) (db : DB)
    (t : Z) (o u : string) : Result DB :=
  with_fault f
    (match uuid_in spelling o, uuid_in spelling u with
     | Some o', Some u' =>
       Data {| users := users db;
               messages := List.map (fun m => if unread_from o' u' m then stamp t m else m)
                                    (messages db) |}
     | _, _ => Error
     end).

(** The filter [.eq('receiver_id', u).is('read_at', null)]. *)
Definition unread_of (u : string) (m : Message) : bool :=
  String.eqb (receiver_id m) u
  && match read_at m with None => true | Some _ => false end.

(** [from('messages').select('*', { count: 'exact', head: true })
      .eq('receiver_id', u).is('read_at', null)]. *)
Definition count_unread (f : Fault) (db : DB) (u : string) : Result Z :=
  with_fault f (Data (Z.of_nat (length (List.filter (unread_of u) (messages db))))).

(** The order of a result that is newest first. *)
Definition newest_first (x y : Message) : Prop := created_at y <= created_at x.

End Store.

(** ** The real-time relay ([setupSocketHandlers]) *)

Module Relay.
Import Store.

(** [`user:${id}`] and [`conversation:${conversationId}`]. *)
Definition user_room (uid : string) : string := "user:" +:+ uid.
Definition conversation_room (cid : string) : string := "conversation:" +:+ cid.

(** [[socket.userId, other].sort().join(':')]. *)
Definition conversationId (a b : string) : string :=
  Js.join ":" (Js.sort [a; b]).

(** A connected socket: the identity the middleware attached to it and
    the rooms it was put in by [socket.join]. (The transport also keeps a
    room per socket, named by the socket id it generates; no handler
    addresses it, every room name used here starts with "user:" or
    "conversation:".) *)
Record Socket := mkSocket {
  userId : string;
  rooms : gset string
}.

(** The server: connected sockets by socket id, and the store. *)
Record Server := mkServer {
  sockets : gmap string Socket;
  db : DB
}.

Definition init (d : DB) : Server := {| sockets := ∅; db := d |}.

Inductive CallType := voice | video.

(** Events a client sends, with their payloads. *)
Inductive ClientEvent :=
| join_conversation (otherUserId : string)
| send_message (receiverId text : string) (imageUrl : option string)
| typing_start (receiverId : string)
| typing_stop (receiverId : string)
| call_user (calleeId offer : string) (callType : CallType)
| answer_call (callerId answer : string)
| reject_call (callerId : string)
| end_call (otherUserId : string)
| ice_candidate (otherUserId candidate : string).

(** Events the server sends. *)
Inductive ServerEvent :=
| new_message (message : MessageView)
| message_notification (senderId : string) (message : MessageView)
| message_error (error : string)
| user_typing (typingUserId : string) (isTyping : bool)
| incoming_call (callerId offer : string) (callType : CallType)
| call_answered (answer : string)
| call_rejected
| call_ended
| ice_candidate_to (candidate : string).

(** The three ways the handlers address an event. *)
Inductive Target :=
| io_to (room : string)                    (* io.to(room).emit(...) *)
| socket_to (from : string) (room : string) (* socket.to(room).emit(...) *)
| socket_emit (to : string).                (* socket.emit(...) *)

Definition members (socks : gmap string Socket) (room : string) : gset string :=
  dom (filter (fun kv => room ∈ rooms kv.2) socks).

(** The sockets an emit reaches: everyone in the room, everyone in the
    room but the emitting socket, or the emitting socket alone. *)
Definition recipients (socks : gmap string Socket) (t : Target) : gset string :=
  match t with
  | io_to room => members socks room
  | socket_to from room => members socks room ∖ {[ from ]}
  | socket_emit to => {[ to ]}
  end.

(** One emit: the socket whose handler made it, how it was addressed, the
    event, and the sockets it was delivered to. *)
Record Emission := mkEmission {
  origin : string;
  target : Target;
  event : ServerEvent;
  receivers : gset string
}.

Definition emit (srv : Server) (sid : string) (t : Target) (e : ServerEvent) : Emission :=
  {| origin := sid; target := t; event := e; receivers := recipients (sockets srv) t |}.

(** What the outside sees of a step: emits, and refused handshakes. *)
Inductive Effect :=
| Emit (e : Emission)
| Refuse (sid : string) (message : string).

(** What reaches the server. A handshake carries [handshake.auth.token]
    and the fault of the user look-up; a client event carries what the
    store contributes should the handler insert a row. *)
Inductive Input :=
| Connect (sid : string) (token : option string) (f : Fault)
| Receive (sid : string) (ev : ClientEvent) (env : InsertEnv)
| Disconnect (sid : string).

Inductive Next :=
| next_ok (uid : string)
| next_error (message : string).

Section Handlers.

(** [jwt.verify(token, process.env.JWT_SECRET)]: the [userId] of the
    payload, or [None] when verification throws. *)
Variable jwt_verify : string -> option string.

(** The schema the store was set up with. *)
Variable schema : Schema.

(** The [io.use] middleware. *)
Definition io_use (srv : Server) (token : option string) (f : Fault) : Next :=
  if negb (Js.truthy token) then next_error "Authentication error"
  else
    match jwt_verify (Js.or_empty token) with
    | None => next_error "Authentication error"
    | Some uid =>
      match select_user_id f (db srv) uid with
      | Data _ => next_ok uid
      | Error => next_error "Authentication error"
      | Throws => next_error "Authentication error"
      end
    end.

(** [io.on('connection', ...)]: the socket joins its personal room. *)
Definition on_connection (srv : Server) (sid uid : string) : Server :=
  {| sockets := <[ sid := {| userId := uid; rooms := {[ user_room uid ]} |} ]> (sockets srv);
     db := db srv |}.

Definition socket_join (srv : Server) (sid : string) (sock : Socket) (room : string) : Server :=
  {| sockets := <[ sid := {| userId := userId sock; rooms := rooms sock ∪ {[ room ]} |} ]> (sockets srv);
     db := db srv |}.

Definition on_send_message (srv : Server) (sid : string) (sock : Socket) (env : InsertEnv)
    (receiverId text : string) (imageUrl : option string) : Server * list Effect :=
  match insert_message schema env embed_sender (db srv) (userId sock) receiverId text
          (Js.or_null imageUrl) with
  | Data (db', message) =>
    let srv' := {| sockets := sockets srv; db := db' |} in
    (srv',
     [ Emit (emit srv' sid
               (io_to (conversation_room (conversationId (userId sock) receiverId)))
               (new_message message));
       Emit (emit srv' sid (io_to (user_room receiverId))
               (message_notification (userId sock) message)) ])
  | Error =>
    (srv, [ Emit (emit srv sid (socket_emit sid) (message_error "Failed to send message")) ])
  | Throws =>
    (srv, [ Emit (emit srv sid (socket_emit sid) (message_error "Failed to send message")) ])
  end.

(** The handlers registered on a connected socket. *)
Definition handle (srv : Server) (sid : string) (sock : Socket) (ev : ClientEvent)
    (env : InsertEnv) : Server * list Effect :=
  let forward uid e := (srv, [ Emit (emit srv sid (socket_to sid (user_room uid)) e) ]) in
  match ev with
  | join_conversation other =>
    (socket_join srv sid sock (conversation_room (conversationId (userId sock) other)), [])
  | send_message receiverId text imageUrl =>
    on_send_message srv sid sock env receiverId text imageUrl
  | typing_start receiverId => forward receiverId (user_typing (userId sock) true)
  | typing_stop receiverId => forward receiverId (user_typing (userId sock) false)
  | call_user calleeId offer callType =>
    forward calleeId (incoming_call (userId sock) offer callType)
  | answer_call callerId answer => forward callerId (call_answered answer)
  | reject_call callerId => forward callerId call_rejected
  | end_call other => forward other call_ended
  | ice_candidate other candidate => forward other (ice_candidate_to candidate)
  end.

(** One input. Handlers exist only on sockets that passed the middleware,
    so an event on any other socket id finds no listener; the transport
    hands out a socket id once, so a handshake on an id in use is not an
    input the server sees. A handler runs to its end within the step: its
    one [await], on the store, is taken together with the code after it. *)
Definition step (srv : Server) (i : Input) : Server * list Effect :=
  match i with
  | Connect sid token f =>
    match sockets srv !! sid with
    | Some _ => (srv, [])
    | None =>
      match io_use srv token f with
      | next_ok uid => (on_connection srv sid uid, [])
      | next_error msg => (srv, [ Refuse sid msg ])
      end
    end
  | Receive sid ev env =>
    match sockets srv !! sid with
    | Some sock => handle srv sid sock ev env
    | None => (srv, [])
    end
  | Disconnect sid =>
    ({| sockets := delete sid (sockets srv); db := db srv |}, [])
  end.

Fixpoint run (srv : Server) (inputs : list Input) : Server * list Effect :=
  match inputs with
  | [] => (srv, [])
  | i :: rest =>
    let '(srv1, out1) := step srv i in
    let '(srv2, out2) := run srv1 rest in
    (srv2, out1 ++ out2)
  end.

End Handlers.

(** The discipline of room names a server keeps: a socket sits in its
    personal room, and in conversation rooms besides. *)
Definition socket_ok (s : Socket) : Prop :=
  user_room (userId s) ∈ rooms s ∧
  set_Forall (fun r => r = user_room (userId s) ∨ String.prefix "conversation:" r = true)
             (rooms s).

Definition rooms_ok (srv : Server) : Prop :=
  map_Forall (fun _ s => socket_ok s) (sockets srv).

Definition input_sid (i : Input) : string :=
  match i with
  | Connect sid _ _ => sid
  | Receive sid _ _ => sid
  | Disconnect sid => sid
  end.

Definition is_connect (i : Input) : bool :=
  match i with
  | Connect _ _ _ => true
  | _ => false
  end.

(** Identities without the delimiter of the conversation key; UUIDs are. *)
Fixpoint colon_free (s : string) : bool :=
  match s with
  | EmptyString => true
  | String c s' => negb (Ascii.eqb c ":") && colon_free s'
  end.

(** The rooms a socket can be in, by name: its personal room, and
    conversation rooms keyed on its own identity. *)
Definition socket_exact (s : Socket) : Prop :=
  set_Forall (fun r => r = user_room (userId s) ∨
                       ∃ other, r = conversation_room (conversationId (userId s) other))
             (rooms s).

Definition rooms_exact (srv : Server) : Prop :=
  map_Forall (fun _ s => socket_exact s) (sockets srv).

Definition is_disconnect (i : Input) : bool :=
  match i with
  | Disconnect _ => true
  | _ => false
  end.

End Relay.

(** ** The message controller ([messageController.ts]) *)

Module Messages.
Import Store.

Inductive Body :=
| json_error (error : string)
| json_success
| json_message (message : MessageView)
| json_messages (messages : list MessageView) (hasMore : bool).

Record Response := mkResponse {
  status : Z;
  body : Body
}.

Definition reply (code : Z) (b : Body) : Response := {| status := code; body := b |}.

(** Arithmetic on the results of [parseInt], [None] standing for [NaN]. *)
Definition num_sub (a b : option Z) : option Z :=
  match a, b with Some x, Some y => Some (x - y) | _, _ => None end.
Definition num_add (a b : option Z) : option Z :=
  match a, b with Some x, Some y => Some (x + y) | _, _ => None end.
Definition num_mul (a b : option Z) : option Z :=
  match a, b with Some x, Some y => Some (x * y) | _, _ => None end.
Definition num_eq (a b : option Z) : bool :=
  match a, b with Some x, Some y => x =? y | _, _ => false end.

(** The rows of a page that [getMessages] marks as read. *)
Definition unread_for (uid : string) (m : Message) : bool :=
  String.eqb (receiver_id m) uid
  && match read_at m with None => true | Some _ => false end.

(** [getMessages]. [page] and [limit] are [parseInt(page)] and
    [parseInt(limit)]; [sel] and [upd] are the faults of the two store
    calls, [odd] is the service's reading of a filter text that is not
    plain, and [t] is [new Date()] at the update. *)
Definition getMessages (userId : option string) (otherUserId : string)
    (page limit : option Z) (sel : Fault) (odd : string -> option Reading) (upd : Fault)
    (t : Z) (db : DB) : DB * Response :=
  if negb (Js.truthy userId) then (db, reply 401 (json_error "Unauthorized"))
  else
    let uid := Js.or_empty userId in
    let offset := num_mul (num_sub page (Some 1)) limit in
    match select_between sel odd db uid otherUserId offset
            (num_sub (num_add offset limit) (Some 1)) with
    | Throws => (db, reply 500 (json_error "Internal server error"))
    | Error => (db, reply 500 (json_error "Failed to fetch messages"))
    | Data msgs =>
      let unreadMessageIds := List.map id (List.filter (unread_for uid) msgs) in
      let answer :=
        reply 200 (json_messages (List.map (view embed_sender_verified db) (rev msgs))
                     (num_eq (Some (Z.of_nat (length msgs))) limit)) in
      if (0 <? Z.of_nat (length unreadMessageIds)) then
        match update_read_at upd db t unreadMessageIds with
        | Data db' => (db', answer)
        | Error => (db, answer)
        | Throws => (db, reply 500 (json_error "Internal server error"))
        end
      else (db, answer)
    end.

(** The REST [sendMessage]. *)
Definition sendMessage (sch : Schema) (userId receiverId text imageUrl : option string)
    (sel : Fault) (env : InsertEnv) (db : DB) : DB * Response :=
  if negb (Js.truthy userId) then (db, reply 401 (json_error "Unauthorized"))
  else if negb (Js.truthy receiverId) || (negb (Js.truthy text) && negb (Js.truthy imageUrl))
  then (db, reply 400 (json_error "Receiver ID and message content are required"))
  else
    match select_user_id sel db (Js.or_empty receiverId) with
    | Throws => (db, reply 500 (json_error "Internal server error"))
    | Error => (db, reply 404 (json_error "Receiver not found"))
    | Data _ =>
      match insert_message sch env embed_both_verified db (Js.or_empty userId)
              (Js.or_empty receiverId) (Js.or_empty text) (Js.or_null imageUrl) with
      | Data (db', message) => (db', reply 201 (json_message message))
      | Error => (db, reply 500 (json_error "Failed to send message"))
      | Throws => (db, reply 500 (json_error "Internal server error"))
      end
    end.

(** [deleteMessage]. *)
Definition deleteMessage (userId : option string) (messageId : string)
    (sel del : Fault) (db : DB) : DB * Response :=
  if negb (Js.truthy userId) then (db, reply 401 (json_error "Unauthorized"))
  else
    match select_own_message sel db messageId (Js.or_empty userId) with
    | Throws => (db, reply 500 (json_error "Internal server error"))
    | Error => (db, reply 404 (json_error "Message not found or unauthorized"))
    | Data _ =>
      match delete_message del db messageId with
      | Data db' => (db', reply 200 json_success)
      | Error => (db, reply 500 (json_error "Failed to delete message"))
      | Throws => (db, reply 500 (json_error "Internal server error"))
      end
    end.

End Messages.

(** ** The rate limiter ([createRateLimit]) *)

Module RateLimit.

(** The two addresses the middleware reads off a request. *)
Record Request := mkRequest {
  ip : option string;
  remoteAddress : option string
}.

(** [req.ip || req.connection.remoteAddress]; [None] is [undefined],
    which a [Map] accepts as a key like any other. *)
Definition key_of (req : Request) : option string :=
  if Js.truthy (ip req) then ip req else remoteAddress req.

Inductive Outcome :=
| Next
| Respond (status : Z) (error code : string) (retryAfter : Z).

(** [timestamps.filter(time => time > windowStart)]. *)
Definition newer (windowStart : Z) (timestamps : list Z) : list Z :=
  filter (fun time => windowStart < time) timestamps.

(** One pass of the cleaning loop over the entries of [requests]. *)
Definition sweep_entry (windowStart : Z) (ip : option string) (timestamps : list Z)
    (requests : gmap (option string) (list Z)) : gmap (option string) (list Z) :=
  let kept := newer windowStart timestamps in
  if (length kept =? 0)%nat then delete ip requests else <[ ip := kept ]> requests.

Definition sweep (windowStart : Z) (requests : gmap (option string) (list Z))
    : gmap (option string) (list Z) :=
  map_fold (sweep_entry windowStart) requests requests.

(** [Math.ceil(windowMs / 1000)] on an integer. *)
Definition ceil_seconds (windowMs : Z) : Z := (windowMs + 999) / 1000.

(** The middleware [createRateLimit(windowMs, maxRequests)] returns, as a
    function of the [requests] map it closes over and of [Date.now()]. *)
Definition createRateLimit (windowMs maxRequests : Z)
    (requests : gmap (option string) (list Z)) (req : Request) (now : Z)
    : gmap (option string) (list Z) * Outcome :=
  let key := key_of req in
  let windowStart := now - windowMs in
  let requests := sweep windowStart requests in
  let userRequests := default [] (requests !! key) in
  if Z.of_nat (length userRequests) >=? maxRequests
  then (requests,
        Respond 429 "Too many requests" "RATE_LIMIT_EXCEEDED" (ceil_seconds windowMs))
  else (<[ key := userRequests ++ [now] ]> requests, Next).

(** A run of the middleware over a sequence of requests, each with its
    clock reading. *)
Fixpoint serve (windowMs maxRequests : Z) (requests : gmap (option string) (list Z))
    (rs : list (Request * Z)) : gmap (option string) (list Z) * list Outcome :=
  match rs with
  | [] => (requests, [])
  | (req, now) :: rest =>
    let '(requests1, o) := createRateLimit windowMs maxRequests requests req now in
    let '(requests2, os) := serve windowMs maxRequests requests1 rest in
    (requests2, o :: os)
  end.

(** The timestamps on record for a key; a key without entry has none. *)
Definition record (requests : gmap (option string) (list Z)) (key : option string) : list Z :=
  default [] (requests !! key).

(** The times at which requests of a key were admitted, from a history of
    admitted requests. *)
Definition times_of (key : option string) (admitted : list (option string * Z)) : list Z :=
  List.map snd (List.filter (fun kt => bool_decide (kt.1 = key)) admitted).

(** The limiter as the specification words it, to compare [serve] with:
    a request is refused exactly when the requests admitted before it,
    for the same key and inside the window that ends at its time, are
    already [maxRequests]; only admitted requests enter the history. *)
Fixpoint admit_by_history (windowMs maxRequests : Z) (admitted : list (option string * Z))
    (rs : list (Request * Z)) : list Outcome :=
  match rs with
  | [] => []
  | (req, now) :: rest =>
    let in_window := newer (now - windowMs) (times_of (key_of req) admitted) in
    if Z.of_nat (length in_window) >=? maxRequests
    then Respond 429 "Too many requests" "RATE_LIMIT_EXCEEDED" (ceil_seconds windowMs)
           :: admit_by_history windowMs maxRequests admitted rest
    else Next :: admit_by_history windowMs maxRequests (admitted ++ [ (key_of req, now) ]) rest
  end.

(** Clock readings that do not go backwards. *)
Fixpoint not_before (t : Z) (rs : list (Request * Z)) : Prop :=
  match rs with
  | [] => True
  | (_, now) :: rest => t <= now /\ not_before now rest
  end.

Definition chronological (rs : list (Request * Z)) : Prop :=
  match rs with
  | [] => True
  | (_, now) :: rest => not_before now rest
  end.

(** The requests of a run that were passed on, by key and time; the
    requests of one key, and the verdicts they got. *)
Definition passed (o : Outcome) : bool :=
  match o with
  | Next => true
  | Respond _ _ _ _ => false
  end.

Definition admitted_of (rs : list (Request * Z)) (os : list Outcome)
    : list (option string * Z) :=
  List.map (fun ro => (key_of ro.1.1, ro.1.2))
           (List.filter (fun ro => passed ro.2) (combine rs os)).

Definition for_key (k : option string) (rs : list (Request * Z)) : list (Request * Z) :=
  List.filter (fun r => bool_decide (key_of r.1 = k)) rs.

Definition outcomes_for (k : option string) (rs : list (Request * Z)) (os : list Outcome)
    : list Outcome :=
  List.map snd (List.filter (fun ro => bool_decide (key_of ro.1.1 = k)) (combine rs os)).

(** The timestamps that fall in the window of length [windowMs] ending at
    [t]. *)
Definition in_window (windowMs t : Z) (timestamps : list Z) : list Z :=
  filter (fun time => t - windowMs < time /\ time <= t) timestamps.

End RateLimit.

(** ** The rest of the message controller: conversations and read state *)

Module Inbox.
Import Store.

(** An entry of [conversationMap]. *)
Record Conversation := mkConversation {
  user : option Profile;
  lastMessage : MessageView;
  unreadCount : Z
}.

Inductive Content :=
| content_error (error : string)
| content_conversations (conversations : list Conversation)
| content_success
| content_unreadCount (unreadCount : Z).

Record Reply := mkReply {
  code : Z;
  content : Content
}.

(** [message.sender_id === userId ? message.receiver_id : message.sender_id]
    and the same choice between the two embedded profiles. *)
Definition otherUserId (userId : string) (m : Message) : string :=
  if String.eqb (sender_id m) userId then receiver_id m else sender_id m.

Definition otherUser (userId : string) (v : MessageView) : option Profile :=
  if String.eqb (sender_id (row v)) userId then receiver v else sender v.

(** [conversationMap] is a [Map]: entries in insertion order, one per key. *)
Definition map_has (k : string) (cm : list (string * Conversation)) : bool :=
  existsb (fun e => String.eqb e.1 k) cm.

(** [conversationMap.get(k).unreadCount++]. *)
Definition bump (k : string) (cm : list (string * Conversation))
    : list (string * Conversation) :=
  List.map (fun e => if String.eqb e.1 k
                     then (e.1, {| user := user e.2; lastMessage := lastMessage e.2;
                                   unreadCount := unreadCount e.2 + 1 |})
                     else e) cm.

(** The body of the [forEach] over the fetched messages. *)
Definition visit (userId : string) (cm : list (string * Conversation)) (v : MessageView)
    : list (string * Conversation) :=
  let other := otherUserId userId (row v) in
  let cm1 :=
    if map_has other cm then cm
    else cm ++ [ (other, {| user := otherUser userId v; lastMessage := v; unreadCount := 0 |}) ] in
  if unread_of userId (row v) then bump other cm1 else cm1.

Definition conversationMap (userId : string) (vs : list MessageView)
    : list (string * Conversation) :=
  List.fold_left (visit userId) vs [].

(** [.sort((a, b) => time(b.lastMessage) - time(a.lastMessage))]; the
    engine's sort is stable. *)
Fixpoint insert_conversation (c : Conversation) (l : list Conversation) : list Conversation :=
  match l with
  | [] => [c]
  | y :: l' =>
    if created_at (row (lastMessage y)) <=? created_at (row (lastMessage c))
    then c :: y :: l' else y :: insert_conversation c l'
  end.

Definition sort_conversations (l : list Conversation) : list Conversation :=
  List.fold_right insert_conversation [] l.

(** [getConversations]. *)
Definition getConversations (userId : option string) (f : Fault) (db : DB) : Reply :=
  if negb (Js.truthy userId) then {| code := 401; content := content_error "Unauthorized" |}
  else
    match select_involving f db (Js.or_empty userId) with
    | Throws => {| code := 500; content := content_error "Internal server error" |}
    | Error => {| code := 500; content := content_error "Failed to fetch conversations" |}
    | Data conversations =>
      {| code := 200;
         content := content_conversations
                      (sort_conversations
                         (List.map snd (conversationMap (Js.or_empty userId) conversations))) |}
    end.

(** [markMessagesAsRead]; [t] is [new Date()] at the update and
    [spelling] is the store's reading of ids that are not in printed
    form. *)
Definition markMessagesAsRead (userId : option string) (other : string) (f : Fault)
    (spelling : string -> option string) (t : Z) (db : DB) : DB * Reply :=
  if negb (Js.truthy userId)
  then (db, {| code := 401; content := content_error "Unauthorized" |})
  else
    match update_read_from f spelling db t other (Js.or_empty userId) with
    | Throws => (db, {| code := 500; content := content_error "Internal server error" |})
    | Error => (db, {| code := 500; content := content_error "Failed to mark messages as read" |})
    | Data db' => (db', {| code := 200; content := content_success |})
    end.

(** [getUnreadCount]; [count || 0] is [count] on a number. *)
Definition getUnreadCount (userId : option string) (f : Fault) (db : DB) : Reply :=
  if negb (Js.truthy userId) then {| code := 401; content := content_error "Unauthorized" |}
  else
    match count_unread f db (Js.or_empty userId) with
    | Throws => {| code := 500; content := content_error "Internal server error" |}
    | Error => {| code := 500; content := content_error "Failed to get unread count" |}
    | Data count => {| code := 200; content := content_unreadCount count |}
    end.

(** [conversationMap.get(k)]. *)
Definition map_get (k : string) (cm : list (string * Conversation)) : option Conversation :=
  option_map snd (List.find (fun e => String.eqb e.1 k) cm).

(** Who a conversation is with, and the unread messages over a list of
    conversations. *)
Definition partner (userId : string) (c : Conversation) : string :=
  otherUserId userId (row (lastMessage c)).

Definition total_unread (cs : list Conversation) : Z :=
  List.fold_right (fun c n => unreadCount c + n) 0 cs.

(** The entry the [forEach] builds for partner [k] out of the fetched
    messages: the first message with [k] and the count of unread ones. *)
Definition with_partner (userId k : string) (v : MessageView) : bool :=
  String.eqb (otherUserId userId (row v)) k.

Definition entry_for (userId k : string) (vs : list MessageView) : option Conversation :=
  match List.find (with_partner userId k) vs with
  | None => None
  | Some v0 =>
    Some {| user := otherUser userId v0; lastMessage := v0;
            unreadCount :=
              Z.of_nat (length (List.filter
                                  (fun v => with_partner userId k v && unread_of userId (row v))
                                  vs)) |}
  end.

(** The order of the conversation list: latest exchange first. *)
Definition latest_first (c c' : Conversation) : Prop :=
  created_at (row (lastMessage c')) <= created_at (row (lastMessage c)).

End Inbox.

(** ** The HTTP authentication middleware ([authenticateToken],
       [requireAdmin], [optionalAuth]) *)

Module Auth.
Import Store.

(** The scalar values a column of [users] holds. *)
Inductive Json :=
| jnull
| jbool (b : bool)
| jnum (n : Z)
| jstr (s : string).

#[global] Instance Json_eq_dec : EqDecision Json.
Proof. solve_decision. Defined.

(** Truthiness of a property that may be missing. *)
Definition json_truthy (j : option Json) : bool :=
  match j with
  | Some (jbool b) => b
  | Some (jnum n) => negb (n =? 0)
  | Some (jstr s) => negb (String.eqb s "")
  | Some jnull => false
  | None => false
  end.

(** [s.split(' ')]. *)
Fixpoint split_space (s : string) : list string :=
  match s with
  | EmptyString => [ "" ]
  | String c s' =>
    if Ascii.eqb c " " then "" :: split_space s'
    else match split_space s' with
         | [] => [ String c "" ]
         | w :: ws => String c w :: ws
         end
  end.

(** [authHeader && authHeader.split(' ')[1]]: [None] is [undefined]. *)
Definition bearer (authHeader : option string) : option string :=
  if Js.truthy authHeader then nth_error (split_space (Js.or_empty authHeader)) 1
  else authHeader.

(** The select list of both middlewares. *)
Definition user_columns : list string :=
  [ "id"; "username"; "email"; "display_name"; "bio"; "avatar_url"; "cover_url";
    "created_at"; "updated_at" ].

(** [from('users').select(columns).eq('id', uid).single()] over rows given
    as objects. *)
Definition select_user (f : Fault) (rows : list (gmap string Json)) (uid : string)
    : Result (gmap string Json) :=
  with_fault f
    (single (List.map (filter (fun kv => kv.1 ∈ user_columns))
               (List.filter (fun r => bool_decide (r !! "id" = Some (jstr uid))) rows))).

(** What [jwt.verify] does with a token: it returns the payload, of which
    the middleware reads [userId], or throws a value on which the [catch]
    block makes two [instanceof] tests. *)
Inductive Verdict :=
| Verified (userId : string)
| Thrown (isJsonWebTokenError isTokenExpiredError : bool).

Record Response := mkResponse {
  status : Z;
  error : string;
  code : string
}.

(** A middleware either answers, or calls [next()] with [req.user] as it
    left it. *)
Inductive Step :=
| respond (r : Response)
| next (user : option (gmap string Json)).

Section Middleware.

Variable verify : string -> Verdict.

Definition authenticateToken (rows : list (gmap string Json)) (authHeader : option string)
    (f : Fault) : Step :=
  let token := bearer authHeader in
  if negb (Js.truthy token)
  then respond {| status := 401; error := "Access token required"; code := "TOKEN_MISSING" |}
  else
    match verify (Js.or_empty token) with
    | Verified uid =>
      match select_user f rows uid with
      | Data user => next (Some user)
      | Error =>
        respond {| status := 403; error := "Invalid or expired token"; code := "TOKEN_INVALID" |}
      | Throws =>
        respond {| status := 500; error := "Authentication failed"; code := "AUTH_ERROR" |}
      end
    | Thrown isJwt isExpired =>
      if isJwt
      then respond {| status := 403; error := "Invalid token"; code := "TOKEN_INVALID" |}
      else if isExpired
      then respond {| status := 403; error := "Token expired"; code := "TOKEN_EXPIRED" |}
      else respond {| status := 500; error := "Authentication failed"; code := "AUTH_ERROR" |}
    end.

(** [optionalAuth]; [next None] stands for a [next()] that left [req.user]
    unset. *)
Definition optionalAuth (rows : list (gmap string Json)) (authHeader : option string)
    (f : Fault) : Step :=
  let token := bearer authHeader in
  if Js.truthy token then
    match verify (Js.or_empty token) with
    | Verified uid =>
      match select_user f rows uid with
      | Data user => next (Some user)
      | Error => next None
      | Throws => next None
      end
    | Thrown _ _ => next None
    end
  else next None.

End Middleware.

(** [requireAdmin]: [!req.user?.is_admin]. *)
Definition requireAdmin (user : option (gmap string Json)) : Step :=
  if negb (json_truthy (user ≫= fun u => u !! "is_admin"))
  then respond {| status := 403; error := "Admin access required"; code := "ADMIN_REQUIRED" |}
  else next user.

(** A route declared as [authenticateToken, requireAdmin, handler]:
    [true] when the handler is reached. *)
Definition admin_route (verify : string -> Verdict) (rows : list (gmap string Json))
    (authHeader : option string) (f : Fault) : bool :=
  match authenticateToken verify rows authHeader f with
  | respond _ => false
  | next user =>
    match requireAdmin user with
    | respond _ => false
    | next _ => true
    end
  end.

(** Words: strings without a space. *)
Fixpoint space_free (s : string) : bool :=
  match s with
  | EmptyString => true
  | String c s' => negb (Ascii.eqb c " ") && space_free s'
  end.

End Auth.

(** ** Deleting a post ([deletePost]) *)

Module Posts.
Import Store.

Record Post := mkPost {
  post_id : string;
  user_id : string;
  post_text : string
}.

Record Response := mkResponse {
  status : Z;
  body : string + string      (* [{ error }] or [{ message }] *)
}.

(** [from('posts').select('user_id').eq('id', postId).single()]. *)
Definition select_owner (f : Fault) (posts : list Post) (postId : string) : Result string :=
  with_fault f
    (single (List.map user_id
               (List.filter (fun p => String.eqb (post_id p) postId) posts))).

(** [from('posts').delete().eq('id', postId)]. *)
Definition delete_post (f : Fault) (posts : list Post) (postId : string)
    : Result (list Post) :=
  with_fault f (Data (List.filter (fun p => negb (String.eqb (post_id p) postId)) posts)).

(** [deletePost]; [userId] is [req.user!.id]. *)
Definition deletePost (userId postId : string) (sel del : Fault) (posts : list Post)
    : list Post * Response :=
  match select_owner sel posts postId with
  | Throws => (posts, {| status := 500; body := inl "Internal server error" |})
  | Error => (posts, {| status := 404; body := inl "Post not found" |})
  | Data owner =>
    if negb (String.eqb owner userId)
    then (posts, {| status := 403; body := inl "Not authorized to delete this post" |})
    else
      match delete_post del posts postId with
      | Data posts' => (posts', {| status := 200; body := inr "Post deleted successfully" |})
      | Error => (posts, {| status := 500; body := inl "Failed to delete post" |})
      | Throws => (posts, {| status := 500; body := inl "Internal server error" |})
      end
  end.

End Posts.

(** ** Hashtags ([extractHashtags] of the posts routes, and the hashtag
       expression of [createPost]) *)

Module Hashtags.

Definition in_range (lo hi c : ascii) : bool := Ascii.leb lo c && Ascii.leb c hi.

(** The class [\w]. *)
Definition is_word (c : ascii) : bool :=
  in_range "a" "z" c || in_range "A" "Z" c || in_range "0" "9" c || Ascii.eqb c "_".

Definition is_upper (c : ascii) : bool := in_range "A" "Z" c.

(** [toLowerCase] on the characters a match is made of ("#" and [\w]). *)
Definition lower (c : ascii) : ascii :=
  if is_upper c then ascii_of_nat (nat_of_ascii c + 32) else c.

Fixpoint toLowerCase (s : string) : string :=
  match s with
  | EmptyString => EmptyString
  | String c s' => String (lower c) (toLowerCase s')
  end.

(** [text.match(/#[\w]+/g) || []]: the scan keeps the word characters read
    since the last "#", if it is inside a candidate match. *)
Definition flush (cur : option string) : list string :=
  match cur with
  | Some w => if String.eqb w "" then [] else [ String "#" w ]
  | None => []
  end.

Definition start (c : ascii) : option string :=
  if Ascii.eqb c "#" then Some "" else None.

Fixpoint scan (s : string) (cur : option string) : list string :=
  match s with
  | EmptyString => flush cur
  | String c s' =>
    match cur with
    | Some w =>
      if is_word c then scan s' (Some (w +:+ String c ""))
      else flush cur ++ scan s' (start c)
    | None => scan s' (start c)
    end
  end.

Definition matches (text : string) : list string := scan text None.

(** [[...new Set(l)]]: the first occurrence of each element, in order. *)
Fixpoint uniq (l : list string) : list string :=
  match l with
  | [] => []
  | x :: l' => x :: List.filter (fun y => negb (String.eqb y x)) (uniq l')
  end.

(** [extractHashtags] of the posts routes. *)
Definition extractHashtags (text : string) : list string :=
  firstn 10 (List.map toLowerCase (matches text)).

(** [uniqueHashtags] of [createPost]. *)
Definition uniqueHashtags (text : string) : list string :=
  uniq (List.map toLowerCase (matches text)).

(** A well-formed tag: "#" and then one or more of [a-z0-9_]. *)
Fixpoint all_chars (p : ascii -> bool) (s : string) : bool :=
  match s with
  | EmptyString => true
  | String c s' => p c && all_chars p s'
  end.

Definition is_tag (t : string) : bool :=
  match t with
  | String c w =>
    Ascii.eqb c "#" && negb (String.eqb w "")
    && all_chars (fun c => is_word c && negb (is_upper c)) w
  | EmptyString => false
  end.

(** A match of the pattern: "#" and then one or more word characters. *)
Definition is_match (t : string) : bool :=
  match t with
  | String c w => Ascii.eqb c "#" && negb (String.eqb w "") && all_chars is_word w
  | EmptyString => false
  end.

End Hashtags.

(** ** A small deployment

  Two registered users, the tokens issued to them, and a token whose
  subject has since been deleted; used by the closed instances below. *)

Module Sample.
Import Store Relay.

Definition alice : User :=
  {| user_id := "u1"; username := "alice"; display_name := "Alice";
     avatar_url := None; is_verified := false |}.

Definition bob : User :=
  {| user_id := "u2"; username := "bob"; display_name := "Bob";
     avatar_url := Some "https://cdn.example/bob.png"; is_verified := true |}.

Definition db0 : DB := {| users := [alice; bob]; messages := [] |}.

Definition jwt_verify (token : string) : option string :=
  if String.eqb token "token-u1" then Some "u1"
  else if String.eqb token "token-u2" then Some "u2"
  else if String.eqb token "token-u9" then Some "u9"
  else None.

Definition env1 : InsertEnv := {| fresh_id := "m1"; now := 1000; fault := NoFault |}.
Definition env2 : InsertEnv := {| fresh_id := "m2"; now := 2000; fault := NoFault |}.
Definition env_down : InsertEnv := {| fresh_id := "m3"; now := 3000; fault := FaultError |}.

(** Both users connected, one socket each. *)
Definition sock1 : Socket := {| userId := "u1"; rooms := {[ user_room "u1" ]} |}.
Definition sock2 : Socket := {| userId := "u2"; rooms := {[ user_room "u2" ]} |}.

Definition srv0 : Server :=
  {| sockets := <[ "s1" := sock1 ]> (<[ "s2" := sock2 ]> ∅); db := db0 |}.

Definition m1 : Message :=
  {| id := "m1"; sender_id := "u1"; receiver_id := "u2"; text := "hello";
     image_url := None; created_at := 1000; read_at := None |}.

Definition m2 : Message :=
  {| id := "m2"; sender_id := "u2"; receiver_id := "u1"; text := "hi";
     image_url := None; created_at := 2000; read_at := None |}.

Definition db2 : DB := {| users := [alice; bob]; messages := [m1; m2] |}.

(** A request as the rate limiter sees it. *)
Definition client : RateLimit.Request :=
  {| RateLimit.ip := Some "10.0.0.7"; RateLimit.remoteAddress := None |}.

(** The row of an administrator, a token verifier, and two posts. *)
Definition admin_row : gmap string Auth.Json :=
  <[ "id" := Auth.jstr "u1" ]>
  (<[ "username" := Auth.jstr "alice" ]>
  (<[ "email" := Auth.jstr "alice@example.org" ]>
  (<[ "is_admin" := Auth.jbool true ]> ∅))).

Definition verify (token : string) : Auth.Verdict :=
  if String.eqb token "token-u1" then Auth.Verified "u1" else Auth.Thrown true false.

Definition posts : list Posts.Post :=
  [ {| Posts.post_id := "p1"; Posts.user_id := "u1"; Posts.post_text := "Sowing #maize" |};
    {| Posts.post_id := "p2"; Posts.user_id := "u2"; Posts.post_text := "Harvest" |} ].

(** A server on which "u1" has joined the conversation with "u2". *)
Definition joined : list Input :=
  [ Connect "s1" (Some "token-u1") NoFault;
    Connect "s2" (Some "token-u2") NoFault;
    Receive "s1" (join_conversation "u2") env1 ].

Definition burst : list (RateLimit.Request * Z) :=
  [ (client, 0); (client, 10); (client, 20); (client, 30); (client, 1005) ].

(** A second client of the rate limiter, at another address. *)
Definition client2 : RateLimit.Request :=
  {| RateLimit.ip := Some "10.0.0.8"; RateLimit.remoteAddress := Some "10.0.0.7" |}.

(** Two users and two messages with ids as the store prints them, a
    service that refuses whatever is not plain, and one that reads the
    pasted text as a filter that lets every row through. *)
Definition carol : User :=
  {| user_id := "3f2504e0-4f89-41d3-9a0c-0305e82c3301"; username := "carol";
     display_name := "Carol"; avatar_url := None; is_verified := true |}.

Definition dave : User :=
  {| user_id := "9b2e1c7a-6d5f-4a3b-8c1d-2e3f4a5b6c7d"; username := "dave";
     display_name := "Dave"; avatar_url := None; is_verified := false |}.

Definition m3 : Message :=
  {| id := "0c9d8e7f-1a2b-4c3d-9e4f-5a6b7c8d9e01";
     sender_id := "3f2504e0-4f89-41d3-9a0c-0305e82c3301";
     receiver_id := "9b2e1c7a-6d5f-4a3b-8c1d-2e3f4a5b6c7d";
     text := "seedlings are in"; image_url := None; created_at := 1000; read_at := None |}.

Definition m4 : Message :=
  {| id := "0c9d8e7f-1a2b-4c3d-9e4f-5a6b7c8d9e02";
     sender_id := "9b2e1c7a-6d5f-4a3b-8c1d-2e3f4a5b6c7d";
     receiver_id := "3f2504e0-4f89-41d3-9a0c-0305e82c3301";
     text := "water them"; image_url := None; created_at := 2000; read_at := None |}.

Definition db3 : DB := {| users := [carol; dave]; messages := [m3; m4] |}.

Definition refuse : string -> option Reading := fun _ => None.

Definition leak : string -> option Reading :=
  fun _ => Some {| r_filter := fun _ => true; r_skip := 0; r_take := 50 |}.

Definition strict : string -> option string := fun _ => None.

End Sample.

(** * Properties *)

(** ** Conversation keys and room names *)

Section Keys.
Import Relay.

Lemma sort_pair (a b : string) :
  Js.sort [a; b] = if String.leb a b then [a; b] else [b; a].
Proof. reflexivity. Qed.

Lemma leb_false_flip (a b : string) : String.leb a b = false -> String.leb b a = true.
Proof.
  intros H. destruct (String.leb_total a b) as [Hab | Hba]; congruence.
Qed.

Lemma conversationId_comm (a b : string) : conversationId a b = conversationId b a.
Proof.
  unfold conversationId. rewrite !sort_pair.
  destruct (String.leb a b) eqn:Hab, (String.leb b a) eqn:Hba; try reflexivity.
  - rewrite (String.leb_antisym _ _ Hab Hba). reflexivity.
  - apply leb_false_flip in Hab. congruence.
Qed.

Lemma user_room_inj (a b : string) : user_room a = user_room b -> a = b.
Proof. unfold user_room. simpl. intros H. injection H. trivial. Qed.

Lemma user_room_not_conversation (a r : string) :
  String.prefix "conversation:" r = true -> r <> user_room a.
Proof. intros H ->. simpl in H. discriminate. Qed.

Lemma conversation_room_prefix (c : string) :
  String.prefix "conversation:" (conversation_room c) = true.
Proof.
  unfold conversation_room. simpl. destruct c; reflexivity.
Qed.

Lemma elem_of_members (socks : gmap string Socket) (room sid : string) :
  sid ∈ members socks room <-> exists s, socks !! sid = Some s /\ room ∈ rooms s.
Proof.
  unfold members. rewrite elem_of_dom. unfold is_Some.
  setoid_rewrite map_lookup_filter_Some. naive_solver.
Qed.

End Keys.

(** ** The relay keeps its room discipline *)

Section RelayInvariants.
Import Store Relay.

Variable jwt_verify : string -> option string.
Variable schema : Schema.

Local Abbreviation step := (Relay.step jwt_verify schema).
Local Abbreviation run := (Relay.run jwt_verify schema).
Local Abbreviation handle := (Relay.handle schema).
Local Abbreviation on_send_message := (Relay.on_send_message schema).

Lemma on_send_message_sockets srv sid sock env r t img :
  sockets (on_send_message srv sid sock env r t img).1 = sockets srv.
Proof.
  unfold Relay.on_send_message.
  destruct (insert_message _ _ _ _ _ _ _ _) as [[db' m] | | ]; reflexivity.
Qed.

Lemma handle_sockets srv sid sock ev env :
  sockets (handle srv sid sock ev env).1 = sockets srv \/
  exists room, String.prefix "conversation:" room = true /\
    sockets (handle srv sid sock ev env).1 =
      <[ sid := {| userId := userId sock; rooms := rooms sock ∪ {[ room ]} |} ]> (sockets srv).
Proof.
  destruct ev; simpl; try (left; reflexivity).
  - right. eexists. split; [ apply conversation_room_prefix | reflexivity ].
  - left. apply on_send_message_sockets.
Qed.

Lemma socket_ok_join (s : Socket) (room : string) :
  String.prefix "conversation:" room = true ->
  socket_ok s ->
  socket_ok {| userId := userId s; rooms := rooms s ∪ {[ room ]} |}.
Proof.
  intros Hp [Hin Hall]. split; simpl.
  - set_solver.
  - intros r Hr. apply elem_of_union in Hr as [Hr | Hr].
    + apply Hall, Hr.
    + apply elem_of_singleton in Hr. subst r. right. exact Hp.
Qed.

Lemma socket_ok_fresh (uid : string) :
  socket_ok {| userId := uid; rooms := {[ user_room uid ]} |}.
Proof.
  split; simpl.
  - set_solver.
  - intros r Hr. apply elem_of_singleton in Hr. left. exact Hr.
Qed.

Lemma rooms_ok_init (d : DB) : rooms_ok (init d).
Proof. unfold rooms_ok, init. simpl. apply map_Forall_empty. Qed.

Lemma rooms_ok_step srv i : rooms_ok srv -> rooms_ok (step srv i).1.
Proof.
  unfold rooms_ok. intros Hok. destruct i as [sid token f | sid ev env | sid]; simpl.
  - destruct (sockets srv !! sid) eqn:Hs; [ exact Hok | ].
    destruct (io_use jwt_verify srv token f); simpl; [ | exact Hok ].
    apply map_Forall_insert_2; [ apply socket_ok_fresh | exact Hok ].
  - destruct (sockets srv !! sid) as [sock | ] eqn:Hs; [ | exact Hok ].
    destruct (handle_sockets srv sid sock ev env) as [-> | (room & Hp & ->)];
      [ exact Hok | ].
    apply map_Forall_insert_2; [ | exact Hok ].
    apply socket_ok_join; [ exact Hp | ]. exact (Hok _ _ Hs).
  - apply map_Forall_delete. exact Hok.
Qed.

Lemma run_cons srv i rest :
  run srv (i :: rest) =
    ((run (step srv i).1 rest).1, (step srv i).2 ++ (run (step srv i).1 rest).2).
Proof.
  simpl. destruct (step srv i) as [srv1 out1]. simpl.
  destruct (Relay.run jwt_verify schema srv1 rest) as [srv2 out2]. reflexivity.
Qed.

Lemma rooms_ok_run inputs : forall srv, rooms_ok srv -> rooms_ok (run srv inputs).1.
Proof.
  induction inputs as [ | i rest IH]; intros srv Hok; [ exact Hok | ].
  rewrite run_cons. simpl. apply IH, rooms_ok_step, Hok.
Qed.

(** A socket sits in the personal room of its own user only. *)
Lemma personal_room_owner srv sid sock uid :
  rooms_ok srv -> sockets srv !! sid = Some sock ->
  user_room uid ∈ rooms sock -> userId sock = uid.
Proof.
  intros Hok Hs Hin. destruct (Hok _ _ Hs) as [_ Hall].
  destruct (Hall _ Hin) as [Heq | Hp].
  - symmetry. apply user_room_inj, Heq.
  - exfalso. exact (user_room_not_conversation uid _ Hp eq_refl).
Qed.

Lemma personal_room_members srv uid sid :
  rooms_ok srv ->
  (sid ∈ members (sockets srv) (user_room uid) <->
   exists sock, sockets srv !! sid = Some sock /\ userId sock = uid).
Proof.
  intros Hok. rewrite elem_of_members. split.
  - intros (s & Hs & Hin). exists s. split; [ exact Hs | ].
    eapply personal_room_owner; eassumption.
  - intros (s & Hs & Hu). exists s. split; [ exact Hs | ].
    subst uid. apply (Hok _ _ Hs).
Qed.

(** Emits come from, and go to, connected sockets only. *)
Lemma recipients_connected (socks : gmap string Socket) (t : Target) (sid : string) :
  sid ∈ recipients socks t ->
  is_Some (socks !! sid) \/ t = socket_emit sid.
Proof.
  destruct t as [room | from room | to]; simpl; intros Hin.
  - apply elem_of_members in Hin as (s & Hs & _). left. eauto.
  - apply elem_of_difference in Hin as [Hin _].
    apply elem_of_members in Hin as (s & Hs & _). left. eauto.
  - apply elem_of_singleton in Hin. subst. right. reflexivity.
Qed.

Lemma handle_effects srv sid sock ev env e :
  sockets srv !! sid = Some sock ->
  Emit e ∈ (handle srv sid sock ev env).2 ->
  origin e = sid /\ forall x, x ∈ receivers e -> is_Some (sockets srv !! x).
Proof.
  intros Hs.
  assert (Hone : forall srv' t ev', sockets srv' = sockets srv ->
            (forall x, t = socket_emit x -> x = sid) ->
            origin (emit srv' sid t ev') = sid /\
            forall x, x ∈ receivers (emit srv' sid t ev') -> is_Some (sockets srv !! x)).
  { intros srv' t ev' Heq Ht. split; [ reflexivity | ].
    intros x Hx. simpl in Hx. rewrite Heq in Hx.
    destruct (recipients_connected _ _ _ Hx) as [H | H]; [ exact H | ].
    rewrite (Ht x H). eauto. }
  destruct ev; simpl; unfold Relay.on_send_message;
    try destruct (insert_message _ _ _ _ _ _ _ _) as [[db' m] | | ]; simpl;
    intros Hin;
    repeat (apply elem_of_cons in Hin as [Hin | Hin];
            [ injection Hin as -> ; apply Hone;
              [ reflexivity | intros x Hx; congruence ]
            | ]);
    apply elem_of_nil in Hin; contradiction.
Qed.

End RelayInvariants.

(** ** What the store calls guarantee *)

Section StoreFacts.
Import Store.


Lemma no_user_no_row (d : DB) (uid : string) :
  has_user d uid = false ->
  List.filter (fun u => String.eqb (user_id u) uid) (users d) = [].
Proof.
  unfold has_user. induction (users d) as [ | u us IH]; simpl; [ reflexivity | ].
  destruct (String.eqb (user_id u) uid); simpl; [ discriminate | exact IH ].
Qed.

Lemma select_user_id_missing (f : Fault) (d : DB) (uid : string) :
  has_user d uid = false -> forall x, select_user_id f d uid <> Data x.
Proof.
  intros H x. unfold select_user_id. rewrite (no_user_no_row _ _ H).
  destruct f; discriminate.
Qed.

(** A successful insert appends exactly the row built from its arguments,
    and the row passed every constraint of the schema. *)
Lemma insert_message_Data sch env e d s r t img d' v :
  insert_message sch env e d s r t img = Data (d', v) ->
  fault env = NoFault /\ insert_allowed sch d (new_row env s r t img) = true /\
  d' = {| users := users d; messages := messages d ++ [new_row env s r t img] |} /\
  v = view e d' (new_row env s r t img).
Proof.
  unfold insert_message. intros H.
  destruct (fault env); simpl in H; try discriminate.
  destruct (insert_allowed sch d (new_row env s r t img)); [ | discriminate ].
  injection H as <- <-. auto.
Qed.

End StoreFacts.

(** ** The relay's forwarding rules *)

Section RelayClaims.
Import Store Relay.

Variable jwt_verify : string -> option string.
Variable schema : Schema.

Local Abbreviation step := (Relay.step jwt_verify schema).
Local Abbreviation run := (Relay.run jwt_verify schema).

(** C2. The conversation key is symmetric, it is the two identities in
    lexicographic order joined by a colon, and the room a socket of [a]
    enters when it joins the conversation with [b] is the room to which a
    message sent by [b] to [a] is addressed: the joined socket is among
    the receivers of that [new_message]. *)
Theorem conversation_key_symmetric (a b : string) srv sa socka sb sockb env env' t img :
  sockets srv !! sa = Some socka -> userId socka = a ->
  sockets srv !! sb = Some sockb -> userId sockb = b ->
  conversationId a b = conversationId b a /\
  (exists lo hi, ((lo = a /\ hi = b) \/ (lo = b /\ hi = a)) /\
      String.leb lo hi = true /\ conversationId a b = lo +:+ ":" +:+ hi) /\
  (exists socka', sockets (step srv (Receive sa (join_conversation b) env)).1 !! sa
                    = Some socka' /\
      userId socka' = a /\
      rooms socka' = rooms socka ∪ {[ conversation_room (conversationId a b) ]}) /\
  (forall e m,
      Emit e ∈ (step (step srv (Receive sa (join_conversation b) env)).1
                     (Receive sb (send_message a t img) env')).2 ->
      event e = new_message m ->
      target e = io_to (conversation_room (conversationId a b)) /\ sa ∈ receivers e).
Proof.
  intros Hsa Ha Hsb Hb. subst a b. split; [ apply conversationId_comm | ]. split.
  { unfold conversationId. rewrite sort_pair.
    destruct (String.leb (userId socka) (userId sockb)) eqn:Hab.
    - exists (userId socka), (userId sockb). auto.
    - exists (userId sockb), (userId socka). split; [ auto | ].
      split; [ apply leb_false_flip, Hab | reflexivity ]. }
  simpl. rewrite Hsa. simpl. split.
  { eexists. rewrite lookup_insert_eq. split; [ reflexivity | ]. simpl. auto. }
  intros e m.
  set (socka' := {| userId := userId socka;
                    rooms := rooms socka ∪ {[ conversation_room
                                                (conversationId (userId socka) (userId sockb)) ]} |}).
  assert (Hsb' : exists sock2, <[ sa := socka' ]> (sockets srv) !! sb = Some sock2 /\
                               userId sock2 = userId sockb).
  { destruct (decide (sa = sb)) as [-> | Hne].
    - exists socka'. rewrite lookup_insert_eq. split; [ reflexivity | ].
      simpl. rewrite Hsa in Hsb. injection Hsb as <-. reflexivity.
    - exists sockb. rewrite lookup_insert_ne by exact Hne. auto. }
  destruct Hsb' as (sock2 & -> & Hu2). unfold Relay.on_send_message. rewrite Hu2.
  destruct (insert_message _ _ _ _ _ _ _ _) as [[db' v] | | ]; simpl; intros Hin Hev.
  - apply elem_of_cons in Hin as [Hin | Hin].
    + injection Hin as ->. simpl.
      rewrite (conversationId_comm (userId sockb) (userId socka)). split; [ reflexivity | ].
      apply elem_of_members. exists socka'.
      rewrite lookup_insert_eq. split; [ reflexivity | ]. simpl. set_solver.
    + apply elem_of_cons in Hin as [Hin | Hin]; [ | apply elem_of_nil in Hin; contradiction ].
      injection Hin as ->. discriminate Hev.
  - apply elem_of_cons in Hin as [Hin | Hin]; [ | apply elem_of_nil in Hin; contradiction ].
    injection Hin as ->. discriminate Hev.
  - apply elem_of_cons in Hin as [Hin | Hin]; [ | apply elem_of_nil in Hin; contradiction ].
    injection Hin as ->. discriminate Hev.
Qed.


(** C3. When the insert of a [send_message] fails, whether the store
    answers with an error or the call throws, the handler returns
    normally with the server unchanged and a single emit: a
    [message_error] to the sending socket alone. Nothing is broadcast. *)
Theorem send_message_store_failure srv sid sock env r t img :
  sockets srv !! sid = Some sock ->
  (forall db' msg,
      insert_message schema env embed_sender (db srv) (userId sock) r t (Js.or_null img)
        <> Data (db', msg)) ->
  step srv (Receive sid (send_message r t img) env)
    = (srv, [ Emit {| origin := sid; target := socket_emit sid;
                      event := message_error "Failed to send message";
                      receivers := {[ sid ]} |} ]).
Proof.
  intros Hs Hfail. simpl. rewrite Hs. simpl. unfold Relay.on_send_message.
  destruct (insert_message _ _ _ _ _ _ _ _) as [[db' v] | | ] eqn:E.
  - exfalso. exact (Hfail db' v eq_refl).
  - reflexivity.
  - reflexivity.
Qed.

(** C6. [typing_start] then [typing_stop] from a socket of [s] naming
    another user [r] leave the server as it was and make exactly two
    emits, [user_typing] with [s] and [true], then with [s] and [false],
    both to the personal room of [r] less the emitting socket. Those
    receivers are exactly the sockets of [r]; no socket of [s] is among
    them. *)
Theorem typing_start_stop srv sid sock r env1 env2 :
  rooms_ok srv ->
  sockets srv !! sid = Some sock ->
  r <> userId sock ->
  let s := userId sock in
  let group := members (sockets srv) (user_room r) ∖ {[ sid ]} in
  let typing b :=
    {| origin := sid; target := socket_to sid (user_room r);
       event := user_typing s b; receivers := group |} in
  run srv [ Receive sid (typing_start r) env1; Receive sid (typing_stop r) env2 ]
    = (srv, [ Emit (typing true); Emit (typing false) ]) /\
  (forall x, x ∈ group <->
             exists sock', sockets srv !! x = Some sock' /\ userId sock' = r) /\
  (forall x sock', sockets srv !! x = Some sock' -> userId sock' = s -> x ∉ group).
Proof.
  intros Hok Hs Hne. simpl. rewrite Hs. simpl. rewrite Hs. simpl.
  split; [ reflexivity | ]. split.
  - intros x. rewrite elem_of_difference, (personal_room_members _ _ _ Hok). split.
    + intros [H _]. exact H.
    + intros (sock' & Hx & Hr). split; [ eauto | ].
      intros Hin. apply elem_of_singleton in Hin. subst x.
      rewrite Hs in Hx. injection Hx as <-. congruence.
  - intros x sock' Hx Hu Hin. apply elem_of_difference in Hin as [Hin _].
    apply (personal_room_members _ _ _ Hok) in Hin as (s' & Hs' & Hr).
    rewrite Hx in Hs'. injection Hs' as <-. congruence.
Qed.

(** A socket id that is not connected stays so, and neither sends nor
    receives, as long as no handshake is made on it. *)
Lemma absent_step srv i sid :
  sockets srv !! sid = None ->
  is_connect i && String.eqb (input_sid i) sid = false ->
  sockets (step srv i).1 !! sid = None /\
  forall e, Emit e ∈ (step srv i).2 -> origin e <> sid /\ sid ∉ receivers e.
Proof.
  intros Habs Hi. destruct i as [sid' token f | sid' ev env | sid']; simpl in *.
  - apply String.eqb_neq in Hi.
    destruct (sockets srv !! sid') eqn:Hs'; simpl.
    { split; [ exact Habs | ]. intros e He. apply elem_of_nil in He. contradiction. }
    destruct (io_use jwt_verify srv token f); simpl.
    + split; [ rewrite lookup_insert_ne by exact Hi; exact Habs | ].
      intros e He. apply elem_of_nil in He. contradiction.
    + split; [ exact Habs | ]. intros e He.
      apply elem_of_cons in He as [He | He]; [ discriminate He | ].
      apply elem_of_nil in He. contradiction.
  - destruct (sockets srv !! sid') as [sock | ] eqn:Hs'; simpl.
    2:{ split; [ exact Habs | ]. intros e He. apply elem_of_nil in He. contradiction. }
    assert (Hne : sid' <> sid) by (intros ->; congruence). split.
    + destruct (handle_sockets schema srv sid' sock ev env) as [-> | (room & _ & ->)];
        [ exact Habs | ].
      rewrite lookup_insert_ne by exact Hne. exact Habs.
    + intros e He. destruct (handle_effects schema _ _ _ _ _ _ Hs' He) as [Ho Hr].
      split; [ congruence | ].
      intros Hin. destruct (Hr _ Hin) as [x Hx]. congruence.
  - split.
    + apply lookup_delete_None. right. exact Habs.
    + intros e He. apply elem_of_nil in He. contradiction.
Qed.

Lemma absent_run sid rest : forall srv,
  sockets srv !! sid = None ->
  forallb (fun i => negb (is_connect i && String.eqb (input_sid i) sid)) rest = true ->
  sockets (run srv rest).1 !! sid = None /\
  forall e, Emit e ∈ (run srv rest).2 -> origin e <> sid /\ sid ∉ receivers e.
Proof.
  induction rest as [ | i rest IH]; intros srv Habs Hno.
  - simpl. split; [ exact Habs | ]. intros e He. apply elem_of_nil in He. contradiction.
  - simpl in Hno. apply andb_true_iff in Hno as [Hi Hno]. apply negb_true_iff in Hi.
    rewrite run_cons. simpl.
    destruct (absent_step srv i sid Habs Hi) as [Habs1 Hout1].
    destruct (IH _ Habs1 Hno) as [Habs2 Hout2].
    split; [ exact Habs2 | ].
    intros e He. apply elem_of_app in He as [He | He]; auto.
Qed.

(** C4. A handshake whose token is missing, does not verify, or names a
    user that does not exist is refused with "Authentication error" and
    leaves the server as it was: the socket is in no room. Whatever
    reaches the server afterwards (the transport makes no second
    handshake on the refused socket id), the socket is never connected,
    no emit is delivered to it and none originates from it; an event
    sent on it finds no handler. *)
Theorem rejected_connection srv sid token f rest :
  sockets srv !! sid = None ->
  (Js.truthy token = false \/
   jwt_verify (Js.or_empty token) = None \/
   exists uid, jwt_verify (Js.or_empty token) = Some uid /\ has_user (db srv) uid = false) ->
  forallb (fun i => negb (is_connect i && String.eqb (input_sid i) sid)) rest = true ->
  step srv (Connect sid token f) = (srv, [ Refuse sid "Authentication error" ]) /\
  (forall room, sid ∉ members (sockets srv) room) /\
  sockets (run srv rest).1 !! sid = None /\
  (forall e, Emit e ∈ (run srv rest).2 -> origin e <> sid /\ sid ∉ receivers e) /\
  (forall srv', sockets srv' !! sid = None ->
     forall ev env, step srv' (Receive sid ev env) = (srv', [])).
Proof.
  intros Habs Hbad Hno. split.
  { simpl. rewrite Habs. unfold io_use.
    destruct Hbad as [Ht | [Hv | (uid & Hv & Hu)]].
    - rewrite Ht. reflexivity.
    - destruct (Js.truthy token); simpl; [ | reflexivity ]. rewrite Hv. reflexivity.
    - destruct (Js.truthy token); simpl; [ | reflexivity ]. rewrite Hv.
      pose proof (select_user_id_missing f _ _ Hu) as Hsel.
      destruct (select_user_id f (db srv) uid) as [x | | ]; [ | reflexivity | reflexivity ].
      exfalso. exact (Hsel x eq_refl). }
  split.
  { intros room Hin. apply elem_of_members in Hin as (s & Hs & _). congruence. }
  destruct (absent_run sid rest srv Habs Hno) as [H1 H2].
  split; [ exact H1 | ]. split; [ exact H2 | ].
  intros srv' Habs' ev env. simpl. rewrite Habs'. reflexivity.
Qed.

End RelayClaims.

(** ** The relay's rules on the sample deployment *)

Section RelayInstances.
Import Store Relay.

Lemma sample_rooms_ok : rooms_ok Sample.srv0.
Proof.
  unfold rooms_ok, Sample.srv0. simpl.
  apply map_Forall_insert_2; [ apply socket_ok_fresh | ].
  apply map_Forall_insert_2; [ apply socket_ok_fresh | ].
  apply map_Forall_empty.
Defined.

Lemma sample_s1 : sockets Sample.srv0 !! "s1" = Some Sample.sock1.
Proof. vm_compute. reflexivity. Defined.

Lemma sample_s2 : sockets Sample.srv0 !! "s2" = Some Sample.sock2.
Proof. vm_compute. reflexivity. Defined.

Lemma conversation_key_symmetric_witness :
  sockets Sample.srv0 !! "s1" = Some Sample.sock1 /\
  sockets Sample.srv0 !! "s2" = Some Sample.sock2 /\
  conversationId "u1" "u2" = "u1:u2" /\
  conversationId "u1" "u2" = conversationId "u2" "u1".
Proof.
  split; [ exact sample_s1 | ]. split; [ exact sample_s2 | ].
  split; [ reflexivity | ].
  exact (proj1 (conversation_key_symmetric Sample.jwt_verify schema_sql "u1" "u2"
                  Sample.srv0 "s1" Sample.sock1 "s2" Sample.sock2
                  Sample.env1 Sample.env2 "hello" None
                  sample_s1 eq_refl sample_s2 eq_refl)).
Defined.


Lemma send_message_store_failure_witness :
  sockets Sample.srv0 !! "s1" = Some Sample.sock1 /\
  (forall db' msg,
      insert_message schema_sql Sample.env_down embed_sender (db Sample.srv0)
        (userId Sample.sock1) "u2" "hello" (Js.or_null None) <> Data (db', msg)) /\
  Relay.step Sample.jwt_verify schema_sql Sample.srv0
      (Receive "s1" (send_message "u2" "hello" None) Sample.env_down)
    = (Sample.srv0,
       [ Emit {| origin := "s1"; target := socket_emit "s1";
                 event := message_error "Failed to send message";
                 receivers := {[ "s1" ]} |} ]).
Proof.
  assert (Hfail : forall db' msg,
             insert_message schema_sql Sample.env_down embed_sender (db Sample.srv0)
               (userId Sample.sock1) "u2" "hello" (Js.or_null None) <> Data (db', msg))
    by (intros db' msg; simpl; discriminate).
  split; [ exact sample_s1 | ]. split; [ exact Hfail | ].
  exact (send_message_store_failure Sample.jwt_verify schema_sql Sample.srv0 "s1"
           Sample.sock1 Sample.env_down "u2" "hello" None sample_s1 Hfail).
Defined.

Lemma typing_start_stop_witness :
  rooms_ok Sample.srv0 /\
  sockets Sample.srv0 !! "s1" = Some Sample.sock1 /\
  "u2" <> userId Sample.sock1 /\
  "s1" ∉ members (sockets Sample.srv0) (user_room "u2") ∖ {[ "s1" ]}.
Proof.
  assert (Hne : "u2" <> userId Sample.sock1) by (simpl; discriminate).
  split; [ exact sample_rooms_ok | ]. split; [ exact sample_s1 | ].
  split; [ exact Hne | ].
  pose proof (typing_start_stop Sample.jwt_verify schema_sql Sample.srv0 "s1"
                Sample.sock1 "u2" Sample.env1 Sample.env2
                sample_rooms_ok sample_s1 Hne) as H.
  simpl in H. destruct H as (_ & _ & H).
  exact (H "s1" Sample.sock1 sample_s1 eq_refl).
Defined.

Lemma rejected_connection_witness :
  sockets Sample.srv0 !! "s3" = None /\
  (Js.truthy None = false \/
   Sample.jwt_verify (Js.or_empty None) = None \/
   exists uid, Sample.jwt_verify (Js.or_empty None) = Some uid /\
               has_user (db Sample.srv0) uid = false) /\
  forallb (fun i => negb (is_connect i && String.eqb (input_sid i) "s3"))
    [ Receive "s3" (join_conversation "u1") Sample.env1;
      Receive "s1" (send_message "u2" "hello" None) Sample.env1 ] = true /\
  Relay.step Sample.jwt_verify schema_sql Sample.srv0 (Connect "s3" None NoFault)
    = (Sample.srv0, [ Refuse "s3" "Authentication error" ]).
Proof.
  assert (Habs : sockets Sample.srv0 !! "s3" = None) by (vm_compute; reflexivity).
  assert (Hbad : Js.truthy None = false \/
                 Sample.jwt_verify (Js.or_empty None) = None \/
                 exists uid, Sample.jwt_verify (Js.or_empty None) = Some uid /\
                             has_user (db Sample.srv0) uid = false)
    by (left; reflexivity).
  assert (Hno : forallb (fun i => negb (is_connect i && String.eqb (input_sid i) "s3"))
                  [ Receive "s3" (join_conversation "u1") Sample.env1;
                    Receive "s1" (send_message "u2" "hello" None) Sample.env1 ] = true)
    by reflexivity.
  split; [ exact Habs | ]. split; [ exact Hbad | ]. split; [ exact Hno | ].
  exact (proj1 (rejected_connection Sample.jwt_verify schema_sql Sample.srv0 "s3" None
                  NoFault _ Habs Hbad Hno)).
Defined.

(** The other two ways a handshake fails: a token that does not verify,
    and a valid token whose user is gone. *)
Example forged_token_refused :
  Relay.step Sample.jwt_verify schema_sql Sample.srv0 (Connect "s3" (Some "forged") NoFault)
    = (Sample.srv0, [ Refuse "s3" "Authentication error" ]).
Proof. vm_compute. reflexivity. Qed.

Example deleted_user_refused :
  Relay.step Sample.jwt_verify schema_sql Sample.srv0 (Connect "s3" (Some "token-u9") NoFault)
    = (Sample.srv0, [ Refuse "s3" "Authentication error" ]).
Proof. vm_compute. reflexivity. Qed.

(** The end-to-end scenario of the specification: "u1" sends "hello" to
    "u2"; one row is stored and [new_message] goes to the room of the key
    "u1:u2". *)
Example hello_scenario :
  exists srv' e1 e2,
    Relay.step Sample.jwt_verify schema_sql Sample.srv0
      (Receive "s1" (send_message "u2" "hello" None) Sample.env1) = (srv', [ Emit e1; Emit e2 ]) /\
    messages (db srv') = [ Sample.m1 ] /\
    target e1 = io_to "conversation:u1:u2" /\
    event e1 = new_message {| row := Sample.m1;
                              sender := Some (profile_of false Sample.alice);
                              receiver := None |} /\
    target e2 = io_to "user:u2".
Proof. do 3 eexists. repeat split; reflexivity. Qed.

End RelayInstances.

(** ** The message controller *)

Section MessageClaims.
Import Store Messages.

(** With unique ids, the look-up of [deleteMessage] finds the row of the
    requester, and only that one. *)
Lemma select_own_unique (l : list Message) (m : Message) (uid : string) :
  NoDup (List.map id l) -> In m l -> sender_id m = uid ->
  List.filter (fun x => String.eqb (id x) (id m) && String.eqb (sender_id x) uid) l = [ m ].
Proof.
  intros Hnd Hin Hu. induction l as [ | x l IH]; [ destruct Hin | ].
  simpl in Hnd. apply NoDup_cons in Hnd as [Hx Hnd]. simpl.
  destruct Hin as [-> | Hin].
  - rewrite String.eqb_refl, Hu, String.eqb_refl. simpl. f_equal.
    clear IH Hnd. induction l as [ | y l IH]; [ reflexivity | ]. simpl.
    destruct (String.eqb (id y) (id m)) eqn:E.
    + exfalso. apply Hx. apply String.eqb_eq in E. rewrite <- E.
      apply list_elem_of_In. simpl. left. reflexivity.
    + simpl. apply IH. intros H. apply Hx. apply list_elem_of_In. simpl. right.
      apply list_elem_of_In, H.
  - destruct (String.eqb (id x) (id m)) eqn:E.
    + exfalso. apply Hx. apply String.eqb_eq in E. rewrite E.
      apply list_elem_of_In, in_map, Hin.
    + simpl. apply IH; assumption.
Qed.

Lemma select_own_none (l : list Message) (mid uid : string) :
  ~ (exists m, In m l /\ id m = mid /\ sender_id m = uid) ->
  List.filter (fun x => String.eqb (id x) mid && String.eqb (sender_id x) uid) l = [].
Proof.
  intros Hno. induction l as [ | x l IH]; [ reflexivity | ]. simpl.
  destruct (String.eqb (id x) mid && String.eqb (sender_id x) uid) eqn:E.
  - exfalso. apply Hno. exists x. apply andb_true_iff in E as [E1 E2].
    apply String.eqb_eq in E1, E2. simpl. auto.
  - apply IH. intros (m & Hin & Hm). apply Hno. exists m. simpl. auto.
Qed.

Lemma owned_or_not (l : list Message) (mid uid : string) :
  (exists m, In m l /\ id m = mid /\ sender_id m = uid) \/
  ~ (exists m, In m l /\ id m = mid /\ sender_id m = uid).
Proof.
  induction l as [ | x l [IH | IH]].
  - right. intros (m & [] & _).
  - left. destruct IH as (m & Hin & Hm). exists m. simpl. auto.
  - destruct (String.eqb (id x) mid && String.eqb (sender_id x) uid) eqn:E.
    + left. exists x. apply andb_true_iff in E as [E1 E2].
      apply String.eqb_eq in E1, E2. simpl. auto.
    + right. intros (m & [-> | Hin] & Hid & Hu).
      * rewrite <- Hid, <- Hu, !String.eqb_refl in E. discriminate.
      * apply IH. exists m. auto.
Qed.

(** C7, as the code has it. [deleteMessage] removes the message exactly
    when the requester is its sender (and both store calls succeed). A
    request by anyone else leaves the store as it was and is answered
    404 "Message not found or unauthorized", the answer a missing message
    gets, not 403. *)
Theorem delete_message_by_sender_only (db : DB) (uid mid : string) (sel del : Fault) :
  NoDup (List.map id (messages db)) ->
  uid <> "" ->
  let owned := exists m, In m (messages db) /\ id m = mid /\ sender_id m = uid in
  let db' := (deleteMessage (Some uid) mid sel del db).1 in
  let resp := (deleteMessage (Some uid) mid sel del db).2 in
  (owned -> sel = NoFault -> del = NoFault ->
     resp = reply 200 json_success /\
     users db' = users db /\
     messages db' = List.filter (fun m => negb (String.eqb (id m) mid)) (messages db) /\
     forall m, In m (messages db') -> id m <> mid) /\
  (~ owned ->
     db' = db /\
     (sel = NoFault -> resp = reply 404 (json_error "Message not found or unauthorized"))) /\
  (db' = db \/ (owned /\ resp = reply 200 json_success)).
Proof.
  intros Hnd Hne owned db' resp. subst db' resp. unfold deleteMessage.
  assert (Ht : Js.truthy (Some uid) = true).
  { simpl. apply negb_true_iff, String.eqb_neq, Hne. }
  rewrite Ht. simpl negb. cbv iota. simpl Js.or_empty.
  split; [ | split ].
  - intros (m & Hin & Hid & Hu) -> ->. unfold select_own_message, delete_message. simpl.
    subst mid. rewrite (select_own_unique _ _ _ Hnd Hin Hu). simpl.
    repeat split. intros x Hx. apply filter_In in Hx as [_ Hx].
    apply negb_true_iff, String.eqb_neq in Hx. exact Hx.
  - intros Hno. unfold select_own_message. rewrite (select_own_none _ _ _ Hno).
    destruct sel; simpl; split; try reflexivity; intros; try reflexivity; discriminate.
  - unfold select_own_message.
    destruct (owned_or_not (messages db) mid uid) as [Hown | Hno].
    + destruct Hown as (m & Hin & Hid & Hu). subst mid.
      rewrite (select_own_unique _ _ _ Hnd Hin Hu).
      destruct sel; simpl; try (left; reflexivity).
      unfold delete_message. destruct del; simpl; try (left; reflexivity).
      right. split; [ exists m; auto | reflexivity ].
    + rewrite (select_own_none _ _ _ Hno). destruct sel; simpl; left; reflexivity.
Qed.

Lemma sample_ids_unique : NoDup (List.map id (messages Sample.db2)).
Proof.
  simpl. apply NoDup_cons. split.
  - intros Hin. apply list_elem_of_singleton in Hin. discriminate Hin.
  - apply NoDup_singleton.
Defined.

(** C7 as the specification words it does not hold: a request by someone
    who is not the sender is not answered 403. *)
Lemma delete_by_other_not_403 :
  ~ (forall (db : DB) (uid mid : string) (m : Message),
       NoDup (List.map id (messages db)) -> uid <> "" ->
       In m (messages db) -> id m = mid -> sender_id m <> uid ->
       status (deleteMessage (Some uid) mid NoFault NoFault db).2 = 403).
Proof.
  intros H.
  specialize (H Sample.db2 "u2" "m1" Sample.m1 sample_ids_unique).
  assert (E : status (deleteMessage (Some "u2") "m1" NoFault NoFault Sample.db2).2 = 404)
    by reflexivity.
  rewrite E in H. 
  assert (Habs : 404 = 403).
  { apply H; simpl; try discriminate; auto. }
  discriminate Habs.
Qed.

(** What the CHECK constraint of [schema_sql] buys: under a schema that
    has it, an insert keeps sender and receiver distinct in every row. *)
Lemma insert_keeps_parties_distinct sch env e d s r t img d' v :
  check_sender_ne_receiver sch = true ->
  insert_message sch env e d s r t img = Data (d', v) ->
  Forall (fun m => sender_id m <> receiver_id m) (messages d) ->
  Forall (fun m => sender_id m <> receiver_id m) (messages d').
Proof.
  intros Hchk Hins Hall. apply insert_message_Data in Hins as (_ & Hallow & -> & _).
  simpl. apply Forall_app. split; [ exact Hall | ].
  constructor; [ | constructor ]. simpl.
  unfold insert_allowed in Hallow. rewrite Hchk in Hallow. simpl in Hallow.
  repeat (apply andb_true_iff in Hallow as [Hallow ?]).
  match goal with
  | H : negb (String.eqb s r) = true |- _ =>
    apply negb_true_iff, String.eqb_neq in H; exact H
  end.
Qed.

(** Without the check nothing stands in the way: any registered user can
    have a row written from themselves to themselves. *)
Lemma self_message_accepted (env : InsertEnv) (e : Embed) (d : DB) (uid t : string)
    (img : option string) :
  has_user d uid = true -> has_message d (fresh_id env) = false -> fault env = NoFault ->
  exists d' v,
    insert_message DATABASE_SCHEMA env e d uid uid t img = Data (d', v) /\
    In (new_row env uid uid t img) (messages d').
Proof.
  intros Hu Hm Hf. unfold insert_message, insert_allowed. rewrite Hf. simpl.
  rewrite Hu, Hm. simpl. do 2 eexists. split; [ reflexivity | ].
  simpl. apply in_or_app. right. simpl. auto.
Qed.

(** C5 at a failing input. Neither send path compares sender and
    receiver. With the table as [DATABASE_SCHEMA] creates it, "u1" writing
    to "u1" is stored by the REST path (answer 201) and by the relay path
    (which then broadcasts it). *)
Theorem self_message_persisted :
  let rest := sendMessage DATABASE_SCHEMA (Some "u1") (Some "u1") (Some "note") None
                NoFault Sample.env1 Sample.db0 in
  let relay := Relay.step Sample.jwt_verify DATABASE_SCHEMA Sample.srv0
                 (Relay.Receive "s1" (Relay.send_message "u1" "note" None) Sample.env1) in
  let self := {| id := "m1"; sender_id := "u1"; receiver_id := "u1"; text := "note";
                 image_url := None; created_at := 1000; read_at := None |} in
  status rest.2 = 201 /\
  messages rest.1 = [ self ] /\
  messages (Relay.db relay.1) = [ self ] /\
  length relay.2 = 2%nat /\
  sender_id self = receiver_id self.
Proof. vm_compute. repeat split; reflexivity. Qed.

(** The same requests against the table of [schema_sql] are refused by
    the store: the REST path answers 500 and the relay a
    [message_error]; nothing is stored. *)
Example self_message_refused_by_check :
  let rest := sendMessage schema_sql (Some "u1") (Some "u1") (Some "note") None
                NoFault Sample.env1 Sample.db0 in
  let relay := Relay.step Sample.jwt_verify schema_sql Sample.srv0
                 (Relay.Receive "s1" (Relay.send_message "u1" "note" None) Sample.env1) in
  rest = (Sample.db0, reply 500 (json_error "Failed to send message")) /\
  relay.1 = Sample.srv0 /\
  List.map (fun x => match x with
                     | Relay.Emit e => Some (Relay.target e, Relay.event e)
                     | _ => None
                     end) relay.2
    = [ Some (Relay.socket_emit "s1", Relay.message_error "Failed to send message") ].
Proof. vm_compute. repeat split; reflexivity. Qed.

(** The page [getMessages] fetches is made of rows of the table. *)
Lemma insert_desc_In (m x : Message) (l : list Message) :
  In x (insert_desc m l) <-> x = m \/ In x l.
Proof.
  induction l as [ | y l IH]; simpl.
  - intuition.
  - destruct (created_at y <=? created_at m); simpl; [ intuition | ].
    rewrite IH. intuition.
Qed.

Lemma order_desc_In (x : Message) (l : list Message) :
  In x (order_desc l) <-> In x l.
Proof.
  unfold order_desc. induction l as [ | y l IH]; simpl; [ reflexivity | ].
  rewrite insert_desc_In, IH. intuition.
Qed.

Lemma range_In {A : Type} (from to : option Z) (rows page : list A) (x : A) :
  range from to rows = Data page -> In x page -> In x rows.
Proof.
  unfold range. destruct from as [a | ], to as [b | ]; try discriminate.
  destruct ((0 <=? a) && (a <=? b + 1)); [ | discriminate ].
  intros H Hin. injection H as <-.
  apply list_elem_of_In. apply list_elem_of_In in Hin.
  eapply subseteq_drop, subseteq_take, Hin.
Qed.

Lemma is_uuid_named (s : string) : is_uuid s = true -> Js.truthy (Some s) = true.
Proof. destruct s; [ discriminate | reflexivity ]. Qed.

Lemma select_between_plain f odd d u o from to :
  plain u o from to = true ->
  select_between f odd d u o from to
    = with_fault f (range from to (order_desc (List.filter (between u o) (messages d)))).
Proof. unfold select_between. intros ->. reflexivity. Qed.

(** Whatever the request, what a fetch answers with are stored rows. *)
Lemma select_between_In f odd d u o from to page m :
  select_between f odd d u o from to = Data page -> In m page -> In m (messages d).
Proof.
  unfold select_between. destruct f; simpl; try discriminate.
  destruct (plain u o from to).
  - intros H Hin. apply (range_In _ _ _ _ _ H) in Hin.
    apply order_desc_In, filter_In in Hin. apply Hin.
  - destruct (odd (or_filter u o)) as [r | ]; [ | discriminate ].
    intros H Hin. injection H as <-.
    apply list_elem_of_In in Hin.
    apply subseteq_take, subseteq_drop in Hin. apply list_elem_of_In in Hin.
    apply order_desc_In, filter_In in Hin. apply Hin.
Qed.

Lemma unique_id_eq (l : list Message) (x y : Message) :
  NoDup (List.map id l) -> In x l -> In y l -> id x = id y -> x = y.
Proof.
  induction l as [ | z l IH]; intros Hnd Hx Hy E; [ destruct Hx | ].
  simpl in Hnd. apply NoDup_cons in Hnd as [Hz Hnd].
  destruct Hx as [-> | Hx], Hy as [-> | Hy]; auto.
  - exfalso. apply Hz. rewrite E. apply list_elem_of_In, in_map, Hy.
  - exfalso. apply Hz. rewrite <- E. apply list_elem_of_In, in_map, Hx.
Qed.

Lemma mem_In (x : string) (l : list string) : mem x l = true <-> In x l.
Proof.
  unfold mem. rewrite existsb_exists. split.
  - intros (y & Hy & E). apply String.eqb_eq in E. subst. exact Hy.
  - intros H. exists x. split; [ exact H | apply String.eqb_refl ].
Qed.

(** The UPDATE of [getMessages] touches [read_at] and nothing else, and
    only in rows picked by id. *)
Lemma update_frame (t : Z) (ids : list string) (P : Message -> Prop) (l : list Message) :
  (forall m, In m l -> mem (id m) ids = true -> P m) ->
  Forall2 (fun m m' =>
             id m' = id m /\ sender_id m' = sender_id m /\ receiver_id m' = receiver_id m /\
             text m' = text m /\ image_url m' = image_url m /\
             created_at m' = created_at m /\
             (read_at m' = read_at m \/ (read_at m' = Some t /\ P m)))
          l (List.map (fun m => if mem (id m) ids then stamp t m else m) l).
Proof.
  induction l as [ | x l IH]; intros HP; simpl; constructor.
  - destruct (mem (id x) ids) eqn:E; simpl.
    + repeat split. right. split; [ reflexivity | ]. apply HP; simpl; auto.
    + repeat split. left. reflexivity.
  - apply IH. intros m Hm. apply HP. simpl. auto.
Qed.

Lemma frame_refl (t : Z) (P : Message -> Prop) (l : list Message) :
  Forall2 (fun m m' =>
             id m' = id m /\ sender_id m' = sender_id m /\ receiver_id m' = receiver_id m /\
             text m' = text m /\ image_url m' = image_url m /\
             created_at m' = created_at m /\
             (read_at m' = read_at m \/ (read_at m' = Some t /\ P m)))
          l l.
Proof. induction l; constructor; auto. repeat split. left. reflexivity. Qed.

(** C9. [getMessages] changes the store in one way only, and only when
    its update goes through. Whatever the request and whatever the service
    reads out of it: row by row, the table after the call is the table
    before it, except that [read_at] is set to the time of the call in rows
    that are in the fetched page, are addressed to the caller and were
    unread; users are untouched. When the fetch succeeds with page [rows]
    and the update does not throw, the answer is 200 with that page, oldest
    first. When the update goes through, every row of the page that is
    addressed to the caller and unread is stored with [read_at] set and
    every other column as it was. The result of the update is not looked
    at: when it is an error the store is left as it was under the same
    answer. When the fetch fails nothing changes. *)
Theorem getMessages_marks_page_read (uid other : string) (page limit : option Z)
    (sel upd : Fault) (odd : string -> option Reading) (t : Z) (db : DB) :
  NoDup (List.map id (messages db)) ->
  uid <> "" ->
  let offset := num_mul (num_sub page (Some 1)) limit in
  let fetched := select_between sel odd db uid other offset
                   (num_sub (num_add offset limit) (Some 1)) in
  let in_page m := exists rows, fetched = Data rows /\ In m rows in
  let db' := (getMessages (Some uid) other page limit sel odd upd t db).1 in
  let resp := (getMessages (Some uid) other page limit sel odd upd t db).2 in
  users db' = users db /\
  Forall2 (fun m m' =>
             id m' = id m /\ sender_id m' = sender_id m /\ receiver_id m' = receiver_id m /\
             text m' = text m /\ image_url m' = image_url m /\
             created_at m' = created_at m /\
             (read_at m' = read_at m \/
              (read_at m' = Some t /\
               in_page m /\ receiver_id m = uid /\ read_at m = None)))
          (messages db) (messages db') /\
  (forall rows, fetched = Data rows -> upd <> FaultThrow ->
     resp = reply 200 (json_messages (List.map (view embed_sender_verified db) (rev rows))
                         (num_eq (Some (Z.of_nat (length rows))) limit))) /\
  (forall rows, fetched = Data rows -> upd = NoFault ->
     forall m, In m rows -> receiver_id m = uid -> read_at m = None ->
       In {| id := id m; sender_id := sender_id m; receiver_id := receiver_id m;
             text := text m; image_url := image_url m; created_at := created_at m;
             read_at := Some t |} (messages db') /\
       forall m', In m' (messages db') -> id m' = id m ->
         read_at m' = Some t /\ sender_id m' = sender_id m /\
         receiver_id m' = receiver_id m /\ text m' = text m /\
         image_url m' = image_url m /\ created_at m' = created_at m) /\
  (upd <> NoFault -> db' = db) /\
  ((forall rows, fetched <> Data rows) -> db' = db /\ status resp = 500).
Proof.
  intros Hnd Hne offset fetched in_page db' resp.
  subst db' resp. unfold getMessages.
  assert (Ht : Js.truthy (Some uid) = true).
  { simpl. apply negb_true_iff, String.eqb_neq, Hne. }
  rewrite Ht. simpl negb. cbv iota. simpl Js.or_empty.
  fold offset. fold fetched.
  destruct fetched as [rows | | ] eqn:Hf; simpl.
  2:{ repeat split; try apply frame_refl; intros; try discriminate; reflexivity. }
  2:{ repeat split; try apply frame_refl; intros; try discriminate; reflexivity. }
  set (ids := List.map id (List.filter (unread_for uid) rows)).
  assert (Hpick : forall m, In m (messages db) -> mem (id m) ids = true ->
             in_page m /\ receiver_id m = uid /\ read_at m = None).
  { intros m Hm Hmem. apply mem_In in Hmem. unfold ids in Hmem.
    apply in_map_iff in Hmem as (p & Hid & Hp). apply filter_In in Hp as [Hp Hun].
    pose proof (select_between_In _ _ _ _ _ _ _ _ _ Hf Hp) as Hpd.
    assert (p = m) by (eapply unique_id_eq; eassumption). subst p.
    split; [ exists rows; auto | ].
    unfold unread_for in Hun. apply andb_true_iff in Hun as [Hr Hra].
    apply String.eqb_eq in Hr. destruct (read_at m); [ discriminate | auto ]. }
  assert (Hunread : forall m, In m rows -> receiver_id m = uid -> read_at m = None ->
             mem (id m) ids = true).
  { intros m Hm Hr Hra. apply mem_In. unfold ids. apply in_map. apply filter_In.
    split; [ exact Hm | ]. unfold unread_for. rewrite Hr, String.eqb_refl, Hra. reflexivity. }
  destruct (0 <? Z.of_nat (length ids)) eqn:Hlen.
  - unfold update_read_at. destruct upd; simpl.
    + split; [ reflexivity | ]. split; [ apply update_frame, Hpick | ].
      split; [ intros rows' Hrows' _; injection Hrows' as <-; reflexivity | ].
      split; [ | split; [ intros H; exfalso; apply H; reflexivity
                        | intros H; exfalso; exact (H rows eq_refl) ] ].
      intros rows' Hrows' _. injection Hrows' as <-.
      intros m Hm Hr Hra.
      pose proof (select_between_In _ _ _ _ _ _ _ _ _ Hf Hm) as Hmd.
      pose proof (Hunread m Hm Hr Hra) as Hmem. split.
      * apply in_map_iff. exists m. rewrite Hmem. auto.
      * intros m' Hm' Hid. apply in_map_iff in Hm' as (m0 & Hm0 & Hin0).
        assert (Hid0 : id m0 = id m).
        { rewrite <- Hid, <- Hm0. destruct (mem (id m0) ids); reflexivity. }
        assert (m0 = m) by (eapply unique_id_eq; eassumption). subst m0.
        rewrite Hmem in Hm0. subst m'. simpl. auto 10.
    + split; [ reflexivity | ]. split; [ apply frame_refl | ].
      split; [ intros rows' Hrows' _; injection Hrows' as <-; reflexivity | ].
      split; [ intros; discriminate | ].
      split; [ reflexivity | intros H; exfalso; exact (H rows eq_refl) ].
    + split; [ reflexivity | ]. split; [ apply frame_refl | ].
      split; [ intros rows' _ H; exfalso; apply H; reflexivity | ].
      split; [ intros; discriminate | ].
      split; [ reflexivity | intros H; exfalso; exact (H rows eq_refl) ].
  - split; [ reflexivity | ]. split; [ apply frame_refl | ].
    split; [ intros rows' Hrows' _; injection Hrows' as <-; reflexivity | ].
    split; [ | split; [ reflexivity | intros H; exfalso; exact (H rows eq_refl) ] ].
    intros rows' Hrows' _. injection Hrows' as <-.
    intros m Hm Hr Hra. exfalso.
    pose proof (Hunread m Hm Hr Hra) as Hmem. apply mem_In in Hmem.
    destruct ids; [ destruct Hmem | simpl in Hlen; discriminate ].
Qed.

End MessageClaims.

(** ** The rate limiter *)

Section RateLimitClaims.
Import RateLimit.

Lemma sweep_lookup (windowStart : Z) (requests : gmap (option string) (list Z))
    (k : option string) :
  sweep windowStart requests !! k =
    match requests !! k with
    | Some ts =>
      if (length (newer windowStart ts) =? 0)%nat then None
      else Some (newer windowStart ts)
    | None => None
    end.
Proof.
  unfold sweep.
  pose (P := fun (r m : gmap (option string) (list Z)) =>
               forall k, r !! k =
                 match m !! k with
                 | Some ts =>
                   if (length (newer windowStart ts) =? 0)%nat then None
                   else Some (newer windowStart ts)
                 | None => requests !! k
                 end).
  assert (H : P (map_fold (sweep_entry windowStart) requests requests) requests).
  { apply (map_fold_weak_ind P).
    - intros j. rewrite lookup_empty. reflexivity.
    - intros i x m r Hi IH j. unfold sweep_entry.
      destruct (decide (i = j)) as [-> | Hne].
      + rewrite lookup_insert_eq.
        destruct (length (newer windowStart x) =? 0)%nat.
        * apply lookup_delete_eq.
        * apply lookup_insert_eq.
      + rewrite (lookup_insert_ne m) by exact Hne. rewrite <- IH.
        destruct (length (newer windowStart x) =? 0)%nat.
        * apply lookup_delete_ne, Hne.
        * apply lookup_insert_ne, Hne. }
  rewrite (H k). destruct (requests !! k); reflexivity.
Qed.

Lemma sweep_record (windowStart : Z) (requests : gmap (option string) (list Z))
    (k : option string) :
  record (sweep windowStart requests) k = newer windowStart (record requests k).
Proof.
  unfold record. rewrite sweep_lookup. destruct (requests !! k) as [ts | ]; simpl.
  - destruct (newer windowStart ts); reflexivity.
  - reflexivity.
Qed.

Lemma newer_app (a : Z) (l l' : list Z) : newer a (l ++ l') = newer a l ++ newer a l'.
Proof. unfold newer. apply filter_app. Qed.

Lemma newer_newer (a b : Z) (l : list Z) : a <= b -> newer b (newer a l) = newer b l.
Proof.
  intros Hab. unfold newer. induction l as [ | x l IH]; [ reflexivity | ].
  rewrite (filter_cons (fun time => a < time)).
  destruct (decide (a < x)) as [Hx | Hx].
  - rewrite !filter_cons. destruct (decide (b < x)); rewrite IH; reflexivity.
  - rewrite IH. rewrite (filter_cons (fun time => b < time)).
    destruct (decide (b < x)); [ lia | reflexivity ].
Qed.

Lemma newer_elem (a t : Z) (l : list Z) : t ∈ newer a l <-> t ∈ l /\ a < t.
Proof. unfold newer. rewrite list_elem_of_filter. tauto. Qed.

Lemma record_insert (requests : gmap (option string) (list Z)) (key k : option string)
    (l : list Z) :
  record (<[ key := l ]> requests) k = if decide (key = k) then l else record requests k.
Proof.
  unfold record. destruct (decide (key = k)) as [-> | Hne].
  - rewrite lookup_insert_eq. reflexivity.
  - rewrite lookup_insert_ne by exact Hne. reflexivity.
Qed.

Lemma times_of_app (key k : option string) (t : Z) (admitted : list (option string * Z)) :
  times_of key (admitted ++ [ (k, t) ])
    = times_of key admitted ++ (if decide (k = key) then [ t ] else []).
Proof.
  unfold times_of. rewrite List.filter_app, List.map_app. simpl.
  destruct (decide (k = key)) as [-> | Hne].
  - rewrite bool_decide_eq_true_2 by reflexivity. reflexivity.
  - rewrite bool_decide_eq_false_2 by exact Hne. reflexivity.
Qed.

(** The state after one request, key by key. *)
Lemma createRateLimit_record windowMs maxRequests requests req now k :
  record (createRateLimit windowMs maxRequests requests req now).1 k
    = newer (now - windowMs) (record requests k)
      ++ match (createRateLimit windowMs maxRequests requests req now).2 with
         | Next => if decide (key_of req = k) then [ now ] else []
         | Respond _ _ _ _ => []
         end.
Proof.
  unfold createRateLimit. fold (record (sweep (now - windowMs) requests) (key_of req)).
  destruct (Z.of_nat (length (record (sweep (now - windowMs) requests) (key_of req)))
            >=? maxRequests); simpl.
  - rewrite sweep_record, app_nil_r. reflexivity.
  - rewrite record_insert. destruct (decide (key_of req = k)) as [-> | Hne].
    + rewrite sweep_record. reflexivity.
    + rewrite sweep_record, app_nil_r. reflexivity.
Qed.

Lemma createRateLimit_outcome windowMs maxRequests requests req now :
  (createRateLimit windowMs maxRequests requests req now).2
    = if Z.of_nat (length (newer (now - windowMs) (record requests (key_of req))))
         >=? maxRequests
      then Respond 429 "Too many requests" "RATE_LIMIT_EXCEEDED" (ceil_seconds windowMs)
      else Next.
Proof.
  unfold createRateLimit. fold (record (sweep (now - windowMs) requests) (key_of req)).
  rewrite sweep_record.
  destruct (Z.of_nat (length (newer (now - windowMs) (record requests (key_of req))))
            >=? maxRequests); reflexivity.
Qed.

(** C8. The middleware is a sliding window per IP address. The key of a
    request is its [ip], or the address of its connection when it has no
    [ip]. A request at [now] is answered 429 exactly when the timestamps
    on record for its key that are strictly newer than [now - windowMs]
    number at least [maxRequests]; otherwise it is passed on, and [now] is
    added to those timestamps as the new record of the key. The records of
    all other keys are only cut to the window, and requests that come with
    different IP addresses never share a key. *)
Theorem rate_limit_sliding_window (windowMs maxRequests : Z)
    (requests : gmap (option string) (list Z)) (req : Request) (now : Z) :
  let key := key_of req in
  let recent := newer (now - windowMs) (record requests key) in
  let requests' := (createRateLimit windowMs maxRequests requests req now).1 in
  let outcome := (createRateLimit windowMs maxRequests requests req now).2 in
  (forall a, ip req = Some a -> a <> "" -> key = Some a) /\
  (Js.truthy (ip req) = false -> key = remoteAddress req) /\
  (forall t, t ∈ recent <-> t ∈ record requests key /\ now - windowMs < t) /\
  (outcome = Respond 429 "Too many requests" "RATE_LIMIT_EXCEEDED" (ceil_seconds windowMs)
     <-> maxRequests <= Z.of_nat (length recent)) /\
  (outcome = Next <-> Z.of_nat (length recent) < maxRequests) /\
  (outcome = Next <-> requests' !! key = Some (recent ++ [ now ])) /\
  (forall k, k <> key -> record requests' k = newer (now - windowMs) (record requests k)) /\
  (forall req', Js.truthy (ip req) = true -> Js.truthy (ip req') = true ->
     ip req' <> ip req -> key_of req' <> key).
Proof.
  intros key recent requests' outcome.
  split.
  { intros a Ha Hne. subst key. unfold key_of. rewrite Ha. simpl.
    destruct (String.eqb_spec a ""); [ contradiction | reflexivity ]. }
  split.
  { intros Hip. subst key. unfold key_of. rewrite Hip. reflexivity. }
  split; [ intros t; apply newer_elem | ].
  assert (Hother : (forall k, k <> key ->
                      record requests' k = newer (now - windowMs) (record requests k)) /\
                   (forall req', Js.truthy (ip req) = true -> Js.truthy (ip req') = true ->
                      ip req' <> ip req -> key_of req' <> key)).
  { split.
    - intros k Hk. subst requests'. rewrite createRateLimit_record.
      destruct (createRateLimit windowMs maxRequests requests req now).2;
        [ | apply app_nil_r ].
      destruct (decide (key_of req = k)) as [E | _]; [ | apply app_nil_r ].
      exfalso. apply Hk. symmetry. exact E.
    - intros req' H1 H2 Hd. subst key. unfold key_of. rewrite H1, H2. exact Hd. }
  assert (Hout := createRateLimit_outcome windowMs maxRequests requests req now).
  fold key recent outcome in Hout.
  assert (Hrec := createRateLimit_record windowMs maxRequests requests req now key).
  fold key recent outcome requests' in Hrec.
  destruct (Z.of_nat (length recent) >=? maxRequests) eqn:E.
  - apply Z.geb_le in E. rewrite Hout. split; [ tauto | ].
    split; [ split; [ discriminate | lia ] | ].
    split; [ | exact Hother ].
    split; [ discriminate | ]. intros Hl. exfalso.
    rewrite Hout, app_nil_r in Hrec. unfold record in Hrec at 1. rewrite Hl in Hrec.
    simpl in Hrec. apply (f_equal length) in Hrec. rewrite length_app in Hrec.
    simpl in Hrec. lia.
  - assert (Hlt : Z.of_nat (length recent) < maxRequests).
    { destruct (Z.geb_spec (Z.of_nat (length recent)) maxRequests); [ discriminate | lia ]. }
    rewrite Hout. split; [ split; [ discriminate | lia ] | ].
    split; [ tauto | ]. split; [ | exact Hother ].
    split; [ intros _ | reflexivity ].
    subst requests'. unfold createRateLimit.
    fold key. fold (record (sweep (now - windowMs) requests) key).
    rewrite sweep_record. fold recent. rewrite E. simpl.
    apply lookup_insert_eq.
Qed.

(** [serve] agrees with the limiter of the specification's words, from
    any state that stands for the admitted history. *)
Lemma serve_by_history (windowMs maxRequests : Z) (rs : list (Request * Z)) :
  forall (requests : gmap (option string) (list Z)) (admitted : list (option string * Z))
         (t0 : Z),
    (forall k now, t0 <= now ->
       newer (now - windowMs) (record requests k)
         = newer (now - windowMs) (times_of k admitted)) ->
    not_before t0 rs ->
    (serve windowMs maxRequests requests rs).2
      = admit_by_history windowMs maxRequests admitted rs.
Proof.
  induction rs as [ | [req now] rest IH]; intros requests admitted t0 Hinv Hchr;
    [ reflexivity | ].
  destruct Hchr as [Hle Hchr]. simpl.
  pose proof (createRateLimit_outcome windowMs maxRequests requests req now) as Hout.
  pose proof (createRateLimit_record windowMs maxRequests requests req now) as Hrec.
  destruct (createRateLimit windowMs maxRequests requests req now) as [requests1 o].
  simpl in Hout, Hrec.
  specialize (IH requests1).
  destruct (serve windowMs maxRequests requests1 rest) as [requests2 os]. simpl in *.
  rewrite (Hinv _ _ Hle) in Hout. subst o.
  destruct (Z.of_nat (length (newer (now - windowMs) (times_of (key_of req) admitted)))
            >=? maxRequests).
  - f_equal. apply (IH admitted now); [ | exact Hchr ].
    intros k now' Hnow'. rewrite Hrec, app_nil_r.
    rewrite newer_newer by lia. apply Hinv. lia.
  - f_equal. apply (IH (admitted ++ [ (key_of req, now) ]) now); [ | exact Hchr ].
    intros k now' Hnow'. rewrite Hrec, times_of_app, !newer_app.
    rewrite newer_newer by lia. rewrite (Hinv k now') by lia. reflexivity.
Qed.

(** C10. A refused request leaves no timestamp behind: after any request
    the record of every key is its old record cut to the window, plus
    [now] under the key of the request when, and only when, the request
    was passed on. Hence over a sequence of requests in time order,
    starting from an empty map, each verdict is the one computed from
    the admitted requests alone: refused requests never count against
    later ones. *)
Theorem refused_requests_leave_no_trace (windowMs maxRequests : Z)
    (requests : gmap (option string) (list Z)) (req : Request) (now : Z)
    (rs : list (Request * Z)) :
  chronological rs ->
  (forall k,
     record (createRateLimit windowMs maxRequests requests req now).1 k
       = newer (now - windowMs) (record requests k)
         ++ match (createRateLimit windowMs maxRequests requests req now).2 with
            | Next => if decide (key_of req = k) then [ now ] else []
            | Respond _ _ _ _ => []
            end) /\
  (serve windowMs maxRequests ∅ rs).2 = admit_by_history windowMs maxRequests [] rs.
Proof.
  intros Hchr. split; [ intros k; apply createRateLimit_record | ].
  destruct rs as [ | [req0 now0] rest]; [ reflexivity | ].
  apply (serve_by_history windowMs maxRequests _ ∅ [] now0).
  - intros k t _. reflexivity.
  - simpl. split; [ lia | exact Hchr ].
Qed.

End RateLimitClaims.

(** ** The controller and the limiter on the sample deployment *)

Section ControllerInstances.
Import Store Messages RateLimit.

Lemma delete_message_by_sender_only_witness :
  NoDup (List.map id (messages Sample.db2)) /\
  "u1" <> "" /\
  (deleteMessage (Some "u1") "m1" NoFault NoFault Sample.db2).2 = reply 200 json_success /\
  messages (deleteMessage (Some "u1") "m1" NoFault NoFault Sample.db2).1 = [ Sample.m2 ].
Proof.
  assert (Hne : "u1" <> "") by discriminate.
  split; [ exact sample_ids_unique | ]. split; [ exact Hne | ].
  destruct (delete_message_by_sender_only Sample.db2 "u1" "m1" NoFault NoFault
              sample_ids_unique Hne) as (Hdel & _ & _).
  assert (Hown : exists m, In m (messages Sample.db2) /\ id m = "m1" /\ sender_id m = "u1").
  { exists Sample.m1. simpl. auto. }
  destruct (Hdel Hown eq_refl eq_refl) as (Hresp & _ & Hmsgs & _).
  split; [ exact Hresp | exact Hmsgs ].
Defined.

(** The other party asking for the same deletion: 404, store unchanged. *)
Example delete_by_receiver :
  deleteMessage (Some "u2") "m1" NoFault NoFault Sample.db2
    = (Sample.db2, reply 404 (json_error "Message not found or unauthorized")).
Proof. reflexivity. Qed.

Lemma sample_uuid_ids_unique : NoDup (List.map id (messages Sample.db3)).
Proof.
  simpl. apply NoDup_cons. split.
  - intros Hin. apply list_elem_of_singleton in Hin. discriminate Hin.
  - apply NoDup_singleton.
Defined.

Lemma sample_dave_named : user_id Sample.dave <> "".
Proof. discriminate. Defined.

Lemma getMessages_marks_page_read_witness :
  NoDup (List.map id (messages Sample.db3)) /\
  user_id Sample.dave <> "" /\
  In {| id := id Sample.m3; sender_id := sender_id Sample.m3;
        receiver_id := receiver_id Sample.m3; text := text Sample.m3;
        image_url := image_url Sample.m3; created_at := created_at Sample.m3;
        read_at := Some 5000 |}
     (messages (getMessages (Some (user_id Sample.dave)) (user_id Sample.carol)
                  (Some 1) (Some 50) NoFault Sample.refuse NoFault 5000 Sample.db3).1).
Proof.
  split; [ exact sample_uuid_ids_unique | ]. split; [ exact sample_dave_named | ].
  destruct (getMessages_marks_page_read (user_id Sample.dave) (user_id Sample.carol)
              (Some 1) (Some 50) NoFault NoFault Sample.refuse 5000 Sample.db3
              sample_uuid_ids_unique sample_dave_named) as (_ & _ & _ & Hstamp & _).
  destruct (Hstamp [ Sample.m4; Sample.m3 ] eq_refl eq_refl Sample.m3) as [Hin _];
    simpl; auto.
Defined.

Example getMessages_sample :
  getMessages (Some (user_id Sample.dave)) (user_id Sample.carol) (Some 1) (Some 50)
    NoFault Sample.refuse NoFault 5000 Sample.db3
    = ({| users := users Sample.db3;
          messages := [ {| id := id Sample.m3; sender_id := sender_id Sample.m3;
                           receiver_id := receiver_id Sample.m3; text := text Sample.m3;
                           image_url := None; created_at := 1000; read_at := Some 5000 |};
                        Sample.m4 ] |},
       reply 200 (json_messages
                    [ view embed_sender_verified Sample.db3 Sample.m3;
                      view embed_sender_verified Sample.db3 Sample.m4 ] false)).
Proof. reflexivity. Qed.

(** The update of [getMessages] failing: the caller gets the page with
    200, the unread message addressed to them in it, and the store still
    has that message unread. *)
Lemma getMessages_update_error_unnoticed :
  (getMessages (Some (user_id Sample.dave)) (user_id Sample.carol) (Some 1) (Some 50)
     NoFault Sample.refuse FaultError 5000 Sample.db3).2
    = reply 200 (json_messages
                   [ view embed_sender_verified Sample.db3 Sample.m3;
                     view embed_sender_verified Sample.db3 Sample.m4 ] false) /\
  receiver_id Sample.m3 = user_id Sample.dave /\
  read_at Sample.m3 = None /\
  (getMessages (Some (user_id Sample.dave)) (user_id Sample.carol) (Some 1) (Some 50)
     NoFault Sample.refuse FaultError 5000 Sample.db3).1 = Sample.db3.
Proof. repeat split; reflexivity. Qed.

(** A pasted [otherUserId] that the service reads as a filter every row
    passes: a third user is handed the messages between the other two. *)
Example getMessages_pasted_filter (other : string) :
  is_uuid other = false ->
  getMessages (Some "7d3c9a10-2b4e-4f6a-8c1d-0e9f8a7b6c5d") other (Some 1) (Some 50)
    NoFault Sample.leak NoFault 5000 Sample.db3
    = (Sample.db3,
       reply 200 (json_messages
                    [ view embed_sender_verified Sample.db3 Sample.m3;
                      view embed_sender_verified Sample.db3 Sample.m4 ] false)).
Proof.
  intros Ho. unfold getMessages. simpl negb. cbv iota. simpl Js.or_empty.
  unfold select_between, plain. rewrite Ho, andb_false_r. reflexivity.
Qed.

(** An id that is not a uuid: the service refuses the filter and the
    handler answers 500. *)
Example getMessages_refused :
  getMessages (Some (user_id Sample.dave)) "u1" (Some 1) (Some 50)
    NoFault Sample.refuse NoFault 5000 Sample.db3
    = (Sample.db3, reply 500 (json_error "Failed to fetch messages")).
Proof. reflexivity. Qed.

(** Two requests a second: the third and fourth request of the burst are
    refused, and the next request after the first has left the window is
    passed on, however many were refused in between. *)
Lemma refused_requests_leave_no_trace_witness :
  chronological [ (Sample.client, 0); (Sample.client, 10); (Sample.client, 20);
                  (Sample.client, 30); (Sample.client, 1005) ] /\
  (serve 1000 2 ∅ [ (Sample.client, 0); (Sample.client, 10); (Sample.client, 20);
                    (Sample.client, 30); (Sample.client, 1005) ]).2
    = [ Next; Next;
        Respond 429 "Too many requests" "RATE_LIMIT_EXCEEDED" 1;
        Respond 429 "Too many requests" "RATE_LIMIT_EXCEEDED" 1;
        Next ].
Proof.
  assert (Hchr : chronological [ (Sample.client, 0); (Sample.client, 10);
                                 (Sample.client, 20); (Sample.client, 30);
                                 (Sample.client, 1005) ])
    by (simpl; lia).
  split; [ exact Hchr | ].
  rewrite (proj2 (refused_requests_leave_no_trace 1000 2 ∅ Sample.client 0 _ Hchr)).
  reflexivity.
Defined.

Example burst_is_throttled :
  (createRateLimit 1000 2 (<[ Some "10.0.0.7" := [ 0; 10 ] ]> ∅) Sample.client 20).2
    = Respond 429 "Too many requests" "RATE_LIMIT_EXCEEDED" 1.
Proof. vm_compute. reflexivity. Qed.

(** At the same moment a client at another address is passed on, and is
    counted under its own address. *)
Example other_address_not_throttled :
  (createRateLimit 1000 2 (<[ Some "10.0.0.7" := [ 0; 10 ] ]> ∅) Sample.client2 20).2
    = Next /\
  record (createRateLimit 1000 2 (<[ Some "10.0.0.7" := [ 0; 10 ] ]> ∅) Sample.client2 20).1
         (Some "10.0.0.8") = [ 20 ] /\
  record (createRateLimit 1000 2 (<[ Some "10.0.0.7" := [ 0; 10 ] ]> ∅) Sample.client2 20).1
         (Some "10.0.0.7") = [ 0; 10 ].
Proof. vm_compute. repeat split; reflexivity. Qed.

(** The time order matters: were [Date.now()] to step back, the sweep
    done at a later reading has already dropped timestamps that the
    earlier reading would count. *)
Example clock_stepping_back :
  (serve 10 2 ∅ [ (Sample.client, 0); (Sample.client, 100); (Sample.client, 5) ]).2
    = [ Next; Next; Next ] /\
  admit_by_history 10 2 [] [ (Sample.client, 0); (Sample.client, 100); (Sample.client, 5) ]
    = [ Next; Next; Respond 429 "Too many requests" "RATE_LIMIT_EXCEEDED" 1 ].
Proof. split; vm_compute; reflexivity. Qed.

End ControllerInstances.

(** * Further properties of the code *)

(** ** The relay beyond the forwarding rules *)

Section RelayExtras.
Import Store Relay.

Variable jwt_verify : string -> option string.
Variable schema : Schema.

Local Abbreviation step := (Relay.step jwt_verify schema).
Local Abbreviation run := (Relay.run jwt_verify schema).

(** X1. The relay writes to the store in one place only. Whatever the
    input, the users table is untouched, and the messages table is either
    untouched or grew by the one row of a [send_message] whose sender is
    the identity the middleware attached to the socket: the payload cannot
    name another sender. *)
Theorem relay_store_frame (srv : Server) (i : Input) :
  users (db (step srv i).1) = users (db srv) /\
  (messages (db (step srv i).1) = messages (db srv) \/
   exists sid sock r t img env,
     i = Receive sid (send_message r t img) env /\
     sockets srv !! sid = Some sock /\
     messages (db (step srv i).1)
       = messages (db srv) ++ [ new_row env (userId sock) r t (Js.or_null img) ]).
Proof.
  destruct i as [sid token f | sid ev env | sid]; simpl.
  - destruct (sockets srv !! sid); [ auto | ].
    destruct (io_use jwt_verify srv token f); simpl; auto.
  - destruct (sockets srv !! sid) as [sock | ] eqn:Hs; [ | auto ].
    destruct ev as [ | r t img | | | | | | | ]; simpl; auto.
    unfold Relay.on_send_message.
    destruct (insert_message _ _ _ _ _ _ _ _) as [[db' v] | | ] eqn:Hins; simpl; auto.
    apply insert_message_Data in Hins as (_ & _ & -> & _). simpl.
    split; [ reflexivity | ]. right. exists sid, sock, r, t, img, env. auto.
  - auto.
Qed.

(** X2. Joining a conversation twice is joining it once: the second
    identical [join_conversation] leaves the server exactly as the first
    left it, and emits nothing. *)
Theorem join_conversation_idempotent (srv : Server) (sid other : string)
    (env env' : InsertEnv) :
  let once := step srv (Receive sid (join_conversation other) env) in
  step once.1 (Receive sid (join_conversation other) env') = (once.1, []).
Proof.
  simpl. destruct (sockets srv !! sid) as [sock | ] eqn:Hs; simpl.
  - rewrite lookup_insert_eq. simpl. unfold socket_join. simpl.
    rewrite insert_insert_eq. do 4 f_equal. rewrite <- (assoc_L (∪)), (idemp_L (∪)). reflexivity.
  - rewrite Hs. reflexivity.
Qed.


Lemma filter_user_ids (d : DB) (uid : string) :
  List.map user_id (List.filter (fun u => String.eqb (user_id u) uid) (users d))
    = repeat uid (length (List.filter (fun u => String.eqb (user_id u) uid) (users d))).
Proof.
  induction (users d) as [ | u us IH]; [ reflexivity | ]. simpl.
  destruct (String.eqb (user_id u) uid) eqn:E; [ | exact IH ].
  apply String.eqb_eq in E. simpl. rewrite IH, E. reflexivity.
Qed.

(** X4. A handshake on a fresh socket id is accepted for user [uid]
    exactly when the token is present and not empty, verifies to [uid], the
    look-up answers, and the users table has exactly one row with that id.
    The accepted socket then sits in the personal room of [uid] and in no
    other room. *)
Theorem handshake_accepted_iff (srv : Server) (sid : string) (token : option string)
    (f : Fault) (uid : string) :
  sockets srv !! sid = None ->
  (step srv (Connect sid token f)
     = ({| sockets := <[ sid := {| userId := uid; rooms := {[ user_room uid ]} |} ]> (sockets srv);
           db := db srv |}, [])
   <-> Js.truthy token = true /\ jwt_verify (Js.or_empty token) = Some uid /\ f = NoFault /\
       length (List.filter (fun u => String.eqb (user_id u) uid) (users (db srv))) = 1%nat) /\
  (forall room,
     sid ∈ members (<[ sid := {| userId := uid; rooms := {[ user_room uid ]} |} ]> (sockets srv)) room
     <-> room = user_room uid).
Proof.
  intros Habs. split.
  - simpl. rewrite Habs. unfold io_use, select_user_id.
    destruct (Js.truthy token); simpl.
    2:{ split; [ discriminate | intros [H _]; discriminate ]. }
    destruct (jwt_verify (Js.or_empty token)) as [uid' | ].
    2:{ split; [ discriminate | intros (_ & H & _); discriminate ]. }
    rewrite (filter_user_ids (db srv) uid').
    destruct f; simpl.
    2:{ split; [ discriminate | intros (_ & _ & H & _); discriminate ]. }
    2:{ split; [ discriminate | intros (_ & _ & H & _); discriminate ]. }
    destruct (length (List.filter (fun u => String.eqb (user_id u) uid') (users (db srv))))
      as [ | [ | n]] eqn:Hlen; simpl.
    + split; [ discriminate | ]. intros (_ & H & _ & Hl).
      injection H as ->. rewrite Hlen in Hl. discriminate.
    + unfold on_connection. split.
      * intros H. injection H as H.
        apply (f_equal (fun m => userId <$> (m !! sid))) in H.
        rewrite !lookup_insert_eq in H. simpl in H. injection H as ->.
        rewrite Hlen. auto.
      * intros (_ & H & _). injection H as ->. reflexivity.
    + split; [ discriminate | ]. intros (_ & H & _ & Hl).
      injection H as ->. rewrite Hlen in Hl. discriminate.
  - intros room. rewrite elem_of_members. split.
    + intros (s & Hs & Hin). rewrite lookup_insert_eq in Hs. injection Hs as <-.
      simpl in Hin. apply elem_of_singleton in Hin. exact Hin.
    + intros ->. eexists. rewrite lookup_insert_eq. split; [ reflexivity | ].
      simpl. apply elem_of_singleton. reflexivity.
Qed.

(** X5. Call signalling is pure forwarding. Each of [call_user],
    [answer_call], [reject_call], [end_call] and [ice_candidate] leaves
    the server as it was and makes one emit, to the personal room of the
    user named in the payload less the emitting socket; an incoming call
    carries the identity of the caller's socket, not one taken from the
    payload. Those receivers are the sockets of the named user other than
    the emitting one. *)
Theorem call_signalling_forwarded (srv : Server) (sid : string) (sock : Socket) :
  rooms_ok srv ->
  sockets srv !! sid = Some sock ->
  let to uid e :=
    (srv, [ Emit {| origin := sid; target := socket_to sid (user_room uid); event := e;
                    receivers := members (sockets srv) (user_room uid) ∖ {[ sid ]} |} ]) in
  (forall callee offer kind env,
     step srv (Receive sid (call_user callee offer kind) env)
       = to callee (incoming_call (userId sock) offer kind)) /\
  (forall caller answer env,
     step srv (Receive sid (answer_call caller answer) env) = to caller (call_answered answer)) /\
  (forall caller env,
     step srv (Receive sid (reject_call caller) env) = to caller call_rejected) /\
  (forall other env,
     step srv (Receive sid (end_call other) env) = to other call_ended) /\
  (forall other candidate env,
     step srv (Receive sid (ice_candidate other candidate) env)
       = to other (ice_candidate_to candidate)) /\
  (forall uid x,
     x ∈ members (sockets srv) (user_room uid) ∖ {[ sid ]}
     <-> x <> sid /\ exists sock', sockets srv !! x = Some sock' /\ userId sock' = uid).
Proof.
  intros Hok Hs. simpl. rewrite Hs. simpl.
  repeat (split; [ reflexivity | ]).
  intros uid x. rewrite elem_of_difference, (personal_room_members srv uid x Hok).
  rewrite elem_of_singleton. tauto.
Qed.

(** A socket keeps its identity and its rooms through every step other
    than its own disconnect. *)
Lemma socket_kept_step (srv : Server) (i : Input) (sid : string) (sock : Socket) :
  sockets srv !! sid = Some sock ->
  is_disconnect i && String.eqb (input_sid i) sid = false ->
  exists sock', sockets (step srv i).1 !! sid = Some sock' /\
                userId sock' = userId sock /\ rooms sock ⊆ rooms sock'.
Proof.
  intros Hs Hi. destruct i as [sid' token f | sid' ev env | sid']; simpl in *.
  - destruct (sockets srv !! sid') eqn:Hs'; simpl; [ exists sock; auto | ].
    assert (sid' <> sid) by congruence.
    destruct (io_use jwt_verify srv token f); simpl.
    + exists sock. rewrite lookup_insert_ne by assumption. auto.
    + exists sock. auto.
  - destruct (sockets srv !! sid') as [sock0 | ] eqn:Hs'; simpl; [ | exists sock; auto ].
    destruct (handle_sockets schema srv sid' sock0 ev env) as [-> | (room & _ & ->)];
      [ exists sock; auto | ].
    destruct (decide (sid' = sid)) as [-> | Hne].
    + rewrite Hs in Hs'. injection Hs' as <-. eexists. rewrite lookup_insert_eq.
      split; [ reflexivity | ]. simpl. split; [ reflexivity | set_solver ].
    + exists sock. rewrite lookup_insert_ne by exact Hne. auto.
  - apply String.eqb_neq in Hi. exists sock.
    rewrite lookup_delete_ne by exact Hi. auto.
Qed.

(** X6. The identity of a socket is fixed at its handshake. Over any
    sequence of inputs that does not disconnect it, the socket stays
    connected under the same user, and the rooms it is in only grow: no
    event of its own or of anyone else changes who it is or takes it out
    of a room. *)
Theorem socket_identity_stable (inputs : list Input) :
  forall (srv : Server) (sid : string) (sock : Socket),
    sockets srv !! sid = Some sock ->
    forallb (fun i => negb (is_disconnect i && String.eqb (input_sid i) sid)) inputs = true ->
    exists sock', sockets (run srv inputs).1 !! sid = Some sock' /\
                  userId sock' = userId sock /\ rooms sock ⊆ rooms sock'.
Proof.
  induction inputs as [ | i rest IH]; intros srv sid sock Hs Hno.
  - exists sock. auto.
  - simpl in Hno. apply andb_true_iff in Hno as [Hi Hno]. apply negb_true_iff in Hi.
    rewrite run_cons. simpl.
    destruct (socket_kept_step srv i sid sock Hs Hi) as (sock1 & Hs1 & Hu1 & Hr1).
    destruct (IH _ _ _ Hs1 Hno) as (sock2 & Hs2 & Hu2 & Hr2).
    exists sock2. split; [ exact Hs2 | ]. split; [ congruence | set_solver ].
Qed.

(** X7. In every server state reached from an empty socket table, the
    personal room of a user holds the sockets authenticated as that user
    and no other: what is sent to [user:<uid>] is seen by [uid] only, on
    all of their connections. *)
Theorem personal_room_is_private (d : DB) (inputs : list Input) (uid x : string) :
  x ∈ members (sockets (run (init d) inputs).1) (user_room uid)
  <-> exists sock, sockets (run (init d) inputs).1 !! x = Some sock /\ userId sock = uid.
Proof.
  apply personal_room_members, rooms_ok_run, rooms_ok_init.
Qed.

(** Splitting a key at its delimiter, from the left and from the right. *)
Lemma key_split_left (s1 s2 t1 t2 : string) :
  colon_free s1 = true -> colon_free s2 = true ->
  s1 +:+ String ":" t1 = s2 +:+ String ":" t2 -> s1 = s2 /\ t1 = t2.
Proof.
  revert s2. induction s1 as [ | c s1 IH]; intros [ | c2 s2] H1 H2 E.
  - change (String ":" t1 = String ":" t2) in E. injection E as ->. auto.
  - change (String ":" t1 = String c2 (s2 +:+ String ":" t2)) in E.
    injection E as <- _. simpl in H2. discriminate.
  - change (String c (s1 +:+ String ":" t1) = String ":" t2) in E.
    injection E as -> _. simpl in H1. discriminate.
  - change (String c (s1 +:+ String ":" t1) = String c2 (s2 +:+ String ":" t2)) in E.
    simpl in H1, H2.
    apply andb_true_iff in H1 as [_ H1]. apply andb_true_iff in H2 as [_ H2].
    injection E as -> E. destruct (IH _ H1 H2 E) as [-> ->]. auto.
Qed.

Lemma colon_free_app (s t : string) : colon_free (s +:+ String ":" t) = false.
Proof.
  induction s as [ | c s IH].
  - reflexivity.
  - change (negb (Ascii.eqb c ":") && colon_free (s +:+ String ":" t) = false).
    rewrite IH. apply andb_false_r.
Qed.

Lemma key_split_right (s1 s2 t1 t2 : string) :
  colon_free t1 = true -> colon_free t2 = true ->
  s1 +:+ String ":" t1 = s2 +:+ String ":" t2 -> s1 = s2 /\ t1 = t2.
Proof.
  intros H1 H2. revert s2. induction s1 as [ | c s1 IH]; intros [ | c2 s2] E.
  - change (String ":" t1 = String ":" t2) in E. injection E as ->. auto.
  - change (String ":" t1 = String c2 (s2 +:+ String ":" t2)) in E.
    injection E as _ E. rewrite E, colon_free_app in H1. discriminate.
  - change (String c (s1 +:+ String ":" t1) = String ":" t2) in E.
    injection E as _ E. rewrite <- E, colon_free_app in H2. discriminate.
  - change (String c (s1 +:+ String ":" t1) = String c2 (s2 +:+ String ":" t2)) in E.
    injection E as -> E. destruct (IH _ E) as [-> ->]. auto.
Qed.

Lemma conversation_room_inj (c c' : string) :
  conversation_room c = conversation_room c' -> c = c'.
Proof. unfold conversation_room. simpl. intros H. injection H. trivial. Qed.

Lemma conversationId_cases (a b : string) :
  conversationId a b = a +:+ String ":" b \/ conversationId a b = b +:+ String ":" a.
Proof.
  unfold conversationId. rewrite sort_pair. destruct (String.leb a b); auto.
Qed.

Lemma rooms_exact_step (srv : Server) (i : Input) :
  rooms_exact srv -> rooms_exact (step srv i).1.
Proof.
  unfold rooms_exact. intros Hok. destruct i as [sid token f | sid ev env | sid]; simpl.
  - destruct (sockets srv !! sid) eqn:Hs; [ exact Hok | ].
    destruct (io_use jwt_verify srv token f); simpl; [ | exact Hok ].
    apply map_Forall_insert_2; [ | exact Hok ].
    intros r Hr. simpl in *. apply elem_of_singleton in Hr. left. exact Hr.
  - destruct (sockets srv !! sid) as [sock | ] eqn:Hs; [ | exact Hok ].
    destruct ev as [ other | r t img | | | | | | | ]; simpl; try exact Hok.
    + apply map_Forall_insert_2; [ | exact Hok ].
      intros r Hr. simpl in *. apply elem_of_union in Hr as [Hr | Hr].
      * apply (Hok _ _ Hs), Hr.
      * apply elem_of_singleton in Hr. right. exists other. exact Hr.
    + rewrite on_send_message_sockets. exact Hok.
  - apply map_Forall_delete. exact Hok.
Qed.

Lemma rooms_exact_run (inputs : list Input) :
  forall srv, rooms_exact srv -> rooms_exact (run srv inputs).1.
Proof.
  induction inputs as [ | i rest IH]; intros srv Hok; [ exact Hok | ].
  rewrite run_cons. simpl. apply IH, rooms_exact_step, Hok.
Qed.

(** X8. A conversation room is closed to third parties. In every server
    state reached from an empty socket table, with identities that do not
    contain the delimiter ":", a socket that is in the room of the
    conversation between [a] and [b] belongs to [a] or to [b], whatever
    counterparts the other users named in their join requests. *)
Theorem conversation_room_is_private (d : DB) (inputs : list Input) (a b x : string)
    (sock : Socket) :
  colon_free a = true -> colon_free b = true ->
  sockets (run (init d) inputs).1 !! x = Some sock ->
  colon_free (userId sock) = true ->
  conversation_room (conversationId a b) ∈ rooms sock ->
  userId sock = a \/ userId sock = b.
Proof.
  intros Ha Hb Hx Hc Hin.
  assert (Hex : rooms_exact (run (init d) inputs).1).
  { apply rooms_exact_run. unfold rooms_exact, init. simpl. apply map_Forall_empty. }
  destruct (Hex _ _ Hx _ Hin) as [Hp | (other & Hr)].
  - exfalso.
    exact (user_room_not_conversation (userId sock) _ (conversation_room_prefix _) Hp).
  - apply conversation_room_inj in Hr.
    destruct (conversationId_cases a b) as [Eab | Eab];
      destruct (conversationId_cases (userId sock) other) as [Ec | Ec];
      rewrite Eab, Ec in Hr; symmetry in Hr.
    + left. apply (key_split_left _ _ _ _ Hc Ha Hr).
    + right. apply (key_split_right _ _ _ _ Hc Hb Hr).
    + right. apply (key_split_left _ _ _ _ Hc Hb Hr).
    + left. apply (key_split_right _ _ _ _ Hc Ha Hr).
Qed.

Lemma insert_keeps_ids_unique sch env e d s r t img d' v :
  insert_message sch env e d s r t img = Data (d', v) ->
  NoDup (List.map id (messages d)) -> NoDup (List.map id (messages d')).
Proof.
  intros Hins Hnd. apply insert_message_Data in Hins as (_ & Hallow & -> & _).
  simpl. rewrite List.map_app. simpl. apply NoDup_app. split; [ exact Hnd | ].
  split; [ | apply NoDup_singleton ].
  intros y Hy Hy'. apply list_elem_of_singleton in Hy'. subst y.
  unfold insert_allowed in Hallow. repeat (apply andb_true_iff in Hallow as [Hallow _]).
  apply negb_true_iff in Hallow. unfold has_message in Hallow. simpl in Hallow.
  apply list_elem_of_In, in_map_iff in Hy as (m & Hid & Hm).
  assert (Hex : existsb (fun m0 => String.eqb (id m0) (fresh_id env)) (messages d) = true).
  { apply existsb_exists. exists m. split; [ exact Hm | ]. apply String.eqb_eq, Hid. }
  congruence.
Qed.

(** X9. The relay keeps message ids unique: if no two rows of the store
    share an id before a run of the server, none do after it, whatever ids
    the store's generator comes up with (a new row whose id is taken is
    refused and reported as [message_error]). *)
Theorem relay_keeps_ids_unique (inputs : list Input) :
  forall srv : Server,
    NoDup (List.map id (messages (db srv))) ->
    NoDup (List.map id (messages (db (run srv inputs).1))).
Proof.
  induction inputs as [ | i rest IH]; intros srv Hnd; [ exact Hnd | ].
  rewrite run_cons. simpl. apply IH.
  destruct i as [sid token f | sid ev env | sid]; simpl.
  - destruct (sockets srv !! sid); [ exact Hnd | ].
    destruct (io_use jwt_verify srv token f); exact Hnd.
  - destruct (sockets srv !! sid) as [sock | ]; [ | exact Hnd ].
    destruct ev as [ other | r t img | | | | | | | ]; simpl; try exact Hnd.
    unfold Relay.on_send_message.
    destruct (insert_message _ _ _ _ _ _ _ _) as [[db' v] | | ] eqn:Hins; simpl;
      try exact Hnd.
    eapply insert_keeps_ids_unique; eassumption.
  - exact Hnd.
Qed.

End RelayExtras.

(** ** Conversations and read state *)

Section InboxExtras.
Import Store Messages Inbox.

Lemma map_get_app (k o : string) (c : Conversation) (cm : list (string * Conversation)) :
  map_get k (cm ++ [ (o, c) ])
    = match map_get k cm with
      | Some x => Some x
      | None => if String.eqb o k then Some c else None
      end.
Proof.
  unfold map_get. induction cm as [ | e cm IH]; simpl.
  - destruct (String.eqb o k); reflexivity.
  - destruct (String.eqb e.1 k); [ reflexivity | exact IH ].
Qed.

Lemma map_get_bump (k o : string) (cm : list (string * Conversation)) :
  map_get k (bump o cm)
    = if String.eqb k o
      then option_map (fun c => {| user := user c; lastMessage := lastMessage c;
                                   unreadCount := unreadCount c + 1 |}) (map_get k cm)
      else map_get k cm.
Proof.
  unfold map_get, bump. induction cm as [ | e cm IH]; simpl.
  - destruct (String.eqb k o); reflexivity.
  - destruct (String.eqb e.1 o) eqn:Eo; simpl.
    + apply String.eqb_eq in Eo. destruct (String.eqb e.1 k) eqn:Ek; simpl.
      * apply String.eqb_eq in Ek. rewrite <- Ek, Eo, String.eqb_refl. reflexivity.
      * exact IH.
    + destruct (String.eqb e.1 k) eqn:Ek; simpl; [ | exact IH ].
      apply String.eqb_eq in Ek. rewrite <- Ek, Eo. reflexivity.
Qed.

Lemma map_has_get (k : string) (cm : list (string * Conversation)) :
  map_has k cm = match map_get k cm with Some _ => true | None => false end.
Proof.
  unfold map_has, map_get. induction cm as [ | e cm IH]; simpl; [ reflexivity | ].
  destruct (String.eqb e.1 k); simpl; [ reflexivity | exact IH ].
Qed.

Lemma bump_keys (o : string) (cm : list (string * Conversation)) :
  List.map fst (bump o cm) = List.map fst cm.
Proof.
  unfold bump. induction cm as [ | e cm IH]; simpl; [ reflexivity | ].
  rewrite IH. destruct (String.eqb e.1 o); reflexivity.
Qed.

Lemma map_has_keys (k : string) (cm : list (string * Conversation)) :
  map_has k cm = true <-> In k (List.map fst cm).
Proof.
  unfold map_has. rewrite existsb_exists, in_map_iff. split.
  - intros (e & He & E). apply String.eqb_eq in E. eauto.
  - intros (e & E & He). exists e. split; [ exact He | ]. apply String.eqb_eq, E.
Qed.

Lemma visit_keys (uid : string) (cm : list (string * Conversation)) (v : MessageView) :
  List.map fst (visit uid cm v)
    = List.map fst cm
      ++ (if map_has (otherUserId uid (row v)) cm then [] else [ otherUserId uid (row v) ]).
Proof.
  unfold visit. destruct (map_has (otherUserId uid (row v)) cm);
    destruct (unread_of uid (row v)); rewrite ?bump_keys, ?List.map_app, ?app_nil_r;
    reflexivity.
Qed.

Lemma conversationMap_snoc (uid : string) (vs : list MessageView) (v : MessageView) :
  conversationMap uid (vs ++ [ v ]) = visit uid (conversationMap uid vs) v.
Proof. unfold conversationMap. rewrite fold_left_app. reflexivity. Qed.

Lemma conversationMap_keys_unique (uid : string) (vs : list MessageView) :
  NoDup (List.map fst (conversationMap uid vs)).
Proof.
  induction vs as [ | v vs IH] using rev_ind; [ apply NoDup_nil_2 | ].
  rewrite conversationMap_snoc, visit_keys.
  destruct (map_has _ _) eqn:E; [ rewrite app_nil_r; exact IH | ].
  apply NoDup_app. split; [ exact IH | ]. split; [ | apply NoDup_singleton ].
  intros k Hk Hk'. apply list_elem_of_singleton in Hk'. subst k.
  apply list_elem_of_In, map_has_keys in Hk. congruence.
Qed.

Lemma find_snoc {A : Type} (f : A -> bool) (l : list A) (x : A) :
  List.find f (l ++ [ x ])
    = match List.find f l with
      | Some y => Some y
      | None => if f x then Some x else None
      end.
Proof.
  induction l as [ | y l IH]; simpl; [ reflexivity | ].
  destruct (f y); [ reflexivity | exact IH ].
Qed.

Lemma find_none_filter {A : Type} (f g : A -> bool) (l : list A) :
  List.find f l = None -> List.filter (fun x => f x && g x) l = [].
Proof.
  induction l as [ | y l IH]; simpl; [ reflexivity | ].
  destruct (f y); [ discriminate | simpl; exact IH ].
Qed.

(** What [conversationMap] holds for a partner is the entry computed from
    the fetched messages. *)
Lemma conversationMap_get (uid k : string) (vs : list MessageView) :
  map_get k (conversationMap uid vs) = entry_for uid k vs.
Proof.
  induction vs as [ | v vs IH] using rev_ind; [ reflexivity | ].
  rewrite conversationMap_snoc. unfold visit, entry_for.
  rewrite find_snoc, List.filter_app, length_app. simpl.
  set (o := otherUserId uid (row v)).
  set (cm := conversationMap uid vs) in *.
  assert (Hhas := map_has_get o cm).
  unfold with_partner at 2 4. fold o.
  unfold entry_for in IH.
  destruct (String.eqb o k) eqn:Eok.
  - apply String.eqb_eq in Eok. subst k.
    destruct (List.find (with_partner uid o) vs) as [v0 | ] eqn:Hfind.
    + rewrite IH in Hhas. rewrite Hhas.
      destruct (unread_of uid (row v)); simpl.
      * rewrite map_get_bump, String.eqb_refl, IH. simpl. f_equal. f_equal. lia.
      * rewrite IH. f_equal. f_equal. lia.
    + rewrite IH in Hhas. rewrite Hhas.
      rewrite (find_none_filter _ (fun v => unread_of uid (row v)) _ Hfind) in *.
      destruct (unread_of uid (row v)); simpl.
      * rewrite map_get_bump, String.eqb_refl, map_get_app, IH, String.eqb_refl.
        reflexivity.
      * rewrite map_get_app, IH, String.eqb_refl. reflexivity.
  - assert (Eko : String.eqb k o = false).
    { apply String.eqb_neq. apply String.eqb_neq in Eok. congruence. }
    assert (Hstep : map_get k (if map_has o cm then cm
                               else cm ++ [ (o, {| user := otherUser uid v; lastMessage := v;
                                                   unreadCount := 0 |}) ])
                    = map_get k cm).
    { destruct (map_has o cm); [ reflexivity | ].
      rewrite map_get_app, Eok. destruct (map_get k cm); reflexivity. }
    simpl. rewrite Nat.add_0_r.
    destruct (unread_of uid (row v)); rewrite ?map_get_bump, ?Eko, Hstep, IH;
      destruct (List.find (with_partner uid k) vs); reflexivity.
Qed.

Lemma row_view (e : Embed) (d : DB) (m : Message) : row (view e d m) = m.
Proof. destruct e; reflexivity. Qed.

Lemma filter_views_length (P : Message -> bool) (e : Embed) (d : DB) (ms : list Message) :
  length (List.filter (fun v => P (row v)) (List.map (view e d) ms))
    = length (List.filter P ms).
Proof.
  induction ms as [ | m ms IH]; [ reflexivity | ]. simpl. rewrite row_view.
  destruct (P m); simpl; rewrite IH; reflexivity.
Qed.

Lemma insert_desc_filter_length (P : Message -> bool) (m : Message) (l : list Message) :
  length (List.filter P (insert_desc m l)) = length (List.filter P (m :: l)).
Proof.
  induction l as [ | y l IH]; [ reflexivity | ]. simpl in *.
  destruct (created_at y <=? created_at m); [ reflexivity | ]. simpl.
  destruct (P y), (P m); simpl in *; lia.
Qed.

Lemma order_desc_filter_length (P : Message -> bool) (l : list Message) :
  length (List.filter P (order_desc l)) = length (List.filter P l).
Proof.
  unfold order_desc. induction l as [ | m l IH]; [ reflexivity | ]. simpl.
  rewrite insert_desc_filter_length. simpl. destruct (P m); simpl; rewrite IH; reflexivity.
Qed.

Lemma filter_filter_length {A : Type} (P Q : A -> bool) (l : list A) :
  (forall x, P x = true -> Q x = true) ->
  length (List.filter P (List.filter Q l)) = length (List.filter P l).
Proof.
  intros H. induction l as [ | x l IH]; [ reflexivity | ]. simpl.
  destruct (Q x) eqn:EQ; simpl.
  - destruct (P x); simpl; rewrite IH; reflexivity.
  - destruct (P x) eqn:EP; [ rewrite (H x EP) in EQ; discriminate | exact IH ].
Qed.

Lemma insert_desc_sorted (m : Message) (l : list Message) :
  StronglySorted newest_first l -> StronglySorted newest_first (insert_desc m l).
Proof.
  induction l as [ | y l IH]; intros Hs; simpl.
  - constructor; constructor.
  - apply StronglySorted_inv in Hs as [Hs Hy].
    destruct (created_at y <=? created_at m) eqn:E.
    + apply Z.leb_le in E. constructor; [ constructor; assumption | ].
      constructor; [ exact E | ].
      eapply Forall_impl; [ exact Hy | ]. unfold newest_first. intros z Hz. lia.
    + apply Z.leb_gt in E. constructor; [ apply IH, Hs | ].
      apply Forall_forall. intros z Hz. apply list_elem_of_In, insert_desc_In in Hz.
      destruct Hz as [-> | Hz].
      * unfold newest_first. lia.
      * rewrite Forall_forall in Hy. apply Hy, list_elem_of_In, Hz.
Qed.

Lemma order_desc_sorted (l : list Message) : StronglySorted newest_first (order_desc l).
Proof.
  unfold order_desc. induction l as [ | m l IH]; simpl; [ constructor | ].
  apply insert_desc_sorted, IH.
Qed.

(** In a list that is newest first, the first message that passes a test
    is the newest that passes it. *)
Lemma find_newest (f : Message -> bool) (l : list Message) (m0 m : Message) :
  StronglySorted newest_first l ->
  List.find f l = Some m0 -> In m l -> f m = true -> created_at m <= created_at m0.
Proof.
  induction l as [ | y l IH]; intros Hs Hfind Hin Hf; [ destruct Hin | ].
  apply StronglySorted_inv in Hs as [Hs Hy]. simpl in Hfind.
  destruct (f y) eqn:Ey.
  - injection Hfind as <-. destruct Hin as [-> | Hin]; [ lia | ].
    rewrite Forall_forall in Hy. apply (Hy m), list_elem_of_In, Hin.
  - destruct Hin as [-> | Hin]; [ congruence | ]. apply IH; assumption.
Qed.

Lemma find_views (f : Message -> bool) (e : Embed) (d : DB) (ms : list Message) :
  List.find (fun v => f (row v)) (List.map (view e d) ms)
    = option_map (view e d) (List.find f ms).
Proof.
  induction ms as [ | m ms IH]; [ reflexivity | ]. simpl. rewrite row_view.
  destruct (f m); [ reflexivity | exact IH ].
Qed.

Lemma find_exists {A : Type} (f : A -> bool) (l : list A) (x : A) :
  In x l -> f x = true -> exists y, List.find f l = Some y.
Proof.
  induction l as [ | z l IH]; intros Hin Hf; [ destruct Hin | ]. simpl.
  destruct (f z) eqn:Ez; [ eauto | ].
  destruct Hin as [-> | Hin]; [ congruence | ]. apply IH; assumption.
Qed.

Lemma map_get_of_entry (k : string) (c : Conversation) (cm : list (string * Conversation)) :
  NoDup (List.map fst cm) -> In (k, c) cm -> map_get k cm = Some c.
Proof.
  unfold map_get. induction cm as [ | e cm IH]; intros Hnd Hin; [ destruct Hin | ].
  simpl in Hnd. apply NoDup_cons in Hnd as [He Hnd]. simpl.
  destruct Hin as [-> | Hin].
  - simpl. rewrite String.eqb_refl. reflexivity.
  - destruct (String.eqb e.1 k) eqn:E.
    + exfalso. apply He. apply String.eqb_eq in E. rewrite E.
      apply list_elem_of_In. apply (in_map fst _ _ Hin).
    + apply IH; assumption.
Qed.

Lemma map_get_entry (k : string) (c : Conversation) (cm : list (string * Conversation)) :
  map_get k cm = Some c -> In (k, c) cm.
Proof.
  unfold map_get. destruct (List.find (fun e => String.eqb e.1 k) cm) as [e | ] eqn:Hf;
    [ | discriminate ].
  simpl. intros H. injection H as <-. apply find_some in Hf as [Hin E].
  apply String.eqb_eq in E. subst k. destruct e. exact Hin.
Qed.

Lemma insert_conversation_perm (c : Conversation) (l : list Conversation) :
  Permutation (insert_conversation c l) (c :: l).
Proof.
  induction l as [ | y l IH]; simpl; [ reflexivity | ].
  destruct (_ <=? _); [ reflexivity | ].
  rewrite IH. apply perm_swap.
Qed.

Lemma sort_conversations_perm (l : list Conversation) :
  Permutation (sort_conversations l) l.
Proof.
  unfold sort_conversations. induction l as [ | c l IH]; simpl; [ reflexivity | ].
  rewrite insert_conversation_perm. constructor. exact IH.
Qed.

Lemma insert_conversation_sorted (c : Conversation) (l : list Conversation) :
  StronglySorted latest_first l -> StronglySorted latest_first (insert_conversation c l).
Proof.
  induction l as [ | y l IH]; intros Hs; simpl.
  - constructor; constructor.
  - apply StronglySorted_inv in Hs as [Hs Hy].
    destruct (_ <=? _) eqn:E.
    + apply Z.leb_le in E. constructor; [ constructor; assumption | ].
      constructor; [ exact E | ].
      eapply Forall_impl; [ exact Hy | ]. unfold latest_first. intros z Hz. lia.
    + apply Z.leb_gt in E. constructor; [ apply IH, Hs | ].
      apply Forall_forall. intros z Hz. apply list_elem_of_In in Hz.
      apply (Permutation_in _ (insert_conversation_perm c l)) in Hz.
      destruct Hz as [<- | Hz].
      * unfold latest_first. lia.
      * rewrite Forall_forall in Hy. apply Hy, list_elem_of_In, Hz.
Qed.

Lemma sort_conversations_sorted (l : list Conversation) :
  StronglySorted latest_first (sort_conversations l).
Proof.
  unfold sort_conversations. induction l as [ | c l IH]; simpl; [ constructor | ].
  apply insert_conversation_sorted, IH.
Qed.

Lemma total_unread_perm (l l' : list Conversation) :
  Permutation l l' -> total_unread l = total_unread l'.
Proof.
  unfold total_unread. induction 1; simpl; lia.
Qed.

Lemma total_unread_app (l l' : list Conversation) :
  total_unread (l ++ l') = total_unread l + total_unread l'.
Proof.
  unfold total_unread. induction l as [ | c l IH]; simpl; lia.
Qed.

Lemma total_unread_bump (o : string) (cm : list (string * Conversation)) :
  NoDup (List.map fst cm) -> In o (List.map fst cm) ->
  total_unread (List.map snd (bump o cm)) = total_unread (List.map snd cm) + 1.
Proof.
  unfold bump. induction cm as [ | e cm IH]; intros Hnd Hin; [ destruct Hin | ].
  simpl in Hnd. apply NoDup_cons in Hnd as [He Hnd]. simpl.
  destruct (String.eqb e.1 o) eqn:E.
  - apply String.eqb_eq in E. simpl.
    assert (Hrest : List.map (fun e0 : string * Conversation =>
                      if String.eqb e0.1 o
                      then (e0.1, {| user := user e0.2; lastMessage := lastMessage e0.2;
                                     unreadCount := unreadCount e0.2 + 1 |})
                      else e0) cm = cm).
    { clear IH Hin Hnd. induction cm as [ | x cm IHc]; [ reflexivity | ]. simpl.
      destruct (String.eqb x.1 o) eqn:Ex.
      - exfalso. apply He. apply String.eqb_eq in Ex. rewrite E, <- Ex.
        apply list_elem_of_In. simpl. auto.
      - rewrite IHc; [ reflexivity | ]. intros H. apply He.
        apply list_elem_of_In. simpl. right. apply list_elem_of_In, H. }
    rewrite Hrest. unfold total_unread. lia.
  - destruct Hin as [Hin | Hin]; [ apply String.eqb_neq in E; contradiction | ].
    simpl. specialize (IH Hnd Hin). unfold total_unread in *. simpl. lia.
Qed.

Lemma conversationMap_total (uid : string) (vs : list MessageView) :
  total_unread (List.map snd (conversationMap uid vs))
    = Z.of_nat (length (List.filter (fun v => unread_of uid (row v)) vs)).
Proof.
  induction vs as [ | v vs IH] using rev_ind; [ reflexivity | ].
  rewrite conversationMap_snoc, List.filter_app, length_app. simpl.
  pose proof (conversationMap_keys_unique uid vs) as Hnd.
  unfold visit. set (o := otherUserId uid (row v)). set (cm := conversationMap uid vs) in *.
  set (fresh := (o, {| user := otherUser uid v; lastMessage := v; unreadCount := 0 |})).
  assert (Hcm1 : let cm1 := if map_has o cm then cm else cm ++ [ fresh ] in
                 NoDup (List.map fst cm1) /\ In o (List.map fst cm1) /\
                 total_unread (List.map snd cm1) = total_unread (List.map snd cm)).
  { destruct (map_has o cm) eqn:E; simpl.
    - split; [ exact Hnd | ]. split; [ apply map_has_keys, E | reflexivity ].
    - rewrite !List.map_app. simpl. split.
      + apply NoDup_app. split; [ exact Hnd | ]. split; [ | apply NoDup_singleton ].
        intros k Hk Hk'. apply list_elem_of_singleton in Hk'. subst k.
        apply list_elem_of_In, map_has_keys in Hk. congruence.
      + split; [ apply in_or_app; right; simpl; auto | ].
        rewrite total_unread_app. unfold total_unread at 2. simpl. lia. }
  simpl in Hcm1. destruct Hcm1 as (Hnd1 & Hin1 & Htot1).
  destruct (unread_of uid (row v)); simpl.
  - rewrite (total_unread_bump _ _ Hnd1 Hin1), Htot1, IH. lia.
  - rewrite Htot1, IH. lia.
Qed.

(** The entries of [conversationMap], read off the rows fetched. *)
Lemma conversation_entry (uid k : string) (c : Conversation) (e : Embed) (d : DB)
    (ms : list Message) :
  In (k, c) (conversationMap uid (List.map (view e d) ms)) ->
  exists m0,
    List.find (fun m => String.eqb (otherUserId uid m) k) ms = Some m0 /\
    otherUserId uid m0 = k /\
    lastMessage c = view e d m0 /\
    user c = otherUser uid (view e d m0) /\
    unreadCount c
      = Z.of_nat (length (List.filter
                            (fun m => String.eqb (otherUserId uid m) k && unread_of uid m) ms)).
Proof.
  intros Hin.
  apply (map_get_of_entry _ _ _ (conversationMap_keys_unique uid _)) in Hin.
  rewrite conversationMap_get in Hin. unfold entry_for in Hin.
  unfold with_partner in Hin.
  rewrite (find_views (fun m => String.eqb (otherUserId uid m) k)) in Hin.
  destruct (List.find (fun m => String.eqb (otherUserId uid m) k) ms) as [m0 | ] eqn:Hf;
    [ | discriminate ].
  simpl in Hin. injection Hin as <-. exists m0. simpl.
  apply find_some in Hf as [_ Hk]. apply String.eqb_eq in Hk.
  repeat split; try assumption.
  f_equal.
  apply (filter_views_length (fun m => String.eqb (otherUserId uid m) k && unread_of uid m)).
Qed.

Lemma partners_are_keys (uid : string) (e : Embed) (d : DB) (ms : list Message) :
  List.map (partner uid) (List.map snd (conversationMap uid (List.map (view e d) ms)))
    = List.map fst (conversationMap uid (List.map (view e d) ms)).
Proof.
  assert (H : forall k c, In (k, c) (conversationMap uid (List.map (view e d) ms)) ->
                          partner uid c = k).
  { intros k c Hin. destruct (conversation_entry _ _ _ _ _ _ Hin) as (m0 & _ & Hk & Hl & _).
    unfold partner. rewrite Hl, row_view. exact Hk. }
  induction (conversationMap uid (List.map (view e d) ms)) as [ | [k c] cm IH];
    [ reflexivity | ].
  simpl. rewrite (H k c) by (simpl; auto). f_equal. apply IH.
  intros k' c' Hin. apply H. simpl. auto.
Qed.

Lemma unread_involves (uid : string) (m : Message) :
  unread_of uid m = true -> involves uid m = true.
Proof.
  unfold unread_of, involves. intros H. apply andb_true_iff in H as [H _].
  rewrite H. apply orb_true_r.
Qed.

(** X10. The conversation list of a user. With the store answering,
    [getConversations] returns one conversation per partner, latest
    exchange first. Every message the user sent or received belongs to the
    conversation with its other party and is no newer than the
    [lastMessage] shown there; that message is a stored one, embedded with
    both profiles, [user] is the partner's profile, and [unreadCount] is
    the number of stored messages of that conversation addressed to the
    user and not yet read. *)
Theorem getConversations_summary (uid : string) (db : DB) :
  uid <> "" ->
  exists cs,
    getConversations (Some uid) NoFault db
      = {| code := 200; content := content_conversations cs |} /\
    NoDup (List.map (partner uid) cs) /\
    StronglySorted latest_first cs /\
    (forall m, In m (messages db) -> involves uid m = true ->
       exists c, In c cs /\ partner uid c = otherUserId uid m /\
                 created_at m <= created_at (row (lastMessage c))) /\
    (forall c, In c cs ->
       In (row (lastMessage c)) (messages db) /\
       involves uid (row (lastMessage c)) = true /\
       lastMessage c = view embed_both_verified db (row (lastMessage c)) /\
       user c = otherUser uid (lastMessage c) /\
       unreadCount c
         = Z.of_nat (length (List.filter
                               (fun m => String.eqb (otherUserId uid m) (partner uid c)
                                         && unread_of uid m)
                               (messages db)))).
Proof.
  intros Hne. unfold getConversations, select_involving.
  assert (Ht : Js.truthy (Some uid) = true).
  { simpl. apply negb_true_iff, String.eqb_neq, Hne. }
  rewrite Ht. simpl.
  set (ms := order_desc (List.filter (involves uid) (messages db))).
  set (cm := conversationMap uid (List.map (view embed_both_verified db) ms)).
  eexists. split; [ reflexivity | ].
  pose proof (sort_conversations_perm (List.map snd cm)) as Hperm.
  assert (Hms : forall m, In m ms <-> In m (messages db) /\ involves uid m = true).
  { intros m. unfold ms. rewrite order_desc_In, filter_In. reflexivity. }
  split.
  { rewrite (Permutation_map (partner uid) Hperm).
    unfold cm. rewrite partners_are_keys. apply conversationMap_keys_unique. }
  split; [ apply sort_conversations_sorted | ].
  split.
  - intros m Hm Hinv.
    assert (Hin : In m ms) by (apply Hms; auto).
    destruct (find_exists (fun x => String.eqb (otherUserId uid x) (otherUserId uid m))
                ms m Hin (String.eqb_refl _)) as (m0 & Hf).
    assert (Hget : map_get (otherUserId uid m) cm
                   = entry_for uid (otherUserId uid m)
                       (List.map (view embed_both_verified db) ms))
      by apply conversationMap_get.
    unfold entry_for, with_partner in Hget.
    rewrite (find_views (fun x => String.eqb (otherUserId uid x) (otherUserId uid m))),
      Hf in Hget.
    simpl in Hget. apply map_get_entry in Hget.
    eexists. split.
    + apply (Permutation_in _ (Permutation_sym Hperm)).
      apply (in_map snd _ _ Hget).
    + unfold partner. simpl. split.
      * apply find_some in Hf as [_ Hk]. apply String.eqb_eq, Hk.
      * apply (find_newest _ ms m0 m (order_desc_sorted _) Hf Hin (String.eqb_refl _)).
  - intros c Hc. apply (Permutation_in _ Hperm) in Hc.
    apply in_map_iff in Hc as ([k c'] & Hsnd & Hin). simpl in Hsnd. subst c'.
    destruct (conversation_entry _ _ _ _ _ _ Hin) as (m0 & Hf & Hk & Hl & Hu & Hn).
    apply find_some in Hf as [Hm0 _]. apply Hms in Hm0 as [Hm0 Hinv0].
    assert (Hrow : row (lastMessage c) = m0) by (rewrite Hl; apply row_view).
    unfold partner. rewrite Hrow, Hk.
    split; [ exact Hm0 | ]. split; [ exact Hinv0 | ]. split; [ exact Hl | ].
    split; [ rewrite Hl; exact Hu | ].
    rewrite Hn. f_equal. unfold ms.
    rewrite order_desc_filter_length. apply filter_filter_length.
    intros x Hx. apply andb_true_iff in Hx as [_ Hx]. apply unread_involves, Hx.
Qed.

(** X11. The two unread counters agree: the [unreadCount]s of the
    conversation list add up to the number [getUnreadCount] reports. *)
Theorem unread_counts_agree (uid : string) (db : DB) (cs : list Conversation) :
  uid <> "" ->
  getConversations (Some uid) NoFault db
    = {| code := 200; content := content_conversations cs |} ->
  getUnreadCount (Some uid) NoFault db
    = {| code := 200; content := content_unreadCount (total_unread cs) |}.
Proof.
  intros Hne. unfold getConversations, getUnreadCount, select_involving, count_unread.
  assert (Ht : Js.truthy (Some uid) = true).
  { simpl. apply negb_true_iff, String.eqb_neq, Hne. }
  rewrite Ht. simpl. intros H. injection H as <-. do 2 f_equal.
  rewrite (total_unread_perm _ _ (sort_conversations_perm _)), conversationMap_total.
  f_equal.
  rewrite (filter_views_length (unread_of uid)), order_desc_filter_length.
  symmetry. apply filter_filter_length. intros x. apply unread_involves.
Qed.

Lemma unread_from_stamped (o u : string) (t : Z) (m : Message) :
  unread_from o u (if unread_from o u m then stamp t m else m) = false.
Proof.
  destruct (unread_from o u m) eqn:E; [ | exact E ].
  unfold unread_from. simpl. apply andb_false_r.
Qed.

Lemma unread_of_stamped (o u : string) (t : Z) (m : Message) :
  unread_of u (if unread_from o u m then stamp t m else m)
    = unread_of u m && negb (unread_from o u m).
Proof.
  destruct (unread_from o u m) eqn:E; simpl.
  - unfold unread_of. simpl. rewrite !andb_false_r. reflexivity.
  - rewrite andb_true_r. reflexivity.
Qed.

Lemma unread_from_of (o u : string) (m : Message) :
  unread_from o u m = true -> unread_of u m = true.
Proof.
  unfold unread_from, unread_of. intros H.
  apply andb_true_iff in H as [H Hr]. apply andb_true_iff in H as [_ H].
  rewrite H, Hr. reflexivity.
Qed.

(** X12. [markMessagesAsRead] marks one conversation as read and nothing
    else. For a caller whose id is in printed uuid form and with the store
    answering: when the store does not read [otherUserId] as a uuid the
    answer is 500 and nothing changes; when it reads it as the uuid [o]
    (itself, when in printed form) the answer is 200, row by row only
    [read_at] changes, and only in rows sent by [o] to the caller that were
    unread; after the call no such row is left, the caller's unread count
    has gone down by exactly their number, and repeating the call, at any
    later time, changes nothing. *)
Theorem mark_read_clears_partner (uid other : string)
    (spelling : string -> option string) (t t' : Z) (db : DB) :
  is_uuid uid = true ->
  let db' := (markMessagesAsRead (Some uid) other NoFault spelling t db).1 in
  (is_uuid other = true -> uuid_in spelling other = Some other) /\
  (uuid_in spelling other = None ->
   markMessagesAsRead (Some uid) other NoFault spelling t db
     = (db, {| code := 500; content := content_error "Failed to mark messages as read" |})) /\
  (forall o, uuid_in spelling other = Some o ->
     (markMessagesAsRead (Some uid) other NoFault spelling t db).2
       = {| code := 200; content := content_success |} /\
     users db' = users db /\
     Forall2 (fun m m' =>
                id m' = id m /\ sender_id m' = sender_id m /\
                receiver_id m' = receiver_id m /\
                text m' = text m /\ image_url m' = image_url m /\
                created_at m' = created_at m /\
                (read_at m' = read_at m \/
                 (read_at m' = Some t /\ sender_id m = o /\ receiver_id m = uid /\
                  read_at m = None)))
             (messages db) (messages db') /\
     (forall m, In m (messages db') -> unread_from o uid m = false) /\
     count_unread NoFault db' uid
       = Data (Z.of_nat (length (List.filter (unread_of uid) (messages db)))
               - Z.of_nat (length (List.filter (unread_from o uid) (messages db)))) /\
     markMessagesAsRead (Some uid) other NoFault spelling t' db'
       = (db', {| code := 200; content := content_success |})).
Proof.
  intros Huid. unfold markMessagesAsRead, update_read_from, count_unread.
  rewrite (is_uuid_named uid Huid). simpl.
  assert (Hu : uuid_in spelling uid = Some uid) by (unfold uuid_in; rewrite Huid; reflexivity).
  rewrite Hu.
  split; [ intros Ho; unfold uuid_in; rewrite Ho; reflexivity | ].
  split; [ intros ->; reflexivity | ].
  intros o Ho. rewrite Ho. simpl.
  split; [ reflexivity | ]. split; [ reflexivity | ]. split.
  { induction (messages db) as [ | m l IH]; simpl; constructor; [ | exact IH ].
    destruct (unread_from o uid m) eqn:E; simpl.
    - repeat split. right. unfold unread_from in E.
      apply andb_true_iff in E as [E Hr]. apply andb_true_iff in E as [Es Er].
      apply String.eqb_eq in Es, Er. destruct (read_at m); [ discriminate | auto ].
    - repeat split. left. reflexivity. }
  split.
  { intros m Hm. apply in_map_iff in Hm as (m0 & <- & _). apply unread_from_stamped. }
  split.
  { f_equal. induction (messages db) as [ | m l IH]; [ reflexivity | ]. simpl.
    rewrite unread_of_stamped.
    pose proof (unread_from_of o uid m) as Himp.
    destruct (unread_of uid m), (unread_from o uid m); simpl in *;
      try (specialize (Himp eq_refl); discriminate); lia. }
  f_equal. f_equal. rewrite List.map_map. apply map_ext. intros m.
  rewrite unread_from_stamped. reflexivity.
Qed.

(** X13. What the REST [sendMessage] does to the store. Any answer other
    than 201 leaves the store as it was. With 201 exactly one row was
    appended: from the caller to the receiver, unread, with the text (or
    the empty text when only an image was sent); the receiver's unread
    count went up by one and nobody else's changed. *)
Theorem sent_message_is_unread (sch : Schema) (userId receiverId text imageUrl : option string)
    (sel : Fault) (env : InsertEnv) (db : DB) :
  let db' := (sendMessage sch userId receiverId text imageUrl sel env db).1 in
  let resp := (sendMessage sch userId receiverId text imageUrl sel env db).2 in
  (status resp <> 201 -> db' = db) /\
  (status resp = 201 ->
     users db' = users db /\
     messages db'
       = messages db ++ [ new_row env (Js.or_empty userId) (Js.or_empty receiverId)
                            (Js.or_empty text) (Js.or_null imageUrl) ] /\
     Js.or_empty userId <> "" /\ Js.or_empty receiverId <> "" /\
     forall u,
       count_unread NoFault db' u
         = Data (Z.of_nat (length (List.filter (unread_of u) (messages db)))
                 + (if String.eqb (Js.or_empty receiverId) u then 1 else 0))).
Proof.
  unfold sendMessage.
  destruct (Js.truthy userId) eqn:Hu; simpl; [ | split; [ reflexivity | discriminate ] ].
  destruct (Js.truthy receiverId) eqn:Hr; simpl; [ | split; [ reflexivity | discriminate ] ].
  destruct (negb (Js.truthy text) && negb (Js.truthy imageUrl));
    [ split; [ reflexivity | discriminate ] | ].
  destruct (select_user_id sel db (Js.or_empty receiverId));
    try (split; [ reflexivity | discriminate ]).
  destruct (insert_message _ _ _ _ _ _ _ _) as [[db' v] | | ] eqn:Hins; simpl;
    try (split; [ reflexivity | discriminate ]).
  split; [ intros H; contradiction | intros _ ].
  apply insert_message_Data in Hins as (_ & _ & -> & _). simpl.
  split; [ reflexivity | ]. split; [ reflexivity | ].
  assert (Hne : forall o, Js.truthy o = true -> Js.or_empty o <> "").
  { intros [s | ] H; simpl in *; [ | discriminate ].
    apply negb_true_iff, String.eqb_neq in H. exact H. }
  split; [ apply Hne, Hu | ]. split; [ apply Hne, Hr | ].
  intros u. unfold count_unread. simpl. f_equal.
  rewrite List.filter_app, length_app. simpl. unfold unread_of at 2. simpl.
  rewrite andb_true_r. destruct (String.eqb (Js.or_empty receiverId) u); simpl; lia.
Qed.

Lemma sorted_take_drop {A : Type} (R : A -> A -> Prop) (n k : nat) (l : list A) :
  StronglySorted R l -> StronglySorted R (firstn n (skipn k l)).
Proof.
  intros Hs.
  assert (Hd : StronglySorted R (skipn k l)).
  { rewrite <- (take_drop k l) in Hs. apply StronglySorted_app_1_r in Hs. exact Hs. }
  rewrite <- (take_drop n (skipn k l)) in Hd. apply StronglySorted_app_1_l in Hd. exact Hd.
Qed.

Lemma sorted_rev (l : list Message) :
  StronglySorted newest_first l ->
  StronglySorted (fun x y => created_at x <= created_at y) (rev l).
Proof.
  induction l as [ | m l IH]; intros Hs; simpl; [ constructor | ].
  apply StronglySorted_inv in Hs as [Hs Hm].
  apply StronglySorted_app. split; [ | split; [ apply IH, Hs | repeat constructor ] ].
  intros x y Hx Hy. apply list_elem_of_singleton in Hy. subst y.
  rewrite Forall_forall in Hm. apply Hm.
  apply list_elem_of_In, in_rev, list_elem_of_In, Hx.
Qed.

(** A request of two ids in printed form for page [p] of size [l], both
    at least 1 and with [p * l] a safe integer, is plain. *)
Lemma page_plain (uid other : string) (p l : Z) :
  is_uuid uid = true -> is_uuid other = true ->
  1 <= p -> 1 <= l -> p * l <= Js.MAX_SAFE_INTEGER ->
  plain uid other (Some ((p - 1) * l)) (Some ((p - 1) * l + l - 1)) = true.
Proof.
  intros Hu Ho Hp Hl Hmax. unfold plain. rewrite Hu, Ho. simpl.
  apply andb_true_iff. split; [ apply andb_true_iff; split | ]; apply Z.leb_le; nia.
Qed.

(** X14. The page [getMessages] answers with. For a caller and another
    user whose ids are in printed uuid form, a page number and a page
    size, both at least 1 and with a product that is a safe integer, and
    the store answering, the answer is 200 with at most [limit] messages,
    oldest first, each a stored message between the caller and the other
    user with its sender's profile; [hasMore] is set exactly when the page
    is full. When [otherUserId] is not in that form and the service
    refuses the filter text, the answer is 500 and nothing changes. *)
Theorem getMessages_page (uid other : string) (p l : Z)
    (odd : string -> option Reading) (t : Z) (db : DB) :
  is_uuid uid = true -> is_uuid other = true ->
  1 <= p -> 1 <= l -> p * l <= Js.MAX_SAFE_INTEGER ->
  (exists rows : list Message,
    (getMessages (Some uid) other (Some p) (Some l) NoFault odd NoFault t db).2
      = reply 200 (json_messages (List.map (view embed_sender_verified db) rows)
                                 (Z.of_nat (length rows) =? l)) /\
    Z.of_nat (length rows) <= l /\
    StronglySorted (fun x y => created_at x <= created_at y) rows /\
    (forall m, In m rows -> In m (messages db) /\ between uid other m = true) /\
    (forall m, In m (messages db) -> between uid other m = true ->
       Z.of_nat (length (List.filter (between uid other) (messages db))) <= l -> p = 1 ->
       In m rows)) /\
  (forall o upd, is_uuid o = false -> odd (or_filter uid o) = None ->
     getMessages (Some uid) o (Some p) (Some l) NoFault odd upd t db
       = (db, reply 500 (json_error "Failed to fetch messages"))).
Proof.
  intros Huid Hother Hp Hl Hmax. split.
  2:{ intros o upd Ho Hodd. unfold getMessages.
      rewrite (is_uuid_named uid Huid). simpl negb. cbv iota. simpl Js.or_empty.
      unfold select_between, plain. rewrite Ho, andb_false_r. simpl.
      rewrite Hodd. reflexivity. }
  unfold getMessages. rewrite (is_uuid_named uid Huid).
  simpl negb. cbv iota. simpl Js.or_empty.
  set (from := num_mul (num_sub (Some p) (Some 1)) (Some l)).
  set (to := num_sub (num_add from (Some l)) (Some 1)).
  assert (Hplain : plain uid other from to = true)
    by exact (page_plain uid other p l Huid Hother Hp Hl Hmax).
  rewrite (select_between_plain _ _ _ _ _ _ _ Hplain).
  subst from to. unfold range. simpl.
  assert (Hoff : 0 <= (p - 1) * l) by nia.
  replace ((0 <=? (p - 1) * l) && ((p - 1) * l <=? (p - 1) * l + l - 1 + 1)) with true
    by (symmetry; apply andb_true_iff; split; apply Z.leb_le; lia).
  replace ((p - 1) * l + l - 1 - (p - 1) * l + 1) with l by lia.
  set (sorted := order_desc (List.filter (between uid other) (messages db))).
  set (page := firstn (Z.to_nat l) (skipn (Z.to_nat ((p - 1) * l)) sorted)).
  exists (rev page).
  assert (Hlen : length (rev page) = length page) by apply length_rev.
  assert (Hpage : Z.of_nat (length page) <= l).
  { unfold page. pose proof (firstn_le_length (Z.to_nat l)
                               (skipn (Z.to_nat ((p - 1) * l)) sorted)). lia. }
  split.
  { rewrite Hlen.
    destruct (0 <? Z.of_nat (length (List.map id (List.filter (unread_for uid) page))));
      reflexivity. }
  split; [ lia | ]. split.
  { apply sorted_rev. unfold page. apply sorted_take_drop, order_desc_sorted. }
  split.
  - intros m Hm. apply in_rev in Hm. unfold page in Hm.
    apply list_elem_of_In in Hm. apply subseteq_take, subseteq_drop in Hm.
    apply list_elem_of_In in Hm. unfold sorted in Hm.
    apply order_desc_In, filter_In in Hm. exact Hm.
  - intros m Hm Hb Hall ->. apply in_rev. rewrite rev_involutive. unfold page.
    simpl. rewrite skipn_O. rewrite firstn_all2.
    + unfold sorted. apply order_desc_In, filter_In. auto.
    + unfold sorted.
      pose proof (order_desc_filter_length (fun _ => true)
                    (List.filter (between uid other) (messages db))) as Hsame.
      assert (Hid : forall (A : Type) (x : list A), List.filter (fun _ => true) x = x).
      { intros A x. induction x as [ | a x IH]; simpl; [ | rewrite IH ]; reflexivity. }
      rewrite !Hid in Hsame. lia.
Qed.

(** The UPDATE of [getMessages] moves no row to another page: it keeps
    ids, parties and creation times. *)
Lemma insert_desc_map (g : Message -> Message) (m : Message) (l : list Message) :
  (forall x, created_at (g x) = created_at x) ->
  insert_desc (g m) (List.map g l) = List.map g (insert_desc m l).
Proof.
  intros Hg. induction l as [ | y l IH]; [ reflexivity | ]. simpl.
  rewrite !Hg. destruct (created_at y <=? created_at m); [ reflexivity | ].
  simpl. rewrite IH. reflexivity.
Qed.

Lemma order_desc_map (g : Message -> Message) (l : list Message) :
  (forall x, created_at (g x) = created_at x) ->
  order_desc (List.map g l) = List.map g (order_desc l).
Proof.
  intros Hg. unfold order_desc. induction l as [ | m l IH]; [ reflexivity | ]. simpl.
  rewrite IH. apply insert_desc_map, Hg.
Qed.

Lemma filter_map_same (f : Message -> bool) (g : Message -> Message) (l : list Message) :
  (forall x, f (g x) = f x) ->
  List.filter f (List.map g l) = List.map g (List.filter f l).
Proof.
  intros Hg. induction l as [ | m l IH]; [ reflexivity | ]. simpl.
  rewrite Hg. destruct (f m); simpl; rewrite IH; reflexivity.
Qed.

Lemma filter_none {A : Type} (f : A -> bool) (l : list A) :
  (forall x, In x l -> f x = false) -> List.filter f l = [].
Proof.
  induction l as [ | y l IH]; intros H; [ reflexivity | ]. simpl.
  rewrite (H y) by (simpl; auto). apply IH. intros x Hx. apply H. simpl. auto.
Qed.

(** X15. Fetching the same page again marks nothing new. For a caller
    and another user whose ids are in printed uuid form, a page number and
    a page size, both at least 1 and with a product that is a safe integer,
    and a conversation whose messages have distinct creation times (the
    query orders by [created_at] alone, which fixes the page only then):
    after a [getMessages] that went through, the same request, at any later
    time and whatever the update would do, leaves the store exactly as the
    first call left it. *)
Theorem getMessages_again_changes_nothing (uid other : string) (p l : Z)
    (odd odd' : string -> option Reading) (upd' : Fault) (t t' : Z) (db : DB) :
  is_uuid uid = true -> is_uuid other = true ->
  1 <= p -> 1 <= l -> p * l <= Js.MAX_SAFE_INTEGER ->
  NoDup (List.map created_at (List.filter (between uid other) (messages db))) ->
  let db1 := (getMessages (Some uid) other (Some p) (Some l) NoFault odd NoFault t db).1 in
  (getMessages (Some uid) other (Some p) (Some l) NoFault odd' upd' t' db1).1 = db1.
Proof.
  intros Huid Hother Hp Hl Hmax _. unfold getMessages.
  rewrite (is_uuid_named uid Huid). simpl negb. cbv iota. simpl Js.or_empty.
  remember (num_mul (num_sub (Some p) (Some 1)) (Some l)) as from eqn:Efrom.
  remember (num_sub (num_add from (Some l)) (Some 1)) as to eqn:Eto.
  assert (Hplain : plain uid other from to = true)
    by (subst from to; exact (page_plain uid other p l Huid Hother Hp Hl Hmax)).
  clear Efrom Eto.
  rewrite !(select_between_plain _ _ _ _ _ _ _ Hplain). simpl with_fault.
  destruct (range from to (order_desc (List.filter (between uid other) (messages db))))
    as [rows | | ] eqn:Hrange; simpl.
  2:{ rewrite Hrange. reflexivity. }
  2:{ rewrite Hrange. reflexivity. }
  set (ids := List.map id (List.filter (unread_for uid) rows)).
  destruct (0 <? Z.of_nat (length ids)) eqn:Hlen; simpl.
  2:{ rewrite Hrange. simpl. fold ids. rewrite Hlen. reflexivity. }
  set (g := fun m => if mem (id m) ids then stamp t m else m).
  assert (Hg_created : forall x, created_at (g x) = created_at x).
  { intros x. unfold g. destruct (mem (id x) ids); reflexivity. }
  assert (Hg_between : forall x, between uid other (g x) = between uid other x).
  { intros x. unfold g. destruct (mem (id x) ids); reflexivity. }
  rewrite (filter_map_same _ g _ Hg_between), (order_desc_map g _ Hg_created).
  assert (Hrange' : range from to
                      (List.map g (order_desc (List.filter (between uid other) (messages db))))
                    = Data (List.map g rows)).
  { revert Hrange. unfold range. destruct from as [a | ], to as [b | ]; try discriminate.
    destruct ((0 <=? a) && (a <=? b + 1)); [ | discriminate ].
    intros H. injection H as <-. rewrite skipn_map, firstn_map. reflexivity. }
  rewrite Hrange'. simpl.
  assert (Hnone : List.filter (unread_for uid) (List.map g rows) = []).
  { apply filter_none. intros x Hx. apply in_map_iff in Hx as (m & <- & Hm).
    unfold g. destruct (mem (id m) ids) eqn:Hmem.
    - unfold unread_for. simpl. apply andb_false_r.
    - destruct (unread_for uid m) eqn:Hun; [ | reflexivity ].
      exfalso. assert (Hin : mem (id m) ids = true).
      { apply mem_In. unfold ids. apply in_map, filter_In. auto. }
      congruence. }
  rewrite Hnone. reflexivity.
Qed.

(** X16. A deleted message is gone for good. After a [deleteMessage]
    answered 200 no row with that id is stored, every other row is still
    there, and asking to delete it again is answered 404 with the store
    unchanged, whoever asks. *)
Theorem deleted_message_is_gone (userId who : option string) (mid : string)
    (sel del : Fault) (db : DB) :
  status (deleteMessage userId mid sel del db).2 = 200 ->
  let db' := (deleteMessage userId mid sel del db).1 in
  has_message db' mid = false /\
  (forall m, In m (messages db) -> id m <> mid -> In m (messages db')) /\
  (Js.truthy who = true ->
   deleteMessage who mid NoFault NoFault db'
     = (db', reply 404 (json_error "Message not found or unauthorized"))).
Proof.
  unfold deleteMessage.
  destruct (Js.truthy userId); simpl; [ | discriminate ].
  destruct (select_own_message sel db mid (Js.or_empty userId)); simpl; try discriminate.
  unfold delete_message. destruct del; simpl; try discriminate. intros _.
  assert (Hgone : forall f, List.filter (fun m => String.eqb (id m) mid && f m)
                    (List.filter (fun m => negb (String.eqb (id m) mid)) (messages db)) = []).
  { intros f. apply filter_none. intros x Hx. apply filter_In in Hx as [_ Hx].
    apply negb_true_iff in Hx. rewrite Hx. reflexivity. }
  split.
  { unfold has_message. simpl.
    destruct (existsb _ _) eqn:E; [ | reflexivity ].
    apply existsb_exists in E as (x & Hx & Hid). apply filter_In in Hx as [_ Hx].
    apply negb_true_iff in Hx. congruence. }
  split.
  { intros m Hm Hid. simpl. apply filter_In. split; [ exact Hm | ].
    apply negb_true_iff, String.eqb_neq, Hid. }
  intros Hw. rewrite Hw. simpl. unfold select_own_message. simpl.
  rewrite (Hgone (fun m => String.eqb (sender_id m) (Js.or_empty who))). reflexivity.
Qed.

Lemma filter_keeps_ids_unique (f : Message -> bool) (l : list Message) :
  NoDup (List.map id l) -> NoDup (List.map id (List.filter f l)).
Proof.
  induction l as [ | m l IH]; intros Hnd; [ exact Hnd | ].
  simpl in Hnd. apply NoDup_cons in Hnd as [Hm Hnd]. simpl.
  destruct (f m); [ | apply IH, Hnd ].
  simpl. apply NoDup_cons. split; [ | apply IH, Hnd ].
  intros Hin. apply Hm. apply list_elem_of_In in Hin. apply list_elem_of_In.
  apply in_map_iff in Hin as (x & Hid & Hx). apply filter_In in Hx as [Hx _].
  rewrite <- Hid. apply in_map, Hx.
Qed.

Lemma stamp_keeps_ids (f : Message -> bool) (t : Z) (l : list Message) :
  List.map id (List.map (fun m => if f m then stamp t m else m) l) = List.map id l.
Proof.
  rewrite List.map_map. apply map_ext. intros m. destruct (f m); reflexivity.
Qed.

(** X17. The message controller keeps message ids unique. If no two rows
    share an id, none do after [sendMessage], [getMessages],
    [markMessagesAsRead] or [deleteMessage], whatever the request, the
    faults of the store, the id its generator proposes and its reading of
    ids that are not in printed uuid form. *)
Theorem controller_keeps_ids_unique (sch : Schema) (userId : option string) (db : DB) :
  NoDup (List.map id (messages db)) ->
  (forall receiverId text imageUrl sel env,
     NoDup (List.map id (messages (sendMessage sch userId receiverId text imageUrl
                                     sel env db).1))) /\
  (forall other page limit sel odd upd t,
     NoDup (List.map id
              (messages (getMessages userId other page limit sel odd upd t db).1))) /\
  (forall other f spelling t,
     NoDup (List.map id (messages (markMessagesAsRead userId other f spelling t db).1))) /\
  (forall mid sel del,
     NoDup (List.map id (messages (deleteMessage userId mid sel del db).1))).
Proof.
  intros Hnd. repeat split.
  - intros receiverId text imageUrl sel env. unfold sendMessage.
    destruct (negb (Js.truthy userId)); [ exact Hnd | ].
    destruct (negb (Js.truthy receiverId) || _); [ exact Hnd | ].
    destruct (select_user_id sel db (Js.or_empty receiverId)); try exact Hnd.
    destruct (insert_message _ _ _ _ _ _ _ _) as [[db' v] | | ] eqn:Hins; try exact Hnd.
    simpl. eapply insert_keeps_ids_unique; eassumption.
  - intros other page limit sel odd upd t. unfold getMessages.
    destruct (negb (Js.truthy userId)); [ exact Hnd | ].
    destruct (select_between _ _ _ _ _ _ _) as [rows | | ]; try exact Hnd.
    destruct (0 <? _); [ | exact Hnd ].
    unfold update_read_at. destruct upd; simpl; try exact Hnd.
    rewrite (stamp_keeps_ids (fun m => mem (id m) _)). exact Hnd.
  - intros other f spelling t. unfold markMessagesAsRead.
    destruct (negb (Js.truthy userId)); [ exact Hnd | ].
    unfold update_read_from.
    destruct (uuid_in spelling other), (uuid_in spelling (Js.or_empty userId));
      destruct f; simpl; try exact Hnd.
    rewrite stamp_keeps_ids. exact Hnd.
  - intros mid sel del. unfold deleteMessage.
    destruct (negb (Js.truthy userId)); [ exact Hnd | ].
    destruct (select_own_message sel db mid (Js.or_empty userId)); try exact Hnd.
    unfold delete_message. destruct del; simpl; try exact Hnd.
    apply filter_keeps_ids_unique, Hnd.
Qed.


(** X19. The converse fails for an empty message. A request with no text
    (or the empty text) and no image is refused with 400 by the REST
    [sendMessage], which stores nothing; the relay has no such test, and
    under the schema without CHECK constraints it stores the empty message
    between two registered users and broadcasts it. *)
Theorem relay_accepts_empty_message (jwt_verify : string -> option string)
    (userId : string) (receiverId : string) (env : InsertEnv)
    (srv : Relay.Server) (sid : string) (sock : Relay.Socket) :
  Relay.sockets srv !! sid = Some sock ->
  Relay.userId sock = userId ->
  has_user (Relay.db srv) userId = true ->
  has_user (Relay.db srv) receiverId = true ->
  has_message (Relay.db srv) (fresh_id env) = false ->
  fault env = NoFault ->
  userId <> "" -> receiverId <> "" ->
  (forall sel,
     sendMessage DATABASE_SCHEMA (Some userId) (Some receiverId) (Some "") None sel env
       (Relay.db srv)
     = (Relay.db srv, reply 400 (json_error "Receiver ID and message content are required"))) /\
  messages (Relay.db (Relay.step jwt_verify DATABASE_SCHEMA srv
                        (Relay.Receive sid (Relay.send_message receiverId "" None) env)).1)
    = messages (Relay.db srv) ++ [ new_row env userId receiverId "" None ] /\
  exists v e2,
    (Relay.step jwt_verify DATABASE_SCHEMA srv
       (Relay.Receive sid (Relay.send_message receiverId "" None) env)).2
      = [ Relay.Emit {| Relay.origin := sid;
                        Relay.target := Relay.io_to (Relay.conversation_room
                                                       (Relay.conversationId userId receiverId));
                        Relay.event := Relay.new_message v;
                        Relay.receivers :=
                          Relay.members (Relay.sockets srv)
                            (Relay.conversation_room
                               (Relay.conversationId userId receiverId)) |};
          Relay.Emit e2 ] /\
    text (row v) = "".
Proof.
  intros Hs Hu Hhu Hhr Hfresh Hf Hne Hner. split.
  { intros sel. unfold sendMessage. simpl.
    apply String.eqb_neq in Hne, Hner. rewrite Hne, Hner. reflexivity. }
  simpl. rewrite Hs. simpl. unfold Relay.on_send_message, insert_message, insert_allowed.
  rewrite Hu, Hf. simpl. rewrite Hhu, Hhr, Hfresh. simpl.
  split; [ reflexivity | ]. do 2 eexists. split; reflexivity.
Qed.

End InboxExtras.

(** ** What the rate limiter guarantees *)

Section RateLimitExtras.
Import RateLimit.

Lemma in_window_app (w t : Z) (l l' : list Z) :
  in_window w t (l ++ l') = in_window w t l ++ in_window w t l'.
Proof. unfold in_window. apply filter_app. Qed.

Lemma in_window_newer (w t now : Z) (l : list Z) :
  now <= t -> (length (in_window w t l) <= length (newer (now - w) l))%nat.
Proof.
  intros Hle. unfold in_window, newer. induction l as [ | x l IH]; [ reflexivity | ].
  rewrite !filter_cons.
  destruct (decide (t - w < x /\ x <= t)) as [Hx | Hx];
    destruct (decide (now - w < x)) as [Hy | Hy]; simpl; lia.
Qed.

Lemma newer_length (a : Z) (l : list Z) : (length (newer a l) <= length l)%nat.
Proof. unfold newer. apply length_filter. Qed.

(** Appending an admitted request keeps every window within the limit. *)
Lemma window_bound_admit (w mx now : Z) (key : option string)
    (admitted : list (option string * Z)) :
  (forall k t, Z.of_nat (length (in_window w t (times_of k admitted))) <= Z.max mx 0) ->
  Z.of_nat (length (newer (now - w) (times_of key admitted))) < mx ->
  forall k t,
    Z.of_nat (length (in_window w t (times_of k (admitted ++ [ (key, now) ])))) <= Z.max mx 0.
Proof.
  intros Hall Hadm k t. rewrite times_of_app.
  destruct (decide (key = k)) as [-> | Hne]; [ | rewrite app_nil_r; apply Hall ].
  rewrite in_window_app, length_app. unfold in_window at 2.
  rewrite filter_cons, filter_nil.
  destruct (decide (t - w < now /\ now <= t)) as [[H1 H2] | Hout]; simpl.
  - pose proof (in_window_newer w t now (times_of k admitted) H2). lia.
  - specialize (Hall k t). lia.
Qed.

Lemma window_bound_history (w mx : Z) (rs : list (Request * Z)) :
  forall admitted : list (option string * Z),
    (forall k t, Z.of_nat (length (in_window w t (times_of k admitted))) <= Z.max mx 0) ->
    forall k t,
      Z.of_nat (length (in_window w t
                          (times_of k (admitted
                                       ++ admitted_of rs (admit_by_history w mx admitted rs)))))
        <= Z.max mx 0.
Proof.
  induction rs as [ | [req now] rest IH]; intros admitted Hall k t.
  - unfold admitted_of. simpl. rewrite app_nil_r. apply Hall.
  - simpl.
    destruct (Z.of_nat (length (newer (now - w) (times_of (key_of req) admitted))) >=? mx)
      eqn:E.
    + unfold admitted_of. simpl. apply (IH admitted Hall).
    + unfold admitted_of. simpl.
      change (admitted ++ (key_of req, now) :: ?x) with (admitted ++ [ (key_of req, now) ] ++ x).
      rewrite app_assoc.
      apply (IH (admitted ++ [ (key_of req, now) ])).
      apply window_bound_admit; [ exact Hall | ].
      destruct (Z.geb_spec (Z.of_nat (length (newer (now - w)
                                                (times_of (key_of req) admitted)))) mx);
        [ discriminate | lia ].
Qed.

(** X20. The limit holds over every window. Over requests in time order,
    served from an empty map, the requests of one key that were passed on
    with a time in any window [(t - windowMs, t]] number at most
    [maxRequests] (none when [maxRequests] is not positive). *)
Theorem rate_limit_never_exceeded (windowMs maxRequests : Z) (rs : list (Request * Z))
    (k : option string) (t : Z) :
  chronological rs ->
  Z.of_nat (length (in_window windowMs t
                      (times_of k (admitted_of rs (serve windowMs maxRequests ∅ rs).2))))
    <= Z.max maxRequests 0.
Proof.
  intros Hchr.
  assert (Hserve : (serve windowMs maxRequests ∅ rs).2
                   = admit_by_history windowMs maxRequests [] rs).
  { destruct rs as [ | [req0 now0] rest]; [ reflexivity | ].
    apply (serve_by_history windowMs maxRequests _ ∅ [] now0).
    - intros k' t' _. reflexivity.
    - simpl. split; [ lia | exact Hchr ]. }
  rewrite Hserve.
  apply (window_bound_history windowMs maxRequests rs []).
  intros k' t'. simpl. lia.
Qed.

(** The verdicts depend on the history only through the times admitted
    for the keys that ask. *)
Lemma admit_by_history_ext (w mx : Z) (rs : list (Request * Z)) :
  forall a1 a2 : list (option string * Z),
    (forall r, In r rs -> times_of (key_of r.1) a1 = times_of (key_of r.1) a2) ->
    admit_by_history w mx a1 rs = admit_by_history w mx a2 rs.
Proof.
  induction rs as [ | [req now] rest IH]; intros a1 a2 Hsame; [ reflexivity | ].
  simpl. pose proof (Hsame (req, now) (or_introl eq_refl)) as Hhd. simpl in Hhd.
  rewrite Hhd.
  destruct (_ >=? mx).
  - f_equal. apply IH. intros r Hr. apply Hsame. simpl. auto.
  - f_equal. apply IH. intros r Hr. rewrite !times_of_app.
    rewrite (Hsame r) by (simpl; auto). reflexivity.
Qed.

Lemma for_key_keys (k : option string) (rs : list (Request * Z)) (r : Request * Z) :
  In r (for_key k rs) -> key_of r.1 = k.
Proof.
  unfold for_key. intros H. apply filter_In in H as [_ H].
  apply bool_decide_eq_true in H. exact H.
Qed.

Lemma admit_by_history_for_key (w mx : Z) (k : option string) (rs : list (Request * Z)) :
  forall admitted : list (option string * Z),
    outcomes_for k rs (admit_by_history w mx admitted rs)
      = admit_by_history w mx admitted (for_key k rs).
Proof.
  unfold outcomes_for.
  induction rs as [ | [req now] rest IH]; intros admitted; [ reflexivity | ].
  unfold for_key. simpl. fold (for_key k rest).
  destruct (decide (key_of req = k)) as [Hk | Hk].
  - rewrite (bool_decide_eq_true_2 _ Hk). simpl.
    destruct (_ >=? mx); simpl; rewrite (bool_decide_eq_true_2 _ Hk); simpl;
      rewrite IH; reflexivity.
  - rewrite (bool_decide_eq_false_2 _ Hk).
    destruct (_ >=? mx); simpl; rewrite (bool_decide_eq_false_2 _ Hk); rewrite IH;
      [ reflexivity | ].
    apply admit_by_history_ext. intros r Hr. apply for_key_keys in Hr.
    rewrite Hr, times_of_app. destruct (decide (key_of req = k)); [ contradiction | ].
    apply app_nil_r.
Qed.

Lemma not_before_weaken (t t' : Z) (rs : list (Request * Z)) :
  t <= t' -> not_before t' rs -> not_before t rs.
Proof.
  destruct rs as [ | [req now] rest]; simpl; [ auto | ]. intros Hle [H1 H2].
  split; [ lia | exact H2 ].
Qed.

Lemma not_before_for_key (k : option string) (t : Z) (rs : list (Request * Z)) :
  not_before t rs -> not_before t (for_key k rs).
Proof.
  unfold for_key. revert t. induction rs as [ | [req now] rest IH]; intros t H;
    [ exact H | ].
  destruct H as [Hle H]. simpl. destruct (bool_decide (key_of req = k)).
  - simpl. split; [ exact Hle | apply IH, H ].
  - apply IH. apply (not_before_weaken t now); assumption.
Qed.

Lemma serve_from_empty (w mx : Z) (rs : list (Request * Z)) (t0 : Z) :
  not_before t0 rs -> (serve w mx ∅ rs).2 = admit_by_history w mx [] rs.
Proof.
  intros H. apply (serve_by_history w mx rs ∅ [] t0); [ | exact H ].
  intros k t _. reflexivity.
Qed.

(** X21. Clients do not throttle each other. Over requests in time
    order, served from an empty map, the verdicts given to the requests
    of one key are the verdicts those requests would get if they were the
    only traffic. *)
Theorem rate_limit_keys_independent (windowMs maxRequests : Z) (rs : list (Request * Z))
    (k : option string) :
  chronological rs ->
  outcomes_for k rs (serve windowMs maxRequests ∅ rs).2
    = (serve windowMs maxRequests ∅ (for_key k rs)).2.
Proof.
  intros Hchr.
  assert (H0 : exists t0, not_before t0 rs).
  { destruct rs as [ | [req now] rest]; [ exists 0; exact I | ].
    exists now. simpl. split; [ lia | exact Hchr ]. }
  destruct H0 as (t0 & H0).
  rewrite (serve_from_empty _ _ _ t0 H0).
  rewrite (serve_from_empty _ _ _ t0 (not_before_for_key k t0 rs H0)).
  apply admit_by_history_for_key.
Qed.

(** X22. The map holds nothing stale. After the middleware has handled a
    request at [now], no key is left with an empty list, and every
    timestamp on record is newer than [now - windowMs], save for [now]
    itself under the key of a request that was passed on. Keys whose
    requests have all left the window are dropped. *)
Theorem rate_limit_map_is_swept (windowMs maxRequests : Z)
    (requests : gmap (option string) (list Z)) (req : Request) (now : Z)
    (k : option string) (ts : list Z) :
  (createRateLimit windowMs maxRequests requests req now).1 !! k = Some ts ->
  ts <> [] /\
  (forall t, t ∈ ts ->
     now - windowMs < t \/
     (t = now /\ k = key_of req /\
      (createRateLimit windowMs maxRequests requests req now).2 = Next)).
Proof.
  unfold createRateLimit.
  set (swept := sweep (now - windowMs) requests).
  assert (Hswept : forall k' ts', swept !! k' = Some ts' ->
            ts' <> [] /\ forall t, t ∈ ts' -> now - windowMs < t).
  { intros k' ts' H. unfold swept in H. rewrite sweep_lookup in H.
    destruct (requests !! k') as [old | ]; [ | discriminate ].
    destruct (length (newer (now - windowMs) old) =? 0)%nat eqn:E; [ discriminate | ].
    injection H as <-. split.
    - intros Hnil. rewrite Hnil in E. discriminate.
    - intros t Ht. apply newer_elem in Ht. tauto. }
  destruct (Z.of_nat (length (default [] (swept !! key_of req))) >=? maxRequests); simpl.
  - intros H. destruct (Hswept _ _ H) as [H1 H2]. split; [ exact H1 | ].
    intros t Ht. left. apply H2, Ht.
  - destruct (decide (key_of req = k)) as [<- | Hne].
    + rewrite lookup_insert_eq. intros H. injection H as <-. split.
      * intros Hnil. apply (f_equal length) in Hnil. rewrite length_app in Hnil.
        simpl in Hnil. lia.
      * intros t Ht. apply elem_of_app in Ht as [Ht | Ht].
        -- left. destruct (swept !! key_of req) as [old | ] eqn:Hold; simpl in Ht.
           ++ apply (Hswept _ _ Hold), Ht.
           ++ apply elem_of_nil in Ht. contradiction.
        -- apply list_elem_of_singleton in Ht. right. auto.
    + rewrite lookup_insert_ne by exact Hne. intros H.
      destruct (Hswept _ _ H) as [H1 H2]. split; [ exact H1 | ].
      intros t Ht. left. apply H2, Ht.
Qed.

Lemma serve_state_cons (w mx : Z) (requests : gmap (option string) (list Z))
    (req : Request) (now : Z) (rest : list (Request * Z)) :
  (serve w mx requests ((req, now) :: rest)).1
    = (serve w mx (createRateLimit w mx requests req now).1 rest).1.
Proof.
  simpl. destruct (createRateLimit w mx requests req now) as [r1 o]. simpl.
  destruct (serve w mx r1 rest) as [r2 os]. reflexivity.
Qed.

(** X23. The memory per key is bounded. Served from an empty map, in
    whatever order and with whatever clock readings, no key ever has more
    than [maxRequests] timestamps on record (none when [maxRequests] is
    not positive). *)
Theorem rate_limit_record_bounded (windowMs maxRequests : Z) (rs : list (Request * Z))
    (k : option string) :
  Z.of_nat (length (record (serve windowMs maxRequests ∅ rs).1 k)) <= Z.max maxRequests 0.
Proof.
  assert (Hgen : forall requests : gmap (option string) (list Z),
            (forall k', Z.of_nat (length (record requests k')) <= Z.max maxRequests 0) ->
            Z.of_nat (length (record (serve windowMs maxRequests requests rs).1 k))
              <= Z.max maxRequests 0).
  { induction rs as [ | [req now] rest IH]; intros requests Hall; [ apply Hall | ].
    rewrite serve_state_cons. apply IH. intros k'.
    rewrite createRateLimit_record, createRateLimit_outcome, length_app.
    pose proof (newer_length (now - windowMs) (record requests k')) as Hle.
    specialize (Hall k').
    destruct (Z.of_nat (length (newer (now - windowMs) (record requests (key_of req))))
              >=? maxRequests) eqn:E; simpl.
    - lia.
    - destruct (decide (key_of req = k')) as [<- | Hne]; simpl; [ | lia ].
      destruct (Z.geb_spec (Z.of_nat (length (newer (now - windowMs)
                                                (record requests (key_of req)))))
                           maxRequests); [ discriminate | lia ]. }
  apply Hgen. intros k'. unfold record. rewrite lookup_empty. simpl. lia.
Qed.

End RateLimitExtras.

(** ** The HTTP middleware and the posts controller *)

Section AuthExtras.
Import Store Auth.

Variable verify : string -> Verdict.

Lemma select_user_Data (f : Fault) (rows : list (gmap string Json)) (uid : string)
    (u : gmap string Json) :
  select_user f rows uid = Data u <->
  f = NoFault /\
  exists r, List.filter (fun r => bool_decide (r !! "id" = Some (jstr uid))) rows = [ r ] /\
            u = filter (fun kv => kv.1 ∈ user_columns) r.
Proof.
  unfold select_user. destruct f; simpl.
  2:{ split; [ discriminate | intros [H _]; discriminate ]. }
  2:{ split; [ discriminate | intros [H _]; discriminate ]. }
  destruct (List.filter _ rows) as [ | r [ | r' l]]; simpl.
  - split; [ discriminate | intros (_ & r & H & _); discriminate ].
  - split.
    + intros H. injection H as <-. split; [ reflexivity | ]. exists r. auto.
    + intros (_ & r0 & H & ->). injection H as <-. reflexivity.
  - split; [ discriminate | intros (_ & r0 & H & _); discriminate ].
Qed.

Lemma selected_user_no_admin_flag (f : Fault) (rows : list (gmap string Json))
    (uid : string) (u : gmap string Json) :
  select_user f rows uid = Data u -> u !! "is_admin" = None.
Proof.
  intros H. apply select_user_Data in H as (_ & r & _ & ->).
  apply map_lookup_filter_None. right. intros x _ Hin. simpl in Hin.
  unfold user_columns in Hin.
  repeat (apply elem_of_cons in Hin as [Hin | Hin]; [ discriminate Hin | ]).
  apply elem_of_nil in Hin. exact Hin.
Qed.

(** X24. No request gets past [authenticateToken] followed by
    [requireAdmin]. The user object [authenticateToken] attaches is the
    row cut down to the nine columns of its select list, [is_admin] is not
    one of them, and [requireAdmin] reads exactly that property: every
    route declared with the two middlewares answers 401, 403 or 500 and
    never runs its handler, whatever the token and whatever the row holds,
    an [is_admin] set to [true] included. *)
Theorem admin_routes_unreachable (rows : list (gmap string Json))
    (authHeader : option string) (f : Fault) :
  admin_route verify rows authHeader f = false /\
  (forall u, authenticateToken verify rows authHeader f = next (Some u) ->
             requireAdmin (Some u)
             = respond {| status := 403; error := "Admin access required";
                          code := "ADMIN_REQUIRED" |}).
Proof.
  assert (Hadmin : forall u, authenticateToken verify rows authHeader f = next (Some u) ->
            requireAdmin (Some u)
            = respond {| status := 403; error := "Admin access required";
                         code := "ADMIN_REQUIRED" |}).
  { intros u. unfold authenticateToken.
    destruct (negb (Js.truthy (bearer authHeader))); [ discriminate | ].
    destruct (verify _) as [uid | [ | ] [ | ]]; try discriminate.
    destruct (select_user f rows uid) as [u' | | ] eqn:Hsel; try discriminate.
    intros H. injection H as <-. unfold requireAdmin. simpl.
    rewrite (selected_user_no_admin_flag _ _ _ _ Hsel). reflexivity. }
  split; [ | exact Hadmin ].
  unfold admin_route.
  destruct (authenticateToken verify rows authHeader f) as [r | [u | ]] eqn:E;
    [ reflexivity | | ].
  - rewrite (Hadmin u eq_refl). reflexivity.
  - reflexivity.
Qed.

(** X25. When [authenticateToken] lets a request through. It calls
    [next] exactly when the second space-separated word of the
    Authorization header is there and not empty, verifies to some user
    id, the look-up answers and finds exactly one row with that id; the
    user attached is that row cut down to the select list. It answers 401
    exactly when that word is missing or empty. *)
Theorem authenticateToken_accepts_iff (rows : list (gmap string Json))
    (authHeader : option string) (f : Fault) (o : option (gmap string Json)) :
  (authenticateToken verify rows authHeader f = next o <->
   exists uid r,
     Js.truthy (bearer authHeader) = true /\
     verify (Js.or_empty (bearer authHeader)) = Verified uid /\
     f = NoFault /\
     List.filter (fun r => bool_decide (r !! "id" = Some (jstr uid))) rows = [ r ] /\
     o = Some (filter (fun kv => kv.1 ∈ user_columns) r)) /\
  (authenticateToken verify rows authHeader f
     = respond {| status := 401; error := "Access token required"; code := "TOKEN_MISSING" |}
   <-> Js.truthy (bearer authHeader) = false).
Proof.
  unfold authenticateToken. destruct (Js.truthy (bearer authHeader)); simpl.
  2:{ split; [ | tauto ].
      split; [ discriminate | intros (uid & r & H & _); discriminate ]. }
  destruct (verify (Js.or_empty (bearer authHeader))) as [uid | isJwt isExp].
  2:{ split.
      - split; [ destruct isJwt, isExp; discriminate | ].
        intros (uid & r & _ & H & _). discriminate.
      - split; [ destruct isJwt, isExp; discriminate | discriminate ]. }
  destruct (select_user f rows uid) as [u | | ] eqn:Hsel.
  - apply select_user_Data in Hsel as (-> & r & Hr & ->).
    split; [ | split; discriminate ]. split.
    + intros H. injection H as <-. exists uid, r. auto.
    + intros (uid' & r' & _ & Hv & _ & Hr' & ->). injection Hv as <-.
      rewrite Hr in Hr'. injection Hr' as <-. reflexivity.
  - split; [ | split; discriminate ]. split; [ discriminate | ].
    intros (uid' & r' & _ & Hv & -> & Hr' & _). injection Hv as <-.
    assert (Hd : select_user NoFault rows uid
                 = Data (filter (fun kv => kv.1 ∈ user_columns) r')).
    { apply select_user_Data. split; [ reflexivity | ]. exists r'. auto. }
    congruence.
  - split; [ | split; discriminate ]. split; [ discriminate | ].
    intros (uid' & r' & _ & Hv & -> & Hr' & _). injection Hv as <-.
    assert (Hd : select_user NoFault rows uid
                 = Data (filter (fun kv => kv.1 ∈ user_columns) r')).
    { apply select_user_Data. split; [ reflexivity | ]. exists r'. auto. }
    congruence.
Qed.

(** X26. [optionalAuth] never turns a request away: it always calls
    [next]. It attaches a user in exactly the cases in which
    [authenticateToken] would let the same request through, and then the
    same user. *)
Theorem optionalAuth_never_rejects (rows : list (gmap string Json))
    (authHeader : option string) (f : Fault) :
  (exists o, optionalAuth verify rows authHeader f = next o) /\
  (forall u, optionalAuth verify rows authHeader f = next (Some u)
             <-> authenticateToken verify rows authHeader f = next (Some u)).
Proof.
  unfold optionalAuth, authenticateToken.
  destruct (Js.truthy (bearer authHeader)); simpl.
  2:{ split; [ eauto | ]. intros u. split; discriminate. }
  destruct (verify (Js.or_empty (bearer authHeader))) as [uid | isJwt isExp].
  2:{ split; [ eauto | ]. intros u. split; [ discriminate | ].
      destruct isJwt, isExp; discriminate. }
  destruct (select_user f rows uid) as [u0 | | ].
  - split; [ eauto | ]. intros u. reflexivity.
  - split; [ eauto | ]. intros u. split; discriminate.
  - split; [ eauto | ]. intros u. split; discriminate.
Qed.

Lemma split_space_nonempty (s : string) : split_space s <> [].
Proof.
  destruct s as [ | c s]; simpl; [ discriminate | ].
  destruct (Ascii.eqb c " "); [ discriminate | ].
  destruct (split_space s); discriminate.
Qed.

Lemma split_space_word (w rest : string) :
  space_free w = true ->
  split_space (w +:+ String " " rest) = w :: split_space rest.
Proof.
  induction w as [ | c w IH]; intros Hw.
  - reflexivity.
  - simpl in Hw. apply andb_true_iff in Hw as [Hc Hw]. apply negb_true_iff in Hc.
    change (split_space (String c (w +:+ String " " rest)) = String c w :: split_space rest).
    simpl. rewrite Hc, (IH Hw). reflexivity.
Qed.

Lemma split_space_single (w : string) : space_free w = true -> split_space w = [ w ].
Proof.
  induction w as [ | c w IH]; intros Hw; [ reflexivity | ].
  simpl in Hw. apply andb_true_iff in Hw as [Hc Hw]. apply negb_true_iff in Hc.
  simpl. rewrite Hc, (IH Hw). reflexivity.
Qed.

(** X27. The token is the second word of the header, whatever the first.
    For a header made of a scheme word, a space and a token word,
    [authenticateToken] decides as it does for "Bearer" and the same
    token: the scheme is not looked at. A header of one word only, and a
    missing header, are answered 401. *)
Theorem scheme_is_not_checked (rows : list (gmap string Json)) (f : Fault)
    (scheme token word : string) :
  space_free scheme = true -> space_free token = true -> space_free word = true ->
  authenticateToken verify rows (Some (scheme +:+ String " " token)) f
    = authenticateToken verify rows (Some ("Bearer" +:+ String " " token)) f /\
  authenticateToken verify rows (Some word) f
    = respond {| status := 401; error := "Access token required"; code := "TOKEN_MISSING" |} /\
  authenticateToken verify rows None f
    = respond {| status := 401; error := "Access token required"; code := "TOKEN_MISSING" |}.
Proof.
  intros Hs Ht Hw.
  assert (Hb : forall s, space_free s = true ->
            bearer (Some (s +:+ String " " token)) = Some token).
  { intros s Hsf. unfold bearer.
    assert (Htr : Js.truthy (Some (s +:+ String " " token)) = true).
    { simpl. destruct s; reflexivity. }
    rewrite Htr. simpl Js.or_empty.
    rewrite (split_space_word _ _ Hsf), (split_space_single _ Ht). reflexivity. }
  split; [ | split ].
  - unfold authenticateToken. rewrite (Hb scheme Hs), (Hb "Bearer" eq_refl). reflexivity.
  - unfold authenticateToken, bearer.
    destruct (Js.truthy (Some word)) eqn:E.
    + simpl Js.or_empty. rewrite (split_space_single _ Hw). reflexivity.
    + rewrite E. reflexivity.
  - reflexivity.
Qed.

End AuthExtras.

Section PostsExtras.
Import Store Posts.

Lemma owner_unique (posts : list Post) (p : Post) :
  NoDup (List.map post_id posts) -> In p posts ->
  List.filter (fun x => String.eqb (post_id x) (post_id p)) posts = [ p ].
Proof.
  intros Hnd Hin. induction posts as [ | x l IH]; [ destruct Hin | ].
  simpl in Hnd. apply NoDup_cons in Hnd as [Hx Hnd]. simpl.
  destruct Hin as [-> | Hin].
  - rewrite String.eqb_refl. f_equal. apply filter_none. intros y Hy.
    apply String.eqb_neq. intros E. apply Hx. rewrite <- E.
    apply list_elem_of_In, in_map, Hy.
  - destruct (String.eqb (post_id x) (post_id p)) eqn:E; [ | apply IH; assumption ].
    exfalso. apply Hx. apply String.eqb_eq in E. rewrite E.
    apply list_elem_of_In, in_map, Hin.
Qed.

(** X28. Only its author deletes a post, and [deletePost] tells the
    cases apart. With unique post ids and the store answering: the author
    gets 200 and the post, and only it, is removed; anyone else gets 403
    "Not authorized to delete this post" and the post stays; an id that
    names no post gets 404 "Post not found". In no case does a request
    change a post other than the one it names. *)
Theorem deletePost_by_author_only (userId postId : string) (posts : list Post) :
  NoDup (List.map post_id posts) ->
  let posts' := (deletePost userId postId NoFault NoFault posts).1 in
  let resp := (deletePost userId postId NoFault NoFault posts).2 in
  (forall p, In p posts -> post_id p = postId -> user_id p = userId ->
     resp = {| status := 200; body := inr "Post deleted successfully" |} /\
     ~ In p posts') /\
  (forall p, In p posts -> post_id p = postId -> user_id p <> userId ->
     resp = {| status := 403; body := inl "Not authorized to delete this post" |} /\
     posts' = posts) /\
  ((forall p, In p posts -> post_id p <> postId) ->
     resp = {| status := 404; body := inl "Post not found" |} /\ posts' = posts) /\
  (forall q, In q posts -> post_id q <> postId -> In q posts').
Proof.
  intros Hnd. simpl. unfold deletePost, select_owner, delete_post. simpl.
  split; [ | split; [ | split ] ].
  - intros p Hp Hid Hu. subst postId. rewrite (owner_unique _ _ Hnd Hp). simpl.
    rewrite Hu, String.eqb_refl. simpl. split; [ reflexivity | ].
    intros Hin. apply filter_In in Hin as [_ Hin]. rewrite String.eqb_refl in Hin.
    discriminate.
  - intros p Hp Hid Hu. subst postId. rewrite (owner_unique _ _ Hnd Hp). simpl.
    apply String.eqb_neq in Hu. rewrite Hu. simpl. auto.
  - intros Hnone.
    rewrite (filter_none (fun p => String.eqb (post_id p) postId) posts).
    + simpl. auto.
    + intros x Hx. apply String.eqb_neq, Hnone, Hx.
  - intros q Hq Hne.
    destruct (single _) as [owner | | ]; simpl; try exact Hq.
    destruct (negb (String.eqb owner userId)); simpl; [ exact Hq | ].
    apply filter_In. split; [ exact Hq | ]. apply negb_true_iff, String.eqb_neq, Hne.
Qed.

End PostsExtras.

Section HashtagExtras.
Import Hashtags.

Lemma all_chars_snoc (p : ascii -> bool) (w : string) (c : ascii) :
  all_chars p (w +:+ String c "") = all_chars p w && p c.
Proof.
  induction w as [ | d w IH].
  - simpl. apply andb_true_r.
  - change (p d && all_chars p (w +:+ String c "") = p d && all_chars p w && p c).
    rewrite IH. apply andb_assoc.
Qed.

Lemma snoc_not_empty (w : string) (c : ascii) : String.eqb (w +:+ String c "") "" = false.
Proof. destruct w; reflexivity. Qed.

Lemma flush_matches (cur : option string) :
  match cur with Some w => all_chars is_word w = true | None => True end ->
  Forall (fun t => is_match t = true) (flush cur).
Proof.
  destruct cur as [w | ]; simpl; intros Hw; [ | constructor ].
  destruct (String.eqb w "") eqn:E; constructor; [ | constructor ].
  simpl. rewrite E, Hw. reflexivity.
Qed.

Lemma scan_matches (s : string) :
  forall cur : option string,
    match cur with Some w => all_chars is_word w = true | None => True end ->
    Forall (fun t => is_match t = true) (scan s cur).
Proof.
  induction s as [ | c s IH]; intros cur Hcur; simpl.
  - apply flush_matches, Hcur.
  - assert (Hstart : match start c with
                     | Some w => all_chars is_word w = true
                     | None => True
                     end).
    { unfold start. destruct (Ascii.eqb c "#"); simpl; auto. }
    destruct cur as [w | ]; [ | apply IH, Hstart ].
    destruct (is_word c) eqn:Hc.
    + apply IH. rewrite all_chars_snoc, Hcur, Hc. reflexivity.
    + apply Forall_app. split; [ apply flush_matches, Hcur | apply IH, Hstart ].
Qed.

Lemma lower_word (c : ascii) :
  is_word c = true -> is_word (lower c) && negb (is_upper (lower c)) = true.
Proof.
  destruct c as [[] [] [] [] [] [] [] []]; vm_compute; intros H;
    first [ reflexivity | discriminate H ].
Qed.

Lemma toLowerCase_word (w : string) :
  all_chars is_word w = true ->
  all_chars (fun c => is_word c && negb (is_upper c)) (toLowerCase w) = true.
Proof.
  induction w as [ | c w IH]; simpl; [ reflexivity | ]. intros H.
  apply andb_true_iff in H as [Hc Hw]. rewrite (lower_word c Hc), (IH Hw). reflexivity.
Qed.

Lemma toLowerCase_empty (w : string) : String.eqb (toLowerCase w) "" = String.eqb w "".
Proof. destruct w; reflexivity. Qed.

Lemma toLowerCase_tag (t : string) : is_match t = true -> is_tag (toLowerCase t) = true.
Proof.
  destruct t as [ | c w]; simpl; [ discriminate | ]. intros H.
  apply andb_true_iff in H as [H Hw]. apply andb_true_iff in H as [Hc He].
  apply Ascii.eqb_eq in Hc. subst c.
  change (lower "#") with "#"%char. rewrite Ascii.eqb_refl, toLowerCase_empty, He.
  simpl. apply toLowerCase_word, Hw.
Qed.

Lemma uniq_In (x : string) (l : list string) : In x (uniq l) <-> In x l.
Proof.
  induction l as [ | y l IH]; simpl; [ reflexivity | ].
  rewrite filter_In, IH. split.
  - intros [H | [H _]]; auto.
  - intros [H | H]; [ auto | ].
    destruct (String.eqb x y) eqn:E.
    + apply String.eqb_eq in E. auto.
    + right. split; [ exact H | reflexivity ].
Qed.

Lemma filter_NoDup (f : string -> bool) (l : list string) :
  NoDup l -> NoDup (List.filter f l).
Proof.
  induction l as [ | y l IH]; intros H; [ exact H | ].
  apply NoDup_cons in H as [Hy H]. simpl. destruct (f y); [ | apply IH, H ].
  apply NoDup_cons. split; [ | apply IH, H ].
  intros Hin. apply Hy. apply list_elem_of_In in Hin. apply filter_In in Hin as [Hin _].
  apply list_elem_of_In, Hin.
Qed.

Lemma uniq_NoDup (l : list string) : NoDup (uniq l).
Proof.
  induction l as [ | y l IH]; simpl; [ apply NoDup_nil_2 | ].
  apply NoDup_cons. split; [ | apply filter_NoDup, IH ].
  intros Hin. apply list_elem_of_In, filter_In in Hin as [_ Hin].
  rewrite String.eqb_refl in Hin. discriminate.
Qed.

(** X29. The hashtags of a post. Whatever the text, every tag that
    [createPost] stores and every tag that [extractHashtags] returns is
    "#" followed by one or more characters of [a-z0-9_]: lower case, never
    a bare "#". The tags of [createPost] contain no duplicate, so tags
    that differ only in case are merged; [extractHashtags] returns at most
    ten, each of them one of the tags of [createPost]. *)
Theorem hashtags_well_formed (text : string) :
  Forall (fun t => is_tag t = true) (uniqueHashtags text) /\
  NoDup (uniqueHashtags text) /\
  (forall t, In t (uniqueHashtags text) <-> In t (List.map toLowerCase (matches text))) /\
  Forall (fun t => is_tag t = true) (extractHashtags text) /\
  (length (extractHashtags text) <= 10)%nat /\
  (forall t, In t (extractHashtags text) -> In t (uniqueHashtags text)).
Proof.
  assert (Hall : Forall (fun t => is_tag t = true) (List.map toLowerCase (matches text))).
  { apply Forall_forall. intros t Ht. apply list_elem_of_In, in_map_iff in Ht as (m & <- & Hm).
    apply toLowerCase_tag.
    pose proof (scan_matches text None I) as Hs. rewrite Forall_forall in Hs.
    apply Hs, list_elem_of_In, Hm. }
  unfold uniqueHashtags, extractHashtags.
  split.
  { apply Forall_forall. intros t Ht. rewrite Forall_forall in Hall. apply Hall.
    apply list_elem_of_In, uniq_In, list_elem_of_In, Ht. }
  split; [ apply uniq_NoDup | ].
  split; [ intros t; apply uniq_In | ].
  split.
  { apply Forall_forall. intros t Ht. rewrite Forall_forall in Hall. apply Hall.
    eapply subseteq_take, Ht. }
  split; [ apply firstn_le_length | ].
  intros t Ht. apply uniq_In. apply list_elem_of_In.
  eapply subseteq_take. apply list_elem_of_In, Ht.
Qed.

Example hashtags_sample :
  uniqueHashtags "Planting #Rice and #rice in #soil_2024! ## #" = [ "#rice"; "#soil_2024" ] /\
  extractHashtags "#a#B c#" = [ "#a"; "#b" ].
Proof. split; reflexivity. Qed.

End HashtagExtras.

(** ** The further properties on the sample deployment *)

Section ExtraInstances.
Import Store Relay Messages Inbox RateLimit.


Lemma handshake_accepted_iff_witness :
  sockets Sample.srv0 !! "s3" = None /\
  Relay.step Sample.jwt_verify schema_sql Sample.srv0 (Connect "s3" (Some "token-u2") NoFault)
    = ({| sockets := <[ "s3" := {| userId := "u2"; rooms := {[ user_room "u2" ]} |} ]>
                       (sockets Sample.srv0);
          db := db Sample.srv0 |}, []).
Proof.
  assert (Habs : sockets Sample.srv0 !! "s3" = None) by (vm_compute; reflexivity).
  split; [ exact Habs | ].
  apply (proj1 (handshake_accepted_iff Sample.jwt_verify schema_sql Sample.srv0 "s3"
                  (Some "token-u2") NoFault "u2" Habs)).
  repeat split; reflexivity.
Defined.

Lemma call_signalling_forwarded_witness :
  rooms_ok Sample.srv0 /\
  sockets Sample.srv0 !! "s1" = Some Sample.sock1 /\
  Relay.step Sample.jwt_verify schema_sql Sample.srv0
    (Receive "s1" (call_user "u2" "sdp-offer" video) Sample.env1)
  = (Sample.srv0,
     [ Emit {| origin := "s1"; target := socket_to "s1" (user_room "u2");
               event := incoming_call "u1" "sdp-offer" video;
               receivers := members (sockets Sample.srv0) (user_room "u2") ∖ {[ "s1" ]} |} ]).
Proof.
  split; [ exact sample_rooms_ok | ]. split; [ exact sample_s1 | ].
  destruct (call_signalling_forwarded Sample.jwt_verify schema_sql Sample.srv0 "s1"
              Sample.sock1 sample_rooms_ok sample_s1) as (H & _).
  exact (H "u2" "sdp-offer" video Sample.env1).
Defined.

Lemma socket_identity_stable_witness :
  sockets Sample.srv0 !! "s1" = Some Sample.sock1 /\
  forallb (fun i => negb (is_disconnect i && String.eqb (input_sid i) "s1"))
    [ Receive "s1" (join_conversation "u2") Sample.env1; Disconnect "s2" ] = true /\
  exists sock',
    sockets (Relay.run Sample.jwt_verify schema_sql Sample.srv0
               [ Receive "s1" (join_conversation "u2") Sample.env1; Disconnect "s2" ]).1
      !! "s1" = Some sock' /\
    userId sock' = "u1" /\ rooms Sample.sock1 ⊆ rooms sock'.
Proof.
  assert (Hno : forallb (fun i => negb (is_disconnect i && String.eqb (input_sid i) "s1"))
                  [ Receive "s1" (join_conversation "u2") Sample.env1; Disconnect "s2" ]
                = true) by reflexivity.
  split; [ exact sample_s1 | ]. split; [ exact Hno | ].
  exact (socket_identity_stable Sample.jwt_verify schema_sql _ Sample.srv0 "s1" Sample.sock1
           sample_s1 Hno).
Defined.

Lemma sample_joined_s1 :
  sockets (Relay.run Sample.jwt_verify schema_sql (init Sample.db0) Sample.joined).1 !! "s1"
    = Some {| userId := "u1";
              rooms := {[ user_room "u1" ]} ∪ {[ conversation_room "u1:u2" ]} |}.
Proof. vm_compute. reflexivity. Defined.

Lemma conversation_room_is_private_witness :
  colon_free "u1" = true /\ colon_free "u2" = true /\
  sockets (Relay.run Sample.jwt_verify schema_sql (init Sample.db0) Sample.joined).1 !! "s1"
    = Some {| userId := "u1";
              rooms := {[ user_room "u1" ]} ∪ {[ conversation_room "u1:u2" ]} |} /\
  conversation_room (conversationId "u1" "u2")
    ∈ ({[ user_room "u1" ]} ∪ {[ conversation_room "u1:u2" ]} : gset string) /\
  ("u1" = "u1" \/ "u1" = "u2").
Proof.
  assert (Hin : conversation_room (conversationId "u1" "u2")
                ∈ ({[ user_room "u1" ]} ∪ {[ conversation_room "u1:u2" ]} : gset string)).
  { apply elem_of_union. right. apply elem_of_singleton. reflexivity. }
  split; [ reflexivity | ]. split; [ reflexivity | ]. split; [ exact sample_joined_s1 | ].
  split; [ exact Hin | ].
  exact (conversation_room_is_private Sample.jwt_verify schema_sql Sample.db0 Sample.joined
           "u1" "u2" "s1" _ eq_refl eq_refl sample_joined_s1 eq_refl Hin).
Defined.

Lemma sample_srv_ids_unique :
  NoDup (List.map id (messages (db {| sockets := sockets Sample.srv0; db := Sample.db2 |}))).
Proof. exact sample_ids_unique. Defined.

Lemma relay_keeps_ids_unique_witness :
  NoDup (List.map id (messages (db {| sockets := sockets Sample.srv0; db := Sample.db2 |}))) /\
  NoDup (List.map id
           (messages (db (Relay.run Sample.jwt_verify schema_sql
                            {| sockets := sockets Sample.srv0; db := Sample.db2 |}
                            [ Receive "s1" (send_message "u2" "again" None) Sample.env2 ]).1))).
Proof.
  split; [ exact sample_srv_ids_unique | ].
  exact (relay_keeps_ids_unique Sample.jwt_verify schema_sql _ _ sample_srv_ids_unique).
Defined.

Lemma sample_u2_named : "u2" <> "".
Proof. discriminate. Defined.

Lemma getConversations_summary_witness :
  "u2" <> "" /\
  exists cs,
    getConversations (Some "u2") NoFault Sample.db2
      = {| code := 200; content := content_conversations cs |} /\
    NoDup (List.map (partner "u2") cs).
Proof.
  split; [ exact sample_u2_named | ].
  destruct (getConversations_summary "u2" Sample.db2 sample_u2_named)
    as (cs & H1 & H2 & _).
  exists cs. split; assumption.
Defined.

Lemma sample_conversations :
  getConversations (Some "u2") NoFault Sample.db2
    = {| code := 200;
         content := content_conversations
                      [ {| user := Some (profile_of true Sample.alice);
                           lastMessage := view embed_both_verified Sample.db2 Sample.m2;
                           unreadCount := 1 |} ] |}.
Proof. reflexivity. Defined.

Lemma unread_counts_agree_witness :
  "u2" <> "" /\
  getConversations (Some "u2") NoFault Sample.db2
    = {| code := 200;
         content := content_conversations
                      [ {| user := Some (profile_of true Sample.alice);
                           lastMessage := view embed_both_verified Sample.db2 Sample.m2;
                           unreadCount := 1 |} ] |} /\
  getUnreadCount (Some "u2") NoFault Sample.db2
    = {| code := 200; content := content_unreadCount 1 |}.
Proof.
  split; [ exact sample_u2_named | ]. split; [ exact sample_conversations | ].
  exact (unread_counts_agree "u2" Sample.db2 _ sample_u2_named sample_conversations).
Defined.

Lemma sample_dave_uuid : is_uuid (user_id Sample.dave) = true.
Proof. reflexivity. Defined.

Lemma sample_carol_uuid : is_uuid (user_id Sample.carol) = true.
Proof. reflexivity. Defined.

Lemma mark_read_clears_partner_witness :
  is_uuid (user_id Sample.dave) = true /\
  markMessagesAsRead (Some (user_id Sample.dave)) "u1" NoFault Sample.strict 5000 Sample.db3
    = (Sample.db3,
       {| code := 500; content := content_error "Failed to mark messages as read" |}) /\
  count_unread NoFault
    (markMessagesAsRead (Some (user_id Sample.dave)) (user_id Sample.carol) NoFault
       Sample.strict 5000 Sample.db3).1 (user_id Sample.dave)
    = Data 0.
Proof.
  split; [ exact sample_dave_uuid | ]. split.
  - destruct (mark_read_clears_partner (user_id Sample.dave) "u1" Sample.strict 5000 6000
                Sample.db3 sample_dave_uuid) as (_ & H & _).
    exact (H eq_refl).
  - destruct (mark_read_clears_partner (user_id Sample.dave) (user_id Sample.carol)
                Sample.strict 5000 6000 Sample.db3 sample_dave_uuid) as (_ & _ & H).
    destruct (H (user_id Sample.carol) eq_refl) as (_ & _ & _ & _ & Hc & _).
    exact Hc.
Defined.

Lemma sample_sent :
  status (sendMessage schema_sql (Some "u1") (Some "u2") (Some "hello") None NoFault
            Sample.env1 Sample.db0).2 = 201.
Proof. reflexivity. Defined.

Lemma sent_message_is_unread_witness :
  status (sendMessage schema_sql (Some "u1") (Some "u2") (Some "hello") None NoFault
            Sample.env1 Sample.db0).2 = 201 /\
  messages (sendMessage schema_sql (Some "u1") (Some "u2") (Some "hello") None NoFault
              Sample.env1 Sample.db0).1 = [ Sample.m1 ].
Proof.
  split; [ exact sample_sent | ].
  destruct (sent_message_is_unread schema_sql (Some "u1") (Some "u2") (Some "hello") None
              NoFault Sample.env1 Sample.db0) as [_ H].
  destruct (H sample_sent) as (_ & Hm & _). exact Hm.
Defined.

Lemma sample_page_safe : 1 * 50 <= Js.MAX_SAFE_INTEGER.
Proof. unfold Js.MAX_SAFE_INTEGER. lia. Defined.

Lemma sample_first_page : 1 <= 1.
Proof. lia. Defined.

Lemma sample_page_size : 1 <= 50.
Proof. lia. Defined.

Lemma getMessages_page_witness :
  is_uuid (user_id Sample.dave) = true /\ is_uuid (user_id Sample.carol) = true /\
  1 <= 1 /\ 1 <= 50 /\ 1 * 50 <= Js.MAX_SAFE_INTEGER /\
  exists rows : list Message,
    (getMessages (Some (user_id Sample.dave)) (user_id Sample.carol) (Some 1) (Some 50)
       NoFault Sample.refuse NoFault 5000 Sample.db3).2
      = reply 200 (json_messages (List.map (view embed_sender_verified Sample.db3) rows)
                                 (Z.of_nat (length rows) =? 50)) /\
    Z.of_nat (length rows) <= 50.
Proof.
  split; [ exact sample_dave_uuid | ]. split; [ exact sample_carol_uuid | ].
  split; [ exact sample_first_page | ]. split; [ exact sample_page_size | ].
  split; [ exact sample_page_safe | ].
  destruct (getMessages_page (user_id Sample.dave) (user_id Sample.carol) 1 50
              Sample.refuse 5000 Sample.db3 sample_dave_uuid sample_carol_uuid
              sample_first_page sample_page_size sample_page_safe)
    as ((rows & Ha & Hb & _) & _).
  exists rows. split; assumption.
Defined.

Lemma sample_times_distinct :
  NoDup (List.map created_at
           (List.filter (between (user_id Sample.dave) (user_id Sample.carol))
                        (messages Sample.db3))).
Proof.
  simpl. apply NoDup_cons. split.
  - intros Hin. apply list_elem_of_singleton in Hin. discriminate Hin.
  - apply NoDup_singleton.
Defined.

Lemma getMessages_again_changes_nothing_witness :
  is_uuid (user_id Sample.dave) = true /\ is_uuid (user_id Sample.carol) = true /\
  1 <= 1 /\ 1 <= 50 /\ 1 * 50 <= Js.MAX_SAFE_INTEGER /\
  NoDup (List.map created_at
           (List.filter (between (user_id Sample.dave) (user_id Sample.carol))
                        (messages Sample.db3))) /\
  (getMessages (Some (user_id Sample.dave)) (user_id Sample.carol) (Some 1) (Some 50)
     NoFault Sample.refuse NoFault 9000
     (getMessages (Some (user_id Sample.dave)) (user_id Sample.carol) (Some 1) (Some 50)
        NoFault Sample.refuse NoFault 5000 Sample.db3).1).1
  = (getMessages (Some (user_id Sample.dave)) (user_id Sample.carol) (Some 1) (Some 50)
       NoFault Sample.refuse NoFault 5000 Sample.db3).1.
Proof.
  split; [ exact sample_dave_uuid | ]. split; [ exact sample_carol_uuid | ].
  split; [ exact sample_first_page | ]. split; [ exact sample_page_size | ].
  split; [ exact sample_page_safe | ]. split; [ exact sample_times_distinct | ].
  exact (getMessages_again_changes_nothing (user_id Sample.dave) (user_id Sample.carol)
           1 50 Sample.refuse Sample.refuse NoFault 5000 9000 Sample.db3
           sample_dave_uuid sample_carol_uuid sample_first_page sample_page_size
           sample_page_safe sample_times_distinct).
Defined.

Lemma sample_deleted :
  status (deleteMessage (Some "u1") "m1" NoFault NoFault Sample.db2).2 = 200.
Proof. reflexivity. Defined.

Lemma deleted_message_is_gone_witness :
  status (deleteMessage (Some "u1") "m1" NoFault NoFault Sample.db2).2 = 200 /\
  has_message (deleteMessage (Some "u1") "m1" NoFault NoFault Sample.db2).1 "m1" = false.
Proof.
  split; [ exact sample_deleted | ].
  destruct (deleted_message_is_gone (Some "u1") (Some "u1") "m1" NoFault NoFault Sample.db2
              sample_deleted) as (H & _).
  exact H.
Defined.

Lemma controller_keeps_ids_unique_witness :
  NoDup (List.map id (messages Sample.db2)) /\
  NoDup (List.map id
           (messages (sendMessage schema_sql (Some "u1") (Some "u2") (Some "again") None
                        NoFault Sample.env2 Sample.db2).1)).
Proof.
  split; [ exact sample_ids_unique | ].
  destruct (controller_keeps_ids_unique schema_sql (Some "u1") Sample.db2 sample_ids_unique)
    as (H & _).
  exact (H (Some "u2") (Some "again") None NoFault Sample.env2).
Defined.


Lemma sample_u1_named : "u1" <> "".
Proof. discriminate. Defined.

Lemma relay_accepts_empty_message_witness :
  sockets Sample.srv0 !! "s1" = Some Sample.sock1 /\
  userId Sample.sock1 = "u1" /\
  has_user (db Sample.srv0) "u1" = true /\ has_user (db Sample.srv0) "u2" = true /\
  has_message (db Sample.srv0) (fresh_id Sample.env1) = false /\
  fault Sample.env1 = NoFault /\ "u1" <> "" /\ "u2" <> "" /\
  messages (db (Relay.step Sample.jwt_verify DATABASE_SCHEMA Sample.srv0
                  (Receive "s1" (send_message "u2" "" None) Sample.env1)).1)
    = messages (db Sample.srv0) ++ [ new_row Sample.env1 "u1" "u2" "" None ].
Proof.
  split; [ exact sample_s1 | ]. repeat (split; [ reflexivity | ]).
  split; [ exact sample_u1_named | ]. split; [ exact sample_u2_named | ].
  destruct (relay_accepts_empty_message Sample.jwt_verify "u1" "u2" Sample.env1 Sample.srv0
              "s1" Sample.sock1 sample_s1 eq_refl eq_refl eq_refl eq_refl eq_refl
              sample_u1_named sample_u2_named) as (_ & H & _).
  exact H.
Defined.

Lemma sample_burst_chronological : chronological Sample.burst.
Proof. simpl. lia. Defined.

Lemma rate_limit_never_exceeded_witness :
  chronological Sample.burst /\
  Z.of_nat (length (in_window 1000 1005
                      (times_of (Some "10.0.0.7")
                         (admitted_of Sample.burst (serve 1000 2 ∅ Sample.burst).2))))
    <= Z.max 2 0.
Proof.
  split; [ exact sample_burst_chronological | ].
  exact (rate_limit_never_exceeded 1000 2 Sample.burst (Some "10.0.0.7") 1005
           sample_burst_chronological).
Defined.

Lemma rate_limit_keys_independent_witness :
  chronological Sample.burst /\
  outcomes_for (Some "10.0.0.7") Sample.burst (serve 1000 2 ∅ Sample.burst).2
    = (serve 1000 2 ∅ (for_key (Some "10.0.0.7") Sample.burst)).2.
Proof.
  split; [ exact sample_burst_chronological | ].
  exact (rate_limit_keys_independent 1000 2 Sample.burst (Some "10.0.0.7")
           sample_burst_chronological).
Defined.

Lemma sample_limited :
  (createRateLimit 1000 2 ∅ Sample.client 0).1 !! Some "10.0.0.7" = Some [ 0 ].
Proof. vm_compute. reflexivity. Defined.

Lemma rate_limit_map_is_swept_witness :
  (createRateLimit 1000 2 ∅ Sample.client 0).1 !! Some "10.0.0.7" = Some [ 0 ] /\
  [ 0 ] <> ([] : list Z).
Proof.
  split; [ exact sample_limited | ].
  exact (proj1 (rate_limit_map_is_swept 1000 2 ∅ Sample.client 0 (Some "10.0.0.7") [ 0 ]
                  sample_limited)).
Defined.

End ExtraInstances.

Section MiddlewareInstances.
Import Store Auth.

(** The administrator of the sample, with a valid token, is turned away
    from an admin route. *)
Example administrator_is_refused :
  authenticateToken Sample.verify [ Sample.admin_row ] (Some "Bearer token-u1") NoFault
    = next (Some (<[ "id" := jstr "u1" ]>
                  (<[ "username" := jstr "alice" ]>
                  (<[ "email" := jstr "alice@example.org" ]> ∅)))) /\
  Sample.admin_row !! "is_admin" = Some (jbool true) /\
  admin_route Sample.verify [ Sample.admin_row ] (Some "Bearer token-u1") NoFault = false.
Proof. vm_compute. repeat split; reflexivity. Qed.

Lemma scheme_is_not_checked_witness :
  space_free "Basic" = true /\ space_free "token-u1" = true /\ space_free "token-u1" = true /\
  authenticateToken Sample.verify [ Sample.admin_row ] (Some "Basic token-u1") NoFault
    = authenticateToken Sample.verify [ Sample.admin_row ] (Some "Bearer token-u1") NoFault.
Proof.
  repeat (split; [ reflexivity | ]).
  exact (proj1 (scheme_is_not_checked Sample.verify [ Sample.admin_row ] NoFault
                  "Basic" "token-u1" "token-u1" eq_refl eq_refl eq_refl)).
Defined.

Lemma sample_post_ids_unique : NoDup (List.map Posts.post_id Sample.posts).
Proof.
  simpl. apply NoDup_cons. split.
  - intros Hin. apply list_elem_of_singleton in Hin. discriminate Hin.
  - apply NoDup_singleton.
Defined.

Lemma deletePost_by_author_only_witness :
  NoDup (List.map Posts.post_id Sample.posts) /\
  (Posts.deletePost "u2" "p1" NoFault NoFault Sample.posts).2
    = {| Posts.status := 403; Posts.body := inl "Not authorized to delete this post" |}.
Proof.
  split; [ exact sample_post_ids_unique | ].
  destruct (deletePost_by_author_only "u2" "p1" Sample.posts sample_post_ids_unique)
    as (_ & H & _).
  refine (proj1 (H {| Posts.post_id := "p1"; Posts.user_id := "u1";
                      Posts.post_text := "Sowing #maize" |} _ eq_refl _)).
  - simpl. left. reflexivity.
  - simpl. discriminate.
Defined.

End MiddlewareInstances.
